(** * The Kubernetes watch-api client ([KubeWatchApi]), embedded in Rocq

    The development follows [kube-watch-api.ts]: the reference-counted
    registry of subscribed APIs, the request payload computed from it,
    the decoding of stream chunks into watch messages, the bookkeeping
    of resource versions and the handling of a server-side stream end.

    JavaScript values are modelled by an inductive type, the observable
    [Map] of subscribers by an insertion-ordered association list,
    numbers that the code counts with by [Z], exceptions by a result
    type, and the asynchronous parts (awaited promises, timers) by a
    list of pending tasks that an event loop settles one at a time.
    An [async] method is cut at its [await]: what runs at the call is one
    function, what runs when the awaited promise settles is another.
    The reaction that calls [connect] when the active set changes and
    the loop that reads the chunks off the response are the callers of
    [connect] and [handleStreamEvent] and are not modelled. *)

From Stdlib Require Import List String Ascii ZArith Lia Bool Arith.
From Stdlib Require Strings.Byte.
From Stdlib Require Import Permutation Btauto.
Import ListNotations.

Local Open Scope string_scope.
Local Open Scope Z_scope.
Local Open Scope list_scope.

Set Implicit Arguments.
Set Warnings "-register-all".

(* ================================================================== *)
(** * Part I: the model *)
(* ================================================================== *)

(** ** JavaScript values *)

(** What [JSON.parse] can return, plus [undefined] (the result of reading
    a property that is not there).  A number is kept as its literal: the
    code under study never computes with a parsed number.  A string is a
    sequence of bytes, the UTF-8 encoding of the JavaScript string.  An
    array is an object too: next to its elements it carries the named
    properties that code has given it, none when it comes from
    [JSON.parse]. *)
Inductive Value : Type :=
| VUndefined
| VNull
| VBool (b : bool)
| VNum (literal : string)
| VStr (s : string)
| VArr (elems : list Value) (props : list (string * Value))
| VObj (fields : list (string * Value)).

(** Outcome of an evaluation that may throw. *)
Inductive Completion (A : Type) : Type :=
| Normal (a : A)
| Throw (reason : string).

Arguments Normal {A} a.
Arguments Throw {A} reason.

Definition bind {A B} (c : Completion A) (k : A -> Completion B) : Completion B :=
  match c with
  | Normal a => k a
  | Throw e => Throw e
  end.

Declare Scope completion_scope.
Delimit Scope completion_scope with completion.
Notation "x <- c ;; k" := (bind c (fun x => k))
  (at level 61, c at next level, right associativity) : completion_scope.

Fixpoint lookup_field (fields : list (string * Value)) (name : string) : Value :=
  match fields with
  | [] => VUndefined
  | (k, v) :: rest => if String.eqb k name then v else lookup_field rest name
  end.

Fixpoint assign_field (fields : list (string * Value)) (name : string) (v : Value)
  : list (string * Value) :=
  match fields with
  | [] => [(name, v)]
  | (k, w) :: rest =>
      if String.eqb k name then (k, v) :: rest
      else (k, w) :: assign_field rest name v
  end.

(** [v.name]: a [TypeError] on [undefined] and [null], the own property
    of an object or an array, [undefined] on a primitive (none of the
    property names that the code reads is an index, or exists on the
    prototype of a primitive or of an array). *)
Definition get_prop (v : Value) (name : string) : Completion Value :=
  match v with
  | VUndefined => Throw "TypeError: cannot read properties of undefined"
  | VNull => Throw "TypeError: cannot read properties of null"
  | VObj fields => Normal (lookup_field fields name)
  | VArr _ props => Normal (lookup_field props name)
  | _ => Normal VUndefined
  end.

(** [v.name = x] in a module, which is strict code: an object and an
    array take the property, every other value raises a [TypeError].
    The result is [v] after the assignment. *)
Definition set_prop (v : Value) (name : string) (x : Value) : Completion Value :=
  match v with
  | VUndefined => Throw "TypeError: cannot set properties of undefined"
  | VNull => Throw "TypeError: cannot set properties of null"
  | VObj fields => Normal (VObj (assign_field fields name x))
  | VArr elems props => Normal (VArr elems (assign_field props name x))
  | _ => Throw "TypeError: cannot create property on a primitive"
  end.

(** *** The number that a literal denotes

    A literal of the JSON grammar: an optional minus sign, an integer
    part without a leading zero, an optional fraction, an optional
    exponent.  It denotes [mantissa * 10 ^ exponent], negated when
    [negative]. *)
Record Decimal : Type := {
  negative : bool;
  mantissa : Z;
  exponent : Z
}.

Definition digit_of (c : ascii) : option Z :=
  let n := nat_of_ascii c in
  if (48 <=? n)%nat && (n <=? 57)%nat then Some (Z.of_nat n - 48) else None.

(** The leading digits of [s]: their value after [acc], how many they
    are, and what follows them. *)
Fixpoint read_digits (s : list ascii) (acc : Z) (count : nat) : Z * nat * list ascii :=
  match s with
  | c :: rest =>
      match digit_of c with
      | Some d => read_digits rest (10 * acc + d) (S count)
      | None => (acc, count, s)
      end
  | [] => (acc, count, [])
  end.

Definition code_is (n : nat) (c : ascii) : bool := Nat.eqb (nat_of_ascii c) n.

Definition decimal_of (literal : string) : option Decimal :=
  let s := list_ascii_of_string literal in
  let (neg, s1) :=
    match s with
    | c :: r => if code_is 45 c then (true, r) else (false, s)
    | [] => (false, s)
    end in
  let leading_zero :=
    match s1 with
    | c :: _ => code_is 48 c
    | [] => false
    end in
  let '(int, int_count, s2) := read_digits s1 0 O in
  if Nat.eqb int_count 0 || (leading_zero && negb (Nat.eqb int_count 1)) then None
  else
    let fraction :=
      match s2 with
      | c :: r =>
          if code_is 46 c then
            let '(m, count, r') := read_digits r int O in
            if Nat.eqb count 0 then None else Some (m, count, r')
          else Some (int, O, s2)
      | [] => Some (int, O, s2)
      end in
    match fraction with
    | None => None
    | Some (m, frac_count, s3) =>
        let exp :=
          match s3 with
          | c :: r =>
              if code_is 101 c || code_is 69 c then
                let (minus, r1) :=
                  match r with
                  | c' :: r' =>
                      if code_is 45 c' then (true, r')
                      else if code_is 43 c' then (false, r')
                      else (false, r)
                  | [] => (false, r)
                  end in
                let '(e, count, r2) := read_digits r1 0 O in
                if Nat.eqb count 0 then None
                else Some (if minus then - e else e, r2)
              else Some (0, s3)
          | [] => Some (0, s3)
          end in
        match exp with
        | Some (e, []) =>
            Some {| negative := neg; mantissa := m;
                    exponent := e - Z.of_nat frac_count |}
        | _ => None
        end
    end.

(** The Number value of a decimal is zero when the decimal is zero, and
    when it is so small that it rounds to zero: not above half of the
    least positive Number value, which is [2 ^ -1074]. *)
Definition rounds_to_zero (d : Decimal) : bool :=
  (mantissa d =? 0)
  || ((exponent d <? 0) && (mantissa d * Z.pow 2 1075 <=? Z.pow 10 (- exponent d))).

(** [!!v]: of the numbers, zero (of either sign) and [NaN] are falsy; a
    literal outside the JSON grammar stands for [NaN]. *)
Definition truthy (v : Value) : bool :=
  match v with
  | VUndefined | VNull => false
  | VBool b => b
  | VNum n =>
      match decimal_of n with
      | Some d => negb (rounds_to_zero d)
      | None => false
      end
  | VStr s => negb (String.eqb s "")
  | VArr _ _ | VObj _ => true
  end.

(** What [v.name] gives where it gives something. *)
Definition field (v : Value) (name : string) : Value :=
  match v with
  | VObj fields => lookup_field fields name
  | VArr _ props => lookup_field props name
  | _ => VUndefined
  end.

(** [v === undefined || v === null] *)
Definition is_nullish (v : Value) : bool :=
  match v with
  | VUndefined | VNull => true
  | _ => false
  end.

(** [typeof v === "object" && v !== null] *)
Definition is_object (v : Value) : bool :=
  match v with
  | VObj _ | VArr _ _ => true
  | _ => false
  end.

(** Structural equality of values, by nested recursion. *)
Fixpoint Value_eqb (x y : Value) {struct x} : bool :=
  match x, y with
  | VUndefined, VUndefined => true
  | VNull, VNull => true
  | VBool a, VBool b => Bool.eqb a b
  | VNum a, VNum b => String.eqb a b
  | VStr a, VStr b => String.eqb a b
  | VArr xs ps, VArr ys qs =>
      (fix all2 (xs ys : list Value) {struct xs} : bool :=
         match xs, ys with
         | [], [] => true
         | x' :: xs', y' :: ys' => Value_eqb x' y' && all2 xs' ys'
         | _, _ => false
         end) xs ys
      && (fix all2 (xs ys : list (string * Value)) {struct xs} : bool :=
            match xs, ys with
            | [], [] => true
            | (k, x') :: xs', (l, y') :: ys' =>
                String.eqb k l && Value_eqb x' y' && all2 xs' ys'
            | _, _ => false
            end) ps qs
  | VObj xs, VObj ys =>
      (fix all2 (xs ys : list (string * Value)) {struct xs} : bool :=
         match xs, ys with
         | [], [] => true
         | (k, x') :: xs', (l, y') :: ys' =>
             String.eqb k l && Value_eqb x' y' && all2 xs' ys'
         | _, _ => false
         end) xs ys
  | _, _ => false
  end.

(** Induction over values that reaches the elements of arrays and the
    fields of objects. *)
Section ValueInduction.
Variable P : Value -> Prop.
Hypothesis Hundef : P VUndefined.
Hypothesis Hnull : P VNull.
Hypothesis Hbool : forall b, P (VBool b).
Hypothesis Hnum : forall n, P (VNum n).
Hypothesis Hstr : forall s, P (VStr s).
Hypothesis Harr : forall l p,
  Forall P l -> Forall (fun kv => P (snd kv)) p -> P (VArr l p).
Hypothesis Hobj : forall l, Forall (fun kv => P (snd kv)) l -> P (VObj l).

Fixpoint Value_nested_ind (v : Value) : P v :=
  match v with
  | VUndefined => Hundef
  | VNull => Hnull
  | VBool b => Hbool b
  | VNum n => Hnum n
  | VStr s => Hstr s
  | VArr l p =>
      Harr ((fix go (l : list Value) : Forall P l :=
               match l with
               | [] => Forall_nil _
               | x :: r => Forall_cons x (Value_nested_ind x) (go r)
               end) l)
           ((fix go (l : list (string * Value))
               : Forall (fun kv => P (snd kv)) l :=
               match l with
               | [] => Forall_nil _
               | kv :: r =>
                   @Forall_cons _ (fun kv => P (snd kv)) kv r
                     (Value_nested_ind (snd kv)) (go r)
               end) p)
  | VObj l =>
      Hobj ((fix go (l : list (string * Value))
              : Forall (fun kv => P (snd kv)) l :=
               match l with
               | [] => Forall_nil _
               | kv :: r =>
                   @Forall_cons _ (fun kv => P (snd kv)) kv r
                     (Value_nested_ind (snd kv)) (go r)
               end) l)
  end.
End ValueInduction.

(** ** The JavaScript [Map]: insertion-ordered, one entry per key *)

Module JsMap.
Section Defs.
Context {K V : Type} (eqb : K -> K -> bool).

Definition t := list (K * V).

Definition empty : t := [].

Fixpoint get (m : t) (k : K) : option V :=
  match m with
  | [] => None
  | (k', v) :: rest => if eqb k k' then Some v else get rest k
  end.

(** [m.set(k, v)]: an existing key keeps its place, a new one goes last. *)
Fixpoint set (m : t) (k : K) (v : V) : t :=
  match m with
  | [] => [(k, v)]
  | (k', v') :: rest =>
      if eqb k k' then (k', v) :: rest else (k', v') :: set rest k v
  end.

Fixpoint delete (m : t) (k : K) : t :=
  match m with
  | [] => []
  | (k', v') :: rest =>
      if eqb k k' then delete rest k else (k', v') :: delete rest k
  end.

Definition keys (m : t) : list K := map fst m.

Definition size (m : t) : Z := Z.of_nat (List.length m).

End Defs.
End JsMap.

(** ** Subscriptions: [subscribers], [subscribe], [activeApis] *)

(** A [KubeApi] object (the source of the class is missing).  [Map] keys
    are compared by object identity, which [objectId] stands for; the
    watch client reads [kind] and [isNamespaced], the API registry looks
    an API up by [kind] and [apiVersionWithGroup] or by [apiBase]. *)
Record KubeApi : Type := {
  objectId : nat;
  kind : string;
  apiVersionWithGroup : string;
  apiBase : string;
  isNamespaced : bool
}.

Definition KubeApi_eqb (x y : KubeApi) : bool :=
  Nat.eqb (objectId x) (objectId y)
  && String.eqb (kind x) (kind y)
  && String.eqb (apiVersionWithGroup x) (apiVersionWithGroup y)
  && String.eqb (apiBase x) (apiBase y)
  && Bool.eqb (isNamespaced x) (isNamespaced y).

(** [protected subscribers = observable.map<KubeApi, number>()] *)
Abbreviation Subscribers := (@JsMap.t KubeApi Z).

(** [x || 0] on the result of [Map.get] *)
Definition or_zero (x : option Z) : Z :=
  match x with
  | Some n => if n =? 0 then 0 else n
  | None => 0
  end.

Definition getSubscribersCount (subscribers : Subscribers) (api : KubeApi) : Z :=
  or_zero (JsMap.get KubeApi_eqb subscribers api).

(** [@computed get activeApis() { return Array.from(this.subscribers.keys()) }] *)
Definition activeApis (subscribers : Subscribers) : list KubeApi :=
  JsMap.keys subscribers.

(** The body of the first [forEach] of [subscribe]. *)
Definition subscribe_one (subscribers : Subscribers) (api : KubeApi) : Subscribers :=
  JsMap.set KubeApi_eqb subscribers api (getSubscribersCount subscribers api + 1).

(** The body of the [forEach] of the function that [subscribe] returns. *)
Definition unsubscribe_one (subscribers : Subscribers) (api : KubeApi) : Subscribers :=
  let count := getSubscribersCount subscribers api - 1 in
  if count <=? 0 then JsMap.delete KubeApi_eqb subscribers api
  else JsMap.set KubeApi_eqb subscribers api count.

(** The returned closure captures [apis] and nothing else: invoking it is
    [unsubscribe apis] on the registry of that moment. *)
Definition unsubscribe (apis : list KubeApi) (subscribers : Subscribers) : Subscribers :=
  fold_left unsubscribe_one apis subscribers.

(** [subscribe(...apis)]: the updated registry and the list captured by
    the returned closure. *)
Definition subscribe (apis : list KubeApi) (subscribers : Subscribers)
  : Subscribers * list KubeApi :=
  (fold_left subscribe_one apis subscribers, apis).

(** *** Sequences of calls

    A call either subscribes, and the closure it returns is remembered
    under a token, or invokes the closure remembered under a token. *)
Inductive Call : Type :=
| Subscribe (token : nat) (apis : list KubeApi)
| Unsubscribe (token : nat).

Record Registry : Type := {
  reg_subscribers : Subscribers;
  reg_closures : list (nat * list KubeApi)
}.

Fixpoint closure_of (closures : list (nat * list KubeApi)) (token : nat)
  : option (list KubeApi) :=
  match closures with
  | [] => None
  | (t, apis) :: rest => if Nat.eqb t token then Some apis else closure_of rest token
  end.

Definition call (r : Registry) (c : Call) : Registry :=
  match c with
  | Subscribe token apis =>
      let (subscribers, closure) := subscribe apis (reg_subscribers r) in
      {| reg_subscribers := subscribers;
         reg_closures := reg_closures r ++ [(token, closure)] |}
  | Unsubscribe token =>
      match closure_of (reg_closures r) token with
      | Some apis =>
          {| reg_subscribers := unsubscribe apis (reg_subscribers r);
             reg_closures := reg_closures r |}
      | None => r
      end
  end.

Definition new_registry : Registry :=
  {| reg_subscribers := JsMap.empty; reg_closures := [] |}.

Definition run_calls (calls : list Call) : Registry :=
  fold_left call calls new_registry.

(** The tokens subscribed and the tokens invoked in a sequence. *)
Fixpoint created (calls : list Call) : list nat :=
  match calls with
  | [] => []
  | Subscribe t _ :: rest => t :: created rest
  | Unsubscribe _ :: rest => created rest
  end.

Fixpoint invoked (calls : list Call) : list nat :=
  match calls with
  | [] => []
  | Subscribe _ _ :: rest => invoked rest
  | Unsubscribe t :: rest => t :: invoked rest
  end.

Definition mem (t : nat) (l : list nat) : bool := existsb (Nat.eqb t) l.

(** Every closure comes from its own [subscribe] call, is invoked only
    after that call and at most once. *)
Fixpoint once_each_from (seen used : list nat) (calls : list Call) : bool :=
  match calls with
  | [] => true
  | Subscribe t _ :: rest =>
      negb (mem t seen) && once_each_from (t :: seen) used rest
  | Unsubscribe t :: rest =>
      mem t seen && negb (mem t used) && once_each_from seen (t :: used) rest
  end.

Definition once_each (calls : list Call) : bool := once_each_from [] [] calls.

(** The list a token was subscribed with in a sequence of calls. *)
Fixpoint apis_of (calls : list Call) (token : nat) : list KubeApi :=
  match calls with
  | [] => []
  | Subscribe t apis :: rest => if Nat.eqb t token then apis else apis_of rest token
  | Unsubscribe _ :: rest => apis_of rest token
  end.

Definition occ (x : KubeApi) (apis : list KubeApi) : Z :=
  Z.of_nat (List.length (filter (KubeApi_eqb x) apis)).

(** References to [x] taken by the [subscribe] calls of a sequence. *)
Fixpoint acquired (x : KubeApi) (calls : list Call) : Z :=
  match calls with
  | [] => 0
  | Subscribe _ apis :: rest => occ x apis + acquired x rest
  | Unsubscribe _ :: rest => acquired x rest
  end.

(** References to [x] given back by the invocations of a sequence, each
    closure releasing the list it was created with (looked up in [env]). *)
Fixpoint released_in (env : list Call) (x : KubeApi) (calls : list Call) : Z :=
  match calls with
  | [] => 0
  | Subscribe _ _ :: rest => released_in env x rest
  | Unsubscribe t :: rest => occ x (apis_of env t) + released_in env x rest
  end.

(** References to [x] in the lists captured by the closures of [tokens]. *)
Fixpoint held (x : KubeApi) (calls : list Call) (tokens : list nat) : Z :=
  match tokens with
  | [] => 0
  | t :: rest => occ x (apis_of calls t) + held x calls rest
  end.

(** The net reference count of [x] after a sequence of calls: references
    taken minus references given back. *)
Definition net_count (x : KubeApi) (calls : list Call) : Z :=
  acquired x calls - released_in calls x calls.

(** A measure of the registry: its entries and what they count. *)
Fixpoint weight (subscribers : Subscribers) : Z :=
  match subscribers with
  | [] => 0
  | (_, count) :: rest => 1 + Z.max 0 count + weight rest
  end.

(** The invariant of the registry: every stored count is positive. *)
Definition counts_positive (subscribers : Subscribers) : Prop :=
  Forall (fun entry => 0 < snd entry) subscribers.

(** ** Text: [trim], [split] and a JSON reader *)

Definition byte_list (codes : list nat) : list ascii := map ascii_of_nat codes.

(** The white space and line terminators that [trim] removes, in UTF-8:
    U+0009..U+000D, U+0020, U+00A0, U+1680, U+2000..U+200A, U+2028,
    U+2029, U+202F, U+205F, U+3000 and U+FEFF. *)
Definition white_space : list (list ascii) :=
  map byte_list
    [ [9]; [10]; [11]; [12]; [13]; [32]; [194; 160]; [225; 154; 128];
      [226; 128; 128]; [226; 128; 129]; [226; 128; 130]; [226; 128; 131];
      [226; 128; 132]; [226; 128; 133]; [226; 128; 134]; [226; 128; 135];
      [226; 128; 136]; [226; 128; 137]; [226; 128; 138]; [226; 128; 168];
      [226; 128; 169]; [226; 128; 175]; [226; 129; 159]; [227; 128; 128];
      [239; 187; 191] ]%nat.

Fixpoint strip_prefix (prefix s : list ascii) : option (list ascii) :=
  match prefix, s with
  | [], _ => Some s
  | p :: prefix', c :: s' =>
      if Ascii.eqb p c then strip_prefix prefix' s' else None
  | _ :: _, [] => None
  end.

Fixpoint strip_any (prefixes : list (list ascii)) (s : list ascii)
  : option (list ascii) :=
  match prefixes with
  | [] => None
  | p :: rest =>
      match strip_prefix p s with
      | Some s' => Some s'
      | None => strip_any rest s
      end
  end.

Fixpoint trim_start_from (space : list (list ascii)) (fuel : nat) (s : list ascii)
  : list ascii :=
  match fuel with
  | O => s
  | S fuel' =>
      match s with
      | [] => []
      | _ :: _ =>
          match strip_any space s with
          | Some s' => trim_start_from space fuel' s'
          | None => s
          end
      end
  end.

Definition trim_start (s : list ascii) : list ascii :=
  trim_start_from white_space (List.length s) s.

Definition trim_end (s : list ascii) : list ascii :=
  rev (trim_start_from (map (@rev ascii) white_space) (List.length s) (rev s)).

(** [s.trim()] *)
Definition trim (s : string) : string :=
  string_of_list_ascii (trim_end (trim_start (list_ascii_of_string s))).

(** [s.split(sep)] for a separator of one character: the empty string
    splits into one empty piece. *)
Fixpoint split (sep : ascii) (s : string) : list string :=
  match s with
  | EmptyString => [EmptyString]
  | String c rest =>
      if Ascii.eqb c sep then EmptyString :: split sep rest
      else match split sep rest with
           | piece :: pieces => String c piece :: pieces
           | [] => [String c EmptyString]
           end
  end.

Definition newline : ascii := ascii_of_nat 10.

(** The examples write JSON texts with ['] where JSON has the quotation
    mark. *)
Definition quoted (s : string) : string :=
  string_of_list_ascii
    (map (fun c => if Nat.eqb (nat_of_ascii c) 39 then ascii_of_nat 34 else c)
       (list_ascii_of_string s)).

(** *** A reader for the JSON grammar (RFC 8259)

    [JSON.parse] belongs to the platform and is a parameter of the model
    below; this reader instantiates it in the examples.  A [\u] escape is
    encoded unit by unit. *)
Module Json.

Definition is_ws (c : ascii) : bool :=
  match nat_of_ascii c with
  | 32%nat | 9%nat | 10%nat | 13%nat => true
  | _ => false
  end.

Fixpoint skip_ws (s : list ascii) : list ascii :=
  match s with
  | c :: rest => if is_ws c then skip_ws rest else s
  | [] => []
  end.

Definition is_digit (c : ascii) : bool :=
  let n := nat_of_ascii c in (48 <=? n)%nat && (n <=? 57)%nat.

Definition hex_digit (c : ascii) : option nat :=
  let n := nat_of_ascii c in
  if (48 <=? n)%nat && (n <=? 57)%nat then Some (n - 48)%nat
  else if (65 <=? n)%nat && (n <=? 70)%nat then Some (n - 55)%nat
  else if (97 <=? n)%nat && (n <=? 102)%nat then Some (n - 87)%nat
  else None.

(** UTF-8 encoding of a code unit below 0x10000, last byte first. *)
Definition utf8_rev (n : nat) : list ascii :=
  if (n <? 128)%nat then [ascii_of_nat n]
  else if (n <? 2048)%nat then
    [ascii_of_nat (128 + n mod 64); ascii_of_nat (192 + n / 64)]
  else
    [ascii_of_nat (128 + n mod 64); ascii_of_nat (128 + (n / 64) mod 64);
     ascii_of_nat (224 + n / 4096)].

Definition escape (c : ascii) : option ascii :=
  match nat_of_ascii c with
  | 34%nat => Some (ascii_of_nat 34)   (* quotation mark *)
  | 92%nat => Some (ascii_of_nat 92)   (* reverse solidus *)
  | 47%nat => Some (ascii_of_nat 47)   (* solidus *)
  | 98%nat => Some (ascii_of_nat 8)    (* b: backspace *)
  | 102%nat => Some (ascii_of_nat 12)  (* f: form feed *)
  | 110%nat => Some (ascii_of_nat 10)  (* n: line feed *)
  | 114%nat => Some (ascii_of_nat 13)  (* r: carriage return *)
  | 116%nat => Some (ascii_of_nat 9)   (* t: tab *)
  | _ => None
  end.

(** The characters of a string after its opening quote, up to and
    including the closing quote. *)
Fixpoint read_chars (s : list ascii) (acc : list ascii)
  : option (string * list ascii) :=
  match s with
  | [] => None
  | c :: rest =>
      match nat_of_ascii c with
      | 34%nat => Some (string_of_list_ascii (rev acc), rest)
      | 92%nat =>
          match rest with
          | e :: rest' =>
              match escape e with
              | Some c' => read_chars rest' (c' :: acc)
              | None =>
                  match nat_of_ascii e, rest' with
                  | 117%nat, h1 :: h2 :: h3 :: h4 :: rest'' =>
                      match hex_digit h1, hex_digit h2, hex_digit h3, hex_digit h4 with
                      | Some a, Some b, Some c', Some d =>
                          read_chars rest''
                            (utf8_rev (a * 4096 + b * 256 + c' * 16 + d) ++ acc)
                      | _, _, _, _ => None
                      end
                  | _, _ => None
                  end
              end
          | [] => None
          end
      | n => if (n <? 32)%nat then None else read_chars rest (c :: acc)
      end
  end.

Fixpoint take_digits (s : list ascii) : list ascii * list ascii :=
  match s with
  | c :: rest =>
      if is_digit c then let (ds, r) := take_digits rest in (c :: ds, r)
      else ([], s)
  | [] => ([], [])
  end.

Definition is_char (n : nat) (c : ascii) : bool := Nat.eqb (nat_of_ascii c) n.

(** A number: an optional minus sign, an integer part without a leading
    zero, an optional fraction and an optional exponent. *)
Definition read_number (s : list ascii) : option (string * list ascii) :=
  let (sign, s1) :=
    match s with
    | c :: r => if is_char 45 c then ([c], r) else ([], s)
    | [] => ([], s)
    end in
  let (int, s2) := take_digits s1 in
  match int with
  | [] => None
  | d :: more =>
      if is_char 48 d && negb (Nat.eqb (List.length more) 0) then None
      else
        let frac :=
          match s2 with
          | c :: r =>
              if is_char 46 c then
                let (ds, r') := take_digits r in
                match ds with [] => None | _ => Some (c :: ds, r') end
              else Some ([], s2)
          | [] => Some ([], s2)
          end in
        match frac with
        | None => None
        | Some (fr, s3) =>
            let exp :=
              match s3 with
              | c :: r =>
                  if is_char 101 c || is_char 69 c then
                    let (sg, r1) :=
                      match r with
                      | c' :: r' =>
                          if is_char 43 c' || is_char 45 c' then ([c'], r') else ([], r)
                      | [] => ([], r)
                      end in
                    let (ds, r2) := take_digits r1 in
                    match ds with [] => None | _ => Some (c :: sg ++ ds, r2) end
                  else Some ([], s3)
              | [] => Some ([], s3)
              end in
            match exp with
            | None => None
            | Some (ex, s4) =>
                Some (string_of_list_ascii (sign ++ int ++ fr ++ ex), s4)
            end
        end
  end.

Section Compound.
Variable read_value : list ascii -> option (Value * list ascii).

(** The elements of an array after its first element has been seen to
    exist, up to and including the closing bracket. *)
Fixpoint read_elements (fuel : nat) (s : list ascii) (acc : list Value)
  : option (Value * list ascii) :=
  match fuel with
  | O => None
  | S fuel' =>
      match read_value s with
      | None => None
      | Some (v, rest) =>
          match skip_ws rest with
          | c :: rest' =>
              if is_char 44 c then read_elements fuel' rest' (v :: acc)
              else if is_char 93 c then Some (VArr (rev (v :: acc)) [], rest')
              else None
          | [] => None
          end
      end
  end.

(** The members of an object; a repeated name keeps its last value. *)
Fixpoint read_members (fuel : nat) (s : list ascii) (acc : list (string * Value))
  : option (Value * list ascii) :=
  match fuel with
  | O => None
  | S fuel' =>
      match skip_ws s with
      | q :: rest =>
          if is_char 34 q then
            match read_chars rest [] with
            | None => None
            | Some (name, rest1) =>
                match skip_ws rest1 with
                | colon :: rest2 =>
                    if is_char 58 colon then
                      match read_value rest2 with
                      | None => None
                      | Some (v, rest3) =>
                          match skip_ws rest3 with
                          | c :: rest4 =>
                              if is_char 44 c then
                                read_members fuel' rest4 (assign_field acc name v)
                              else if is_char 125 c then
                                Some (VObj (assign_field acc name v), rest4)
                              else None
                          | [] => None
                          end
                      end
                    else None
                | [] => None
                end
            end
          else None
      | [] => None
      end
  end.
End Compound.

Definition keyword (word : string) (v : Value) (s : list ascii)
  : option (Value * list ascii) :=
  match strip_prefix (list_ascii_of_string word) s with
  | Some rest => Some (v, rest)
  | None => None
  end.

Fixpoint read_value (fuel : nat) (s : list ascii) : option (Value * list ascii) :=
  match fuel with
  | O => None
  | S fuel' =>
      match skip_ws s with
      | [] => None
      | c :: rest =>
          if is_char 110 c then keyword "null" VNull (c :: rest)
          else if is_char 116 c then keyword "true" (VBool true) (c :: rest)
          else if is_char 102 c then keyword "false" (VBool false) (c :: rest)
          else if is_char 34 c then
            match read_chars rest [] with
            | Some (str, rest') => Some (VStr str, rest')
            | None => None
            end
          else if is_char 91 c then
            match skip_ws rest with
            | c' :: rest' =>
                if is_char 93 c' then Some (VArr [] [], rest')
                else read_elements (read_value fuel') (List.length rest) rest []
            | [] => None
            end
          else if is_char 123 c then
            match skip_ws rest with
            | c' :: rest' =>
                if is_char 125 c' then Some (VObj [], rest')
                else read_members (read_value fuel') (List.length rest) rest []
            | [] => None
            end
          else
            match read_number (c :: rest) with
            | Some (literal, rest') => Some (VNum literal, rest')
            | None => None
            end
      end
  end.

(** A whole text: one value, white space around it, nothing else.
    [None] stands for the [SyntaxError] of [JSON.parse]. *)
Definition parse (text : string) : option Value :=
  let s := list_ascii_of_string text in
  match read_value (S (List.length s)) s with
  | Some (v, rest) =>
      match skip_ws rest with
      | [] => Some v
      | _ :: _ => None
      end
  | None => None
  end.

End Json.

(** ** The watch client: state and collaborators *)

(** A store of the [apiManager], known by its identity. *)
Record KubeObjectStore : Type := { storeId : nat }.

(** What [onMessage] carries: [IKubeWatchMessage]. *)
Record IKubeWatchMessage : Type := {
  data : option Value;
  error : option Value;
  api : option KubeApi;
  store : option KubeObjectStore
}.

(** [const message: IKubeWatchMessage = {}] *)
Definition empty_message : IKubeWatchMessage :=
  {| data := None; error := None; api := None; store := None |}.

(** Modelled from the spec: the event sink [EventEmitter] of [../utils],
    which is not among the sources.  Consumers attach to it and every
    emitted message is handed to each attached consumer, in the order of
    attachment (fan-out).  [emitted] records the calls of [emit],
    [delivered] who received what. *)
Record EventEmitter : Type := {
  handlers : list nat;
  emitted : list IKubeWatchMessage;
  delivered : list (nat * IKubeWatchMessage)
}.

(** Modelled from the spec: [emit] hands the message to every attached
    consumer. *)
Definition emit (message : IKubeWatchMessage) (e : EventEmitter) : EventEmitter :=
  {| handlers := handlers e;
     emitted := emitted e ++ [message];
     delivered := delivered e ++ map (fun consumer => (consumer, message)) (handlers e) |}.

(** Modelled from the spec: [addListener] attaches a consumer. *)
Definition addListener (consumer : nat) (e : EventEmitter) : EventEmitter :=
  {| handlers := handlers e ++ [consumer];
     emitted := emitted e;
     delivered := delivered e |}.

(** [IKubeWatchLog]: the message is a string or an [Error]; the meta data
    are the ones the client attaches. *)
Inductive LogMessage : Type :=
| Text (text : string)
| Error (text : string).

Inductive LogMeta : Type :=
| MetaPayload (apis : list string)
| MetaError (reason : string)
| MetaParse (reason : string) (event : string)
| MetaStreamEnd (reason : string) (event : Value).

Record IKubeWatchLog : Type := {
  message : LogMessage;
  meta : LogMeta
}.

(** The response of [fetch] and the stream built over its body. *)
Record Response : Type := {
  status : Z;
  body : option nat
}.

Inductive FetchOutcome : Type :=
| Resolved (response : Response)
| Rejected (reason : string).

Record ReadableStream : Type := { reader : nat }.

(** What the event loop still has to run: a [connect] suspended at
    [await this.getRequestPayload()], an [onServerStreamEnd] suspended at
    [await api.refreshResourceVersion({ namespace })], and a timer set by
    [setTimeout(() => this.onServerStreamEnd(event), ms)]. *)
Inductive Task : Type :=
| ConnectAwaitsPayload
| StreamEndAwaitsRefresh (event : Value) (api : KubeApi) (namespace : Value)
| Timer (ms : Z) (event : Value).

(** The resource versions that the [KubeApi] objects remember, per API
    object and namespace. *)
Abbreviation ResourceVersions := (@JsMap.t (KubeApi * Value) Value).

Definition cursor_eqb (x y : KubeApi * Value) : bool :=
  KubeApi_eqb (fst x) (fst y) && Value_eqb (snd x) (snd y).

(** The fields of a [KubeWatchApi], the resource versions of the API
    objects it writes to, the console it logs to (with [logged] recording
    every call of [log]), the readers it cancelled and the pending tasks
    of the event loop. *)
Record KubeWatchApi : Type := {
  stream : option ReadableStream;
  subscribers : Subscribers;
  reconnectTimeoutMs : Z;
  maxReconnectsOnError : Z;
  onMessage : EventEmitter;
  resourceVersions : ResourceVersions;
  logged : list IKubeWatchLog;
  console : list IKubeWatchLog;
  cancelled : list nat;
  pending : list Task
}.

Definition new_KubeWatchApi : KubeWatchApi :=
  {| stream := None;
     subscribers := JsMap.empty;
     reconnectTimeoutMs := 5000;
     maxReconnectsOnError := 10;
     onMessage := {| handlers := []; emitted := []; delivered := [] |};
     resourceVersions := JsMap.empty;
     logged := [];
     console := [];
     cancelled := [];
     pending := [] |}.

Definition set_stream (s : option ReadableStream) (st : KubeWatchApi) : KubeWatchApi :=
  {| stream := s; subscribers := subscribers st;
     reconnectTimeoutMs := reconnectTimeoutMs st;
     maxReconnectsOnError := maxReconnectsOnError st;
     onMessage := onMessage st; resourceVersions := resourceVersions st;
     logged := logged st; console := console st;
     cancelled := cancelled st; pending := pending st |}.

Definition set_subscribers (s : Subscribers) (st : KubeWatchApi) : KubeWatchApi :=
  {| stream := stream st; subscribers := s;
     reconnectTimeoutMs := reconnectTimeoutMs st;
     maxReconnectsOnError := maxReconnectsOnError st;
     onMessage := onMessage st; resourceVersions := resourceVersions st;
     logged := logged st; console := console st;
     cancelled := cancelled st; pending := pending st |}.

Definition set_onMessage (e : EventEmitter) (st : KubeWatchApi) : KubeWatchApi :=
  {| stream := stream st; subscribers := subscribers st;
     reconnectTimeoutMs := reconnectTimeoutMs st;
     maxReconnectsOnError := maxReconnectsOnError st;
     onMessage := e; resourceVersions := resourceVersions st;
     logged := logged st; console := console st;
     cancelled := cancelled st; pending := pending st |}.

Definition set_resourceVersions (r : ResourceVersions) (st : KubeWatchApi) : KubeWatchApi :=
  {| stream := stream st; subscribers := subscribers st;
     reconnectTimeoutMs := reconnectTimeoutMs st;
     maxReconnectsOnError := maxReconnectsOnError st;
     onMessage := onMessage st; resourceVersions := r;
     logged := logged st; console := console st;
     cancelled := cancelled st; pending := pending st |}.

Definition set_logs (calls printed : list IKubeWatchLog) (st : KubeWatchApi) : KubeWatchApi :=
  {| stream := stream st; subscribers := subscribers st;
     reconnectTimeoutMs := reconnectTimeoutMs st;
     maxReconnectsOnError := maxReconnectsOnError st;
     onMessage := onMessage st; resourceVersions := resourceVersions st;
     logged := calls; console := printed;
     cancelled := cancelled st; pending := pending st |}.

Definition set_cancelled (c : list nat) (st : KubeWatchApi) : KubeWatchApi :=
  {| stream := stream st; subscribers := subscribers st;
     reconnectTimeoutMs := reconnectTimeoutMs st;
     maxReconnectsOnError := maxReconnectsOnError st;
     onMessage := onMessage st; resourceVersions := resourceVersions st;
     logged := logged st; console := console st;
     cancelled := c; pending := pending st |}.

Definition set_pending (p : list Task) (st : KubeWatchApi) : KubeWatchApi :=
  {| stream := stream st; subscribers := subscribers st;
     reconnectTimeoutMs := reconnectTimeoutMs st;
     maxReconnectsOnError := maxReconnectsOnError st;
     onMessage := onMessage st; resourceVersions := resourceVersions st;
     logged := logged st; console := console st;
     cancelled := cancelled st; pending := p |}.

Definition schedule (task : Task) (st : KubeWatchApi) : KubeWatchApi :=
  set_pending (pending st ++ [task]) st.

(** The hosted cluster and the namespace store, as they are when a
    request payload is computed. *)
Record Cluster : Type := { isAllowedResource : string -> bool }.

Record NamespaceStore : Type := { getContextNamespaces : list string }.

(** The platform and the modules that the client imports but that are not
    part of it: [isProduction] of [common/vars], [TextDecoder], [JSON],
    the [apiManager], and of [KubeApi] the static [parseApi], the URL of
    a watch request ([getWatchUrl], with or without a namespace, which
    reads the resource versions) and the self link that
    [ensureObjectSelfLink] creates for a metadata object.  [None] stands
    for an exception where the result is an option of a parse. *)
Class Collaborators : Type := {
  isProduction : bool;
  TextDecoder_decode : list Byte.byte -> string;
  JSON_parse : string -> option Value;
  getApiByKind : Value -> Value -> option KubeApi;
  getApi : string -> option KubeApi;
  getStore : KubeApi -> option KubeObjectStore;
  parseApi : Value -> option (string * Value);
  getWatchUrl : KubeApi -> option string -> ResourceVersions -> string;
  createKubeApiURL : KubeApi -> list (string * Value) -> string
}.

Section Client.
Context {collaborators : Collaborators}.

(** [log({ message, meta })]: nothing is printed in production. *)
Definition log (entry : IKubeWatchLog) (st : KubeWatchApi) : KubeWatchApi :=
  if isProduction then set_logs (logged st ++ [entry]) (console st) st
  else set_logs (logged st ++ [entry]) (console st ++ [entry]) st.

(** Modelled from the spec: the key of a resource-version cursor of a
    [KubeApi] (the source of the class is missing).  The tracker maps an
    API object and a namespace, or the empty string for the cluster
    scope, to a resource version; a missing namespace is the empty
    string. *)
Definition cursor_key (api : KubeApi) (namespace : Value) : KubeApi * Value :=
  match namespace with
  | VUndefined => (api, VStr "")
  | _ => (api, namespace)
  end.

(** Modelled from the spec: [api.setResourceVersion(namespace, newVersion)]
    overwrites the cursor of the API for the namespace. *)
Definition setResourceVersion (api : KubeApi) (namespace newVersion : Value)
  (st : KubeWatchApi) : KubeWatchApi :=
  set_resourceVersions
    (JsMap.set cursor_eqb (resourceVersions st) (cursor_key api namespace) newVersion)
    st.

(** Modelled from the spec: [api.getResourceVersion(namespace)] reads the
    cursor of the API for the namespace. *)
Definition getResourceVersion (api : KubeApi) (namespace : Value)
  (st : KubeWatchApi) : option Value :=
  JsMap.get cursor_eqb (resourceVersions st) (cursor_key api namespace).

(** Modelled from the spec: what a fulfilled
    [api.refreshResourceVersion({ namespace })] leaves behind, the cursor
    of the target at the resource version read from the source of
    truth. *)
Definition refreshed (api : KubeApi) (namespace resourceVersion : Value)
  (st : KubeWatchApi) : KubeWatchApi :=
  setResourceVersion api namespace resourceVersion st.

(** The named properties of an object or an array. *)
Definition own_fields (v : Value) : list (string * Value) :=
  match v with
  | VObj fields => fields
  | VArr _ props => props
  | _ => []
  end.

(** Modelled from the spec: [ensureObjectSelfLink] of [kube-api.ts],
    whose source is missing; it normalizes the object so that a canonical
    self link is present in its metadata: when the metadata have no self
    link, the link is assigned to [object.metadata.selfLink].  Metadata
    that are an object or an array take the property; [kube-api.ts] is a
    module, hence strict code, where the assignment to a property of a
    number, a string or a boolean raises a [TypeError].  The result is
    the object after the call. *)
Definition ensureObjectSelfLink (api : KubeApi) (object : Value) : Completion Value :=
  (metadata <- get_prop object "metadata" ;;
   selfLink <- get_prop metadata "selfLink" ;;
   if truthy selfLink then Normal object
   else
     metadata' <- set_prop metadata "selfLink"
                    (VStr (createKubeApiURL api (own_fields metadata))) ;;
     set_prop object "metadata" metadata')%completion.

(** The URL and the registered API of a [STREAM_END] event:
    [KubeApi.parseApi(event.url)] and [apiManager.getApi(apiBase)]. *)
Definition stream_end_target (event : Value) : Completion (option (KubeApi * Value)) :=
  (url <- get_prop event "url" ;;
   match parseApi url with
   | None => Throw "parseApi"
   | Some (apiBase, namespace) =>
       match getApi apiBase with
       | Some api => Normal (Some (api, namespace))
       | None => Normal None
       end
   end)%completion.

(** [disconnect()]: its body has no [await] and runs at the call. *)
Definition disconnect (st : KubeWatchApi) : KubeWatchApi :=
  match stream st with
  | Some s => set_stream None (set_cancelled (cancelled st ++ [reader s]) st)
  | None => st
  end.

Inductive PayloadItem : Type :=
| Url (url : string)
| Urls (urls : list string).

(** [Array.prototype.flat()], one level deep *)
Definition flat (items : list PayloadItem) : list string :=
  flat_map (fun item => match item with Url u => [u] | Urls us => us end) items.

(** [getRequestPayload()]: the [apis] of the payload. *)
Definition getRequestPayload (cluster : Cluster) (namespaceStore : NamespaceStore)
  (st : KubeWatchApi) : list string :=
  flat
    (map
       (fun api =>
          if negb (isAllowedResource cluster (kind api)) then Urls []
          else if isNamespaced api then
            Urls (map (fun namespace => getWatchUrl api (Some namespace) (resourceVersions st))
                    (getContextNamespaces namespaceStore))
          else Url (getWatchUrl api None (resourceVersions st)))
       (activeApis (subscribers st))).

(** [connect()] up to its first [await]: the active connection is closed
    and the rest of the body waits for the payload. *)
Definition connect (st : KubeWatchApi) : KubeWatchApi :=
  schedule ConnectAwaitsPayload (disconnect st).

(** The rest of [connect()], with the outcome of [fetch] when a request
    is made. *)
Definition connect_resume (cluster : Cluster) (namespaceStore : NamespaceStore)
  (outcome : FetchOutcome) (st : KubeWatchApi) : KubeWatchApi :=
  let apis := getRequestPayload cluster namespaceStore st in
  match apis with
  | [] => st
  | _ :: _ =>
      let st := log {| message := Text "connecting"; meta := MetaPayload apis |} st in
      match outcome with
      | Resolved response =>
          match body response with
          | Some r => set_stream (Some {| reader := r |}) st
          | None =>
              log {| message := Error "connection error";
                     meta := MetaError "TypeError: cannot read properties of null" |} st
          end
      | Rejected reason =>
          log {| message := Error "connection error"; meta := MetaError reason |} st
      end
  end.

(** [onServerStreamEnd(event)] up to its [await]: nothing happens unless
    the URL of the event resolves to a registered API, whose refresh is
    then requested.  An exception before that rejects the promise of the
    call, which nobody awaits. *)
Definition onServerStreamEnd (event : Value) (st : KubeWatchApi) : KubeWatchApi :=
  match stream_end_target event with
  | Normal (Some (api, namespace)) =>
      schedule (StreamEndAwaitsRefresh event api namespace) st
  | Normal None => st
  | Throw _ => st
  end.

(** How [api.refreshResourceVersion({ namespace })] settles. *)
Inductive RefreshOutcome : Type :=
| Refreshed (resourceVersion : Value)
| RefreshFailed (reason : string).

(** The rest of [onServerStreamEnd(event)]: [this.connect()] after a
    refresh that succeeded, the [catch] block after one that failed. *)
Definition onServerStreamEnd_resume (event : Value) (api : KubeApi) (namespace : Value)
  (outcome : RefreshOutcome) (st : KubeWatchApi) : KubeWatchApi :=
  match outcome with
  | Refreshed resourceVersion =>
      connect (refreshed api namespace resourceVersion st)
  | RefreshFailed reason =>
      let st := log {| message := Error "failed to reconnect on stream end";
                       meta := MetaStreamEnd reason event |} st in
      if JsMap.size (subscribers st) >? 0 then schedule (Timer 1000 event) st
      else st
  end.

(** The [case] that [switch (event.type)] selects. *)
Inductive SwitchCase : Type :=
| CaseData
| CaseError
| CaseStreamEnd
| NoCase.

Definition switch_on (type : Value) : SwitchCase :=
  match type with
  | VStr s =>
      if String.eqb s "ADDED" || String.eqb s "DELETED" || String.eqb s "MODIFIED"
      then CaseData
      else if String.eqb s "ERROR" then CaseError
      else if String.eqb s "STREAM_END" then CaseStreamEnd
      else NoCase
  | _ => NoCase
  end.

(** [event] after [ensureObjectSelfLink] has written to [event.object]:
    [message.data] is the event itself, not a copy. *)
Definition with_object (event object : Value) : Value :=
  match event with
  | VObj fields => VObj (assign_field fields "object" object)
  | VArr elems props => VArr elems (assign_field props "object" object)
  | _ => event
  end.

(** [getMessage(event)] *)
Definition getMessage (event : Value) (st : KubeWatchApi)
  : Completion IKubeWatchMessage * KubeWatchApi :=
  match get_prop event "type" with
  | Throw e => (Throw e, st)
  | Normal type =>
      match switch_on type with
      | CaseData =>
          match (object <- get_prop event "object" ;;
                 kind <- get_prop object "kind" ;;
                 apiVersion <- get_prop object "apiVersion" ;;
                 Normal (object, getApiByKind kind apiVersion))%completion with
          | Throw e => (Throw e, st)
          | Normal (object, None) =>
              (Normal {| data := Some event; error := None;
                         api := None; store := None |}, st)
          | Normal (object, Some kubeApi) =>
              match (object' <- ensureObjectSelfLink kubeApi object ;;
                     metadata <- get_prop object' "metadata" ;;
                     namespace <- get_prop metadata "namespace" ;;
                     resourceVersion <- get_prop metadata "resourceVersion" ;;
                     Normal (object', namespace, resourceVersion))%completion with
              | Throw e => (Throw e, st)
              | Normal (object', namespace, resourceVersion) =>
                  let st := setResourceVersion kubeApi namespace resourceVersion st in
                  let st := setResourceVersion kubeApi (VStr "") resourceVersion st in
                  (Normal {| data := Some (with_object event object');
                             error := None;
                             api := Some kubeApi;
                             store := getStore kubeApi |}, st)
              end
          end
      | CaseError =>
          (Normal {| data := None; error := Some event;
                     api := None; store := None |}, st)
      | CaseStreamEnd => (Normal empty_message, onServerStreamEnd event st)
      | NoCase => (Normal empty_message, st)
      end
  end.

(** The body of [events.forEach] in [handleStreamEvent]: whatever
    [JSON.parse] or [getMessage] throws is caught and logged. *)
Definition handle_event (st : KubeWatchApi) (event : string) : KubeWatchApi :=
  match JSON_parse event with
  | None =>
      log {| message := Error "failed to parse watch-api event";
             meta := MetaParse "SyntaxError" event |} st
  | Some parsed =>
      match getMessage parsed st with
      | (Normal message, st') => set_onMessage (emit message (onMessage st')) st'
      | (Throw reason, st') =>
          log {| message := Error "failed to parse watch-api event";
                 meta := MetaParse reason event |} st'
      end
  end.

(** [handleStreamEvent(chunk)] *)
Definition handleStreamEvent (chunk : list Byte.byte) (st : KubeWatchApi) : KubeWatchApi :=
  let jsonText := TextDecoder_decode chunk in
  if String.eqb jsonText "" then st
  else
    let events := split newline (trim jsonText) in
    fold_left handle_event events st.

(** *** The event loop *)

(** How a pending task is resumed. *)
Inductive Settlement : Type :=
| PayloadReady (cluster : Cluster) (namespaceStore : NamespaceStore) (outcome : FetchOutcome)
| RefreshSettled (outcome : RefreshOutcome)
| TimerFired.

Fixpoint remove_nth {A} (i : nat) (l : list A) : list A :=
  match i, l with
  | _, [] => []
  | O, _ :: rest => rest
  | S i', x :: rest => x :: remove_nth i' rest
  end.

Definition resume (task : Task) (s : Settlement) (st : KubeWatchApi) : KubeWatchApi :=
  match task, s with
  | ConnectAwaitsPayload, PayloadReady cluster namespaceStore outcome =>
      connect_resume cluster namespaceStore outcome st
  | StreamEndAwaitsRefresh event api namespace, RefreshSettled outcome =>
      onServerStreamEnd_resume event api namespace outcome st
  | Timer _ event, TimerFired => onServerStreamEnd event st
  | _, _ => st
  end.

(** The [i]-th pending task leaves the queue and runs; a settlement that
    does not fit the task leaves the state as it is. *)
Definition fits (task : Task) (s : Settlement) : bool :=
  match task, s with
  | ConnectAwaitsPayload, PayloadReady _ _ _ => true
  | StreamEndAwaitsRefresh _ _ _, RefreshSettled _ => true
  | Timer _ _, TimerFired => true
  | _, _ => false
  end.

Definition step (i : nat) (s : Settlement) (st : KubeWatchApi) : KubeWatchApi :=
  match nth_error (pending st) i with
  | Some task =>
      if fits task s then resume task s (set_pending (remove_nth i (pending st)) st)
      else st
  | None => st
  end.

(** One whole connection attempt: [connect()] is called and its payload
    and request settle before anything else runs. *)
Definition connect_attempt (cluster : Cluster) (namespaceStore : NamespaceStore)
  (outcome : FetchOutcome) (st : KubeWatchApi) : KubeWatchApi :=
  step (List.length (pending st)) (PayloadReady cluster namespaceStore outcome)
    (connect st).

(** *** Notions used to state the properties *)

(** The watch targets of one active API, in the words of the spec:
    nothing for an API that the user may not watch, one target per
    permitted namespace for a namespaced API, one cluster-wide target
    otherwise. *)
Definition watch_targets (cluster : Cluster) (namespaceStore : NamespaceStore)
  (st : KubeWatchApi) (api : KubeApi) : list string :=
  if isAllowedResource cluster (kind api) then
    if isNamespaced api then
      map (fun namespace => getWatchUrl api (Some namespace) (resourceVersions st))
        (getContextNamespaces namespaceStore)
    else [getWatchUrl api None (resourceVersions st)]
  else [].

(** The object of a data event after [ensureObjectSelfLink], when its
    metadata are the object [mfields]. *)
Definition linked (api : KubeApi) (ofields mfields : list (string * Value)) : Value :=
  if truthy (lookup_field mfields "selfLink") then VObj ofields
  else VObj (assign_field ofields "metadata"
               (VObj (assign_field mfields "selfLink"
                        (VStr (createKubeApiURL api mfields))))).

(** The message that [getMessage] builds for an event; it does not depend
    on the state of the client. *)
Definition message_of (event : Value) : Completion IKubeWatchMessage :=
  fst (getMessage event new_KubeWatchApi).

(** The five tags of the wire format. *)
Definition known_tags : list string :=
  ["ADDED"; "MODIFIED"; "DELETED"; "ERROR"; "STREAM_END"].

(** The shape that [getMessage] needs of a parsed record: it is neither
    [null] nor [undefined]; when it is a data event, its object is
    neither [null] nor [undefined], and when a handler is registered for
    that object, the metadata of the object are an object (an array is
    one). *)
Definition well_shaped (event : Value) : bool :=
  negb (is_nullish event)
  && match switch_on (field event "type") with
     | CaseData =>
         let object := field event "object" in
         negb (is_nullish object)
         && match getApiByKind (field object "kind") (field object "apiVersion") with
            | None => true
            | Some _ => is_object (field object "metadata")
            end
     | _ => true
     end.

(** The records of a chunk: the lines of its trimmed text; an empty text
    has none. *)
Definition records_of (chunk : list Byte.byte) : list string :=
  let jsonText := TextDecoder_decode chunk in
  if String.eqb jsonText "" then [] else split newline (trim jsonText).

(** A record is accepted when it is valid JSON and well shaped. *)
Definition accepted (record : string) : bool :=
  match JSON_parse record with
  | Some event => well_shaped event
  | None => false
  end.

(** The message decoded from a record, if any, and the failure logged for
    it, if any. *)
Definition decoded (record : string) : list IKubeWatchMessage :=
  match JSON_parse record with
  | Some event =>
      match message_of event with
      | Normal message => [message]
      | Throw _ => []
      end
  | None => []
  end.

Definition failure_of (record : string) : list IKubeWatchLog :=
  match JSON_parse record with
  | Some event =>
      match message_of event with
      | Normal _ => []
      | Throw reason =>
          [{| message := Error "failed to parse watch-api event";
              meta := MetaParse reason record |}]
      end
  | None =>
      [{| message := Error "failed to parse watch-api event";
          meta := MetaParse "SyntaxError" record |}]
  end.

(** What every attached consumer is handed when [messages] are emitted. *)
Definition fan_out (consumers : list nat) (messages : list IKubeWatchMessage)
  : list (nat * IKubeWatchMessage) :=
  flat_map (fun message => map (fun consumer => (consumer, message)) consumers) messages.

(** Consecutive connection attempts whose requests are rejected. *)
Definition failed_attempts (cluster : Cluster) (namespaceStore : NamespaceStore)
  (reasons : list string) (st : KubeWatchApi) : KubeWatchApi :=
  fold_left
    (fun st reason => connect_attempt cluster namespaceStore (Rejected reason) st)
    reasons st.

(** What a rejected attempt writes to the log. *)
Definition attempt_log (apis : list string) (reason : string) : list IKubeWatchLog :=
  match apis with
  | [] => []
  | _ :: _ =>
      [{| message := Text "connecting"; meta := MetaPayload apis |};
       {| message := Error "connection error"; meta := MetaError reason |}]
  end.

(** The refresh awaited at position [i] of the queue fails and the timer
    that this sets fires. *)
Definition refresh_fails_again (i : nat) (st : KubeWatchApi) (reason : string)
  : KubeWatchApi :=
  step i TimerFired (step i (RefreshSettled (RefreshFailed reason)) st).

End Client.

(** ** A small cluster for the examples *)

Module Demo.

Definition podsApi : KubeApi :=
  {| objectId := 1; kind := "Pod"; apiVersionWithGroup := "v1";
     apiBase := "/api/v1/pods"; isNamespaced := true |}.

Definition nodesApi : KubeApi :=
  {| objectId := 2; kind := "Node"; apiVersionWithGroup := "v1";
     apiBase := "/api/v1/nodes"; isNamespaced := false |}.

Definition secretsApi : KubeApi :=
  {| objectId := 3; kind := "Secret"; apiVersionWithGroup := "v1";
     apiBase := "/api/v1/secrets"; isNamespaced := true |}.

(** The APIs that the [apiManager] knows. *)
Definition registered : list KubeApi := [podsApi; nodesApi; secretsApi].

Definition by_kind (k v : Value) : option KubeApi :=
  match k, v with
  | VStr k', VStr v' =>
      find (fun a => String.eqb (kind a) k' && String.eqb (apiVersionWithGroup a) v')
        registered
  | _, _ => None
  end.

Definition by_base (base : string) : option KubeApi :=
  find (fun a => String.eqb (apiBase a) base) registered.

Definition store_of (a : KubeApi) : option KubeObjectStore :=
  Some {| storeId := objectId a |}.

(** The resource of a core API: what follows [/api/v1/] in its base. *)
Definition resource (a : KubeApi) : string :=
  substring 8 (String.length (apiBase a) - 8) (apiBase a).

Definition version_text (a : KubeApi) (namespace : string) (versions : ResourceVersions)
  : string :=
  match JsMap.get cursor_eqb versions (a, VStr namespace) with
  | Some (VStr v) => v
  | _ => ""
  end.

Definition watch_url (a : KubeApi) (namespace : option string)
  (versions : ResourceVersions) : string :=
  match namespace with
  | Some n =>
      ("/api/v1/namespaces/" ++ n ++ "/" ++ resource a
       ++ "?watch=1&resourceVersion=" ++ version_text a n versions)%string
  | None =>
      (apiBase a ++ "?watch=1&resourceVersion=" ++ version_text a "" versions)%string
  end.

Definition self_link (a : KubeApi) (metadata : list (string * Value)) : string :=
  match lookup_field metadata "name" with
  | VStr n => (apiBase a ++ "/" ++ n)%string
  | _ => apiBase a
  end.

(** URLs of the two shapes that [watch_url] produces, read back. *)
Definition parse_api (url : Value) : option (string * Value) :=
  match url with
  | VStr u =>
      match split (ascii_of_nat 63) u with
      | path :: _ =>
          match split (ascii_of_nat 47) path with
          | [e; a; v; r] =>
              if String.eqb e "" && String.eqb a "api" && String.eqb v "v1"
              then Some (("/api/v1/" ++ r)%string, VUndefined)
              else None
          | [e; a; v; n; ns; r] =>
              if String.eqb e "" && String.eqb a "api" && String.eqb v "v1"
                 && String.eqb n "namespaces"
              then Some (("/api/v1/" ++ r)%string, VStr ns)
              else None
          | _ => None
          end
      | [] => None
      end
  | _ => None
  end.

Definition collaborators : Collaborators :=
  {| isProduction := false;
     TextDecoder_decode := string_of_list_byte;
     JSON_parse := Json.parse;
     getApiByKind := by_kind;
     getApi := by_base;
     getStore := store_of;
     parseApi := parse_api;
     getWatchUrl := watch_url;
     createKubeApiURL := self_link |}.

(** The hosted cluster lets the user watch pods and nodes, in two
    namespaces. *)
Definition cluster : Cluster :=
  {| isAllowedResource := fun k => String.eqb k "Pod" || String.eqb k "Node" |}.

Definition namespaceStore : NamespaceStore :=
  {| getContextNamespaces := ["default"; "kube-system"] |}.

(** A client with one consumer attached and pods and nodes subscribed. *)
Definition watching : KubeWatchApi :=
  set_subscribers (fst (subscribe [podsApi; nodesApi] JsMap.empty))
    (set_onMessage (addListener 7 (onMessage new_KubeWatchApi)) new_KubeWatchApi).

Definition chunk_of (text : string) : list Byte.byte :=
  list_byte_of_string (quoted text).

(** Events of the examples: a modified pod at resource version 105, a
    modified config map (for which no API is registered), a bookmark (a
    tag that the client does not know), and the end of two streams, one
    of the pods of a namespace and one of a resource that is not
    registered. *)
Definition pod_metadata : list (string * Value) :=
  [("name", VStr "a"); ("namespace", VStr "default"); ("resourceVersion", VStr "105")].

Definition pod_object : list (string * Value) :=
  [("kind", VStr "Pod"); ("apiVersion", VStr "v1"); ("metadata", VObj pod_metadata)].

Definition pod_modified : list (string * Value) :=
  [("type", VStr "MODIFIED"); ("object", VObj pod_object)].

Definition configmap_text : string :=
  quoted "{'type':'MODIFIED','object':{'kind':'ConfigMap','apiVersion':'v1'}}".

Definition configmap_object : Value :=
  VObj [("kind", VStr "ConfigMap"); ("apiVersion", VStr "v1")].

Definition configmap_modified : Value :=
  VObj [("type", VStr "MODIFIED"); ("object", configmap_object)].

Definition bookmark_text : string := quoted "{'type':'BOOKMARK'}".

Definition bookmark : Value := VObj [("type", VStr "BOOKMARK")].

Definition pods_ended : Value :=
  VObj [("type", VStr "STREAM_END");
        ("url", VStr "/api/v1/namespaces/default/pods?watch=1&resourceVersion=105")].

Definition widgets_ended : Value :=
  VObj [("type", VStr "STREAM_END"); ("url", VStr "/api/v1/widgets?watch=1")].

(** The client while the refresh after the end of the pods stream is
    awaited, behind a [connect] that awaits its payload. *)
Definition refreshing : KubeWatchApi :=
  set_pending
    [ConnectAwaitsPayload; StreamEndAwaitsRefresh pods_ended podsApi (VStr "default")]
    watching.

End Demo.

(** ** More events of the small cluster *)

Module DemoMore.

Definition error_text : string := quoted "{'type':'ERROR','object':{'code':410}}".

Definition error_event : Value :=
  VObj [("type", VStr "ERROR"); ("object", VObj [("code", VNum "410")])].

(** A client that streams the body read by reader 3. *)
Definition streaming : KubeWatchApi :=
  set_stream (Some {| reader := 3%nat |}) Demo.watching.

(** The same client while the refresh after the end of the pods stream
    is awaited. *)
Definition streaming_refresh : KubeWatchApi :=
  set_pending
    [StreamEndAwaitsRefresh Demo.pods_ended Demo.podsApi (VStr "default")]
    streaming.

(** A chunk of two line feeds and a blank. *)
Definition blank_chunk : list Byte.byte :=
  list_byte_of_string (string_of_list_ascii (byte_list [10; 32; 10]%nat)).

End DemoMore.

(** The white space of one byte. *)
Definition ascii_space : list ascii := byte_list [9; 10; 11; 12; 13; 32]%nat.

(** ** The kube-config helpers ([kube-helpers.ts]) *)

Module KubeHelpers.

(** The [Cluster], [User] and [Context] of [@kubernetes/client-node],
    with the fields that the helpers read, and its [KubeConfig], whose
    lists may be missing. *)
Record Cluster : Type := {
  cluster_name : string;
  server : string
}.

Record User : Type := {
  user_name : string;
  exec : Value
}.

Record Context : Type := {
  context_name : string;
  context_cluster : string;
  context_user : string
}.

Record KubeConfig : Type := {
  clusters : option (list Cluster);
  users : option (list User);
  contexts : option (list Context);
  currentContext : option string
}.

(** What a helper throws. *)
Inductive Thrown : Type :=
| PlainError (message : string)
| TypeError (message : string)
| ExecValidationNotFoundError (execName : string) (isAbsolute : bool).

Inductive Result (A : Type) : Type :=
| Ok (a : A)
| Fail (thrown : Thrown).

Arguments Ok {A} a.
Arguments Fail {A} thrown.

(** The library and the platform: the lookups of [KubeConfig], [os],
    [path], [command-exists] and [loadConfig], which reads the file
    system. *)
Class Platform : Type := {
  homedir : string;
  getCluster : KubeConfig -> string -> option Cluster;
  getUser : KubeConfig -> string -> option User;
  getContextObject : KubeConfig -> string -> option Context;
  isAbsolute_path : string -> bool;
  commandExists_sync : string -> bool;
  loadConfig : string -> Result KubeConfig
}.

(** *** [String.prototype.replace] with a string pattern *)

Fixpoint drop (n : nat) (s : string) : string :=
  match n, s with
  | O, _ => s
  | S n', String _ rest => drop n' rest
  | S _, EmptyString => EmptyString
  end.

(** The text before and after the first occurrence of [pattern]. *)
Fixpoint find_first (pattern s : string) : option (string * string) :=
  if String.prefix pattern s then Some (EmptyString, drop (String.length pattern) s)
  else
    match s with
    | EmptyString => None
    | String c rest =>
        match find_first pattern rest with
        | Some (before, after) => Some (String c before, after)
        | None => None
        end
    end.

(** The replacement text: [$$] is a dollar sign, [$&] the match, a
    dollar sign with a back quote what precedes the match, with a quote
    what follows it; every other dollar sign stands for itself (a string
    pattern has no groups). *)
Fixpoint expand (replacement matched before after : string) : string :=
  match replacement with
  | EmptyString => EmptyString
  | String c rest =>
      if Nat.eqb (nat_of_ascii c) 36 then
        match rest with
        | String d rest' =>
            if Nat.eqb (nat_of_ascii d) 36 then
              String c (expand rest' matched before after)
            else if Nat.eqb (nat_of_ascii d) 38 then
              (matched ++ expand rest' matched before after)%string
            else if Nat.eqb (nat_of_ascii d) 96 then
              (before ++ expand rest' matched before after)%string
            else if Nat.eqb (nat_of_ascii d) 39 then
              (after ++ expand rest' matched before after)%string
            else String c (expand rest matched before after)
        | EmptyString => String c EmptyString
        end
      else String c (expand rest matched before after)
  end.

Definition replace (s pattern replacement : string) : string :=
  match find_first pattern s with
  | None => s
  | Some (before, after) =>
      (before ++ expand replacement pattern before after ++ after)%string
  end.

Definition char_is (s : string) (i : nat) (code : nat) : bool :=
  match String.get i s with
  | Some c => Nat.eqb (nat_of_ascii c) code
  | None => false
  end.

Section Helpers.
Context {platform : Platform}.

(** [resolveTilde(filePath)] *)
Definition resolveTilde (filePath : string) : string :=
  if char_is filePath 0 126
     && (char_is filePath 1 47 || Nat.eqb (String.length filePath) 1)
  then replace filePath "~" homedir
  else filePath.

(** [validateConfig(config)]; the debug line is left out. *)
Definition no_items {A} (l : option (list A)) : bool :=
  match l with
  | None => true
  | Some items => Nat.eqb (List.length items) 0
  end.

Definition validateConfig (config : KubeConfig + string) : Result KubeConfig :=
  match (match config with inl c => Ok c | inr text => loadConfig text end) with
  | Fail thrown => Fail thrown
  | Ok config =>
      if no_items (users config) then
        Fail (PlainError "No users provided in config")
      else if no_items (clusters config) then
        Fail (PlainError "No clusters provided in config")
      else if no_items (contexts config) then
        Fail (PlainError "No contexts provided in config")
      else Ok config
  end.

(** A list that is there and is not empty. *)
Definition has_items {A} (l : option (list A)) : Prop :=
  exists x rest, l = Some (x :: rest).

(** [[x].filter(n => n)] for an object or [null] *)
Definition present {A} (x : option A) : list A :=
  match x with
  | Some a => [a]
  | None => []
  end.

(** The body of the [forEach] of [splitConfig]. *)
Definition config_of_context (kubeConfig : KubeConfig) (ctx : Context) : KubeConfig :=
  {| clusters := Some (present (getCluster kubeConfig (context_cluster ctx)));
     users := Some (present (getUser kubeConfig (context_user ctx)));
     contexts := Some (present (getContextObject kubeConfig (context_name ctx)));
     currentContext := Some (context_name ctx) |}.

(** [splitConfig(kubeConfig)] *)
Definition splitConfig (kubeConfig : KubeConfig) : list KubeConfig :=
  match contexts kubeConfig with
  | None => []
  | Some ctxs => map (config_of_context kubeConfig) ctxs
  end.

(** [KubeConfigValidationOpts]: a missing option counts as [true]. *)
Record KubeConfigValidationOpts : Type := {
  validateCluster : option bool;
  validateUser : option bool;
  validateExec : option bool
}.

Definition or_true (o : option bool) : bool :=
  match o with
  | Some b => b
  | None => true
  end.

Definition quoted_name (name : string) : string := ("'" ++ name ++ "'")%string.

(** The [exec] block of [validateKubeConfig]: [path.isAbsolute] wants a
    string. *)
Definition validate_exec (exec : Value) : Result unit :=
  match get_prop exec "command" with
  | Normal (VStr execCommand) =>
      let isAbsolute := isAbsolute_path execCommand in
      if negb (commandExists_sync execCommand)
      then Fail (ExecValidationNotFoundError execCommand isAbsolute)
      else Ok tt
  | Normal _ => Fail (TypeError "The path argument must be of type string")
  | Throw reason => Fail (TypeError reason)
  end.

(** [validateKubeConfig(config, contextName, validationOpts)] *)
Definition validateKubeConfig (config : KubeConfig) (contextName : string)
  (validationOpts : KubeConfigValidationOpts) : Result unit :=
  match getContextObject config contextName with
  | None =>
      Fail (PlainError
              ("No valid context object provided in kubeconfig for context "
               ++ quoted_name contextName)%string)
  | Some contextObject =>
      if or_true (validateCluster validationOpts)
         && match getCluster config (context_cluster contextObject) with
            | Some _ => false
            | None => true
            end
      then Fail (PlainError
                   ("No valid cluster object provided in kubeconfig for context "
                    ++ quoted_name contextName)%string)
      else
        let user := getUser config (context_user contextObject) in
        if or_true (validateUser validationOpts)
           && match user with Some _ => false | None => true end
        then Fail (PlainError
                     ("No valid user object provided in kubeconfig for context "
                      ++ quoted_name contextName)%string)
        else
          match user with
          | Some u =>
              if or_true (validateExec validationOpts) && truthy (exec u)
              then validate_exec (exec u)
              else Ok tt
          | None => Ok tt
          end
  end.

End Helpers.

(** *** Pods and nodes *)

Record Condition : Type := {
  type : string;
  status : string
}.

Record V1PodStatus : Type := {
  conditions : option (list Condition);
  phase : option string
}.

Record V1PodSpec : Type := { priority : option Z }.

Record V1Pod : Type := {
  pod_status : option V1PodStatus;
  pod_spec : option V1PodSpec
}.

Definition is_string (o : option string) (s : string) : bool :=
  match o with
  | Some x => String.eqb x s
  | None => false
  end.

(** [podHasIssues(pod)]: the disjunction stops at its first true
    operand, and [pod.spec] is read by the last one only. *)
Definition podHasIssues (pod : V1Pod) : Result bool :=
  match pod_status pod with
  | None => Fail (TypeError "cannot read properties of undefined")
  | Some pstatus =>
      match conditions pstatus with
      | None => Fail (TypeError "cannot read properties of undefined")
      | Some conds =>
          let notReady :=
            existsb (fun condition =>
                       String.eqb (type condition) "Ready"
                       && negb (String.eqb (status condition) "True"))
              conds in
          if notReady then Ok true
          else if negb (is_string (phase pstatus) "Running") then Ok true
          else
            match pod_spec pod with
            | None => Fail (TypeError "cannot read properties of undefined")
            | Some pspec =>
                Ok (match priority pspec with
                    | Some p => p >? 500000
                    | None => false
                    end)
            end
      end
  end.

(** [toLowerCase] on the letters A to Z; the status of a condition is
    compared with a word of such letters. *)
Definition lower (c : ascii) : ascii :=
  let n := nat_of_ascii c in
  if (65 <=? n)%nat && (n <=? 90)%nat then ascii_of_nat (n + 32) else c.

Fixpoint toLowerCase (s : string) : string :=
  match s with
  | EmptyString => EmptyString
  | String c rest => String (lower c) (toLowerCase rest)
  end.

Record V1Node : Type := { node_conditions : option (list Condition) }.

(** [getNodeWarningConditions(node)] *)
Definition getNodeWarningConditions (node : V1Node) : Result (list Condition) :=
  match node_conditions node with
  | None => Fail (TypeError "cannot read properties of undefined")
  | Some conds =>
      Ok (filter (fun c =>
                    String.eqb (toLowerCase (status c)) "true"
                    && negb (String.eqb (type c) "Ready")
                    && negb (String.eqb (type c) "HostUpgrades"))
            conds)
  end.

(** A status that spells [true] in some mix of cases. *)
Definition one_of (c : ascii) (small capital : nat) : Prop :=
  nat_of_ascii c = small \/ nat_of_ascii c = capital.

Definition spells_true (s : string) : Prop :=
  exists t r u e,
    s = String t (String r (String u (String e EmptyString)))
    /\ one_of t 116 84 /\ one_of r 114 82 /\ one_of u 117 85 /\ one_of e 101 69.

(** *** Raw contexts *)

(** [v?.name] *)
Definition optional (v : Value) (name : string) : Completion Value :=
  match v with
  | VUndefined | VNull => Normal VUndefined
  | _ => get_prop v name
  end.

(** [checkRawContext(rawContext)]: the value of the conjunction. *)
Definition checkRawContext (rawContext : Value) : Completion Value :=
  (name <- get_prop rawContext "name" ;;
   if negb (truthy name) then Normal name
   else
     context <- get_prop rawContext "context" ;;
     cluster <- optional context "cluster" ;;
     if negb (truthy cluster) then Normal cluster
     else
       context' <- get_prop rawContext "context" ;;
       optional context' "user")%completion.

(** [rawContexts.filter(checkRawContext)] on the elements of an array *)
Fixpoint filter_raw (rawContexts : list Value) : Completion (list Value) :=
  match rawContexts with
  | [] => Normal []
  | rawContext :: rest =>
      (keep <- checkRawContext rawContext ;;
       kept <- filter_raw rest ;;
       Normal (if truthy keep then rawContext :: kept else kept))%completion
  end.

(** [rawContexts?.filter(checkRawContext)] *)
Definition filter_contexts (rawContexts : Value) : Completion Value :=
  match rawContexts with
  | VUndefined | VNull => Normal VUndefined
  | VArr elems _ =>
      (kept <- filter_raw elems ;; Normal (VArr kept []))%completion
  | _ => Throw "TypeError: rawContexts.filter is not a function"
  end.

(** The parts of [loadToOptions] that are not its own: [yaml.safeLoad]
    and the constructors of [config_types]. *)
Class Loader : Type := {
  safeLoad : string -> Completion Value;
  newClusters : Value -> Completion (list Cluster);
  newUsers : Value -> Completion (list User);
  newContexts : Value -> Completion (list Context)
}.

Record Options : Type := {
  opt_clusters : list Cluster;
  opt_users : list User;
  opt_contexts : list Context;
  opt_currentContext : Value
}.

(** [typeof obj !== "object" || !obj] *)
Definition not_an_object (obj : Value) : bool :=
  match obj with
  | VObj _ | VArr _ _ => false
  | _ => true
  end.

(** [loadToOptions(rawYaml)] *)
Definition loadToOptions {loader : Loader} (rawYaml : string) : Completion Options :=
  (obj <- safeLoad rawYaml ;;
   if not_an_object obj then Throw "TypeError: KubeConfig root entry must be an object"
   else
     rawClusters <- get_prop obj "clusters" ;;
     rawUsers <- get_prop obj "users" ;;
     rawContexts <- get_prop obj "contexts" ;;
     current <- get_prop obj "current-context" ;;
     cs <- newClusters rawClusters ;;
     us <- newUsers rawUsers ;;
     filtered <- filter_contexts rawContexts ;;
     ctxs <- newContexts filtered ;;
     Normal {| opt_clusters := cs; opt_users := us; opt_contexts := ctxs;
               opt_currentContext := current |})%completion.

(** A raw context with all it needs: its name is truthy, and so are the
    cluster and the user of its [context]. *)
Definition complete_context (rawContext : Value) : bool :=
  truthy (field rawContext "name")
  && truthy (field (field rawContext "context") "cluster")
  && truthy (field (field rawContext "context") "user").

(** The lookups of the library, by name, for the examples; the home
    directory and the commands of a small machine. *)
Definition by_name {A} (name_of : A -> string) (items : option (list A)) (name : string)
  : option A :=
  match items with
  | Some l => find (fun x => String.eqb (name_of x) name) l
  | None => None
  end.

Definition demo_platform : Platform :=
  {| homedir := "/home/lens";
     getCluster := fun config => by_name cluster_name (clusters config);
     getUser := fun config => by_name user_name (users config);
     getContextObject := fun config => by_name context_name (contexts config);
     isAbsolute_path := fun p => char_is p 0 47;
     commandExists_sync := fun c => String.eqb c "aws" || String.eqb c "/usr/bin/gcloud";
     loadConfig := fun _ => Fail (PlainError "ENOENT") |}.

Definition demo_config : KubeConfig :=
  {| clusters := Some [{| cluster_name := "prod"; server := "https://prod:6443" |}];
     users := Some [{| user_name := "admin"; exec := VUndefined |};
                    {| user_name := "robot";
                       exec := VObj [("command", VStr "kubelogin")] |}];
     contexts := Some [{| context_name := "prod-admin"; context_cluster := "prod";
                          context_user := "admin" |};
                       {| context_name := "prod-robot"; context_cluster := "prod";
                          context_user := "robot" |};
                       {| context_name := "lost"; context_cluster := "gone";
                          context_user := "admin" |}];
     currentContext := Some "prod-admin" |}.

Definition defaults : KubeConfigValidationOpts :=
  {| validateCluster := None; validateUser := None; validateExec := None |}.

(** A loader for the examples: JSON documents, which are YAML documents,
    and constructors that read the names out of the raw entries of an
    array and make nothing of anything else. *)
Definition text_of (v : Value) : string :=
  match v with
  | VStr s => s
  | _ => ""
  end.

Definition entries (raw : Value) : list Value :=
  match raw with
  | VArr elems _ => elems
  | _ => []
  end.

Definition demo_loader : Loader :=
  {| safeLoad := fun text =>
       match Json.parse text with
       | Some v => Normal v
       | None => Throw "YAMLException"
       end;
     newClusters := fun raw =>
       Normal (map (fun v => {| cluster_name := text_of (field v "name");
                                server := text_of (field (field v "cluster") "server") |})
                 (entries raw));
     newUsers := fun raw =>
       Normal (map (fun v => {| user_name := text_of (field v "name");
                                exec := field (field v "user") "exec" |})
                 (entries raw));
     newContexts := fun raw =>
       Normal (map (fun v => {| context_name := text_of (field v "name");
                                context_cluster :=
                                  text_of (field (field v "context") "cluster");
                                context_user :=
                                  text_of (field (field v "context") "user") |})
                 (entries raw)) |}.

(** A document with five raw contexts: the name of the second is the
    number zero, the third has no [context], the fourth no user. *)
Definition demo_document : string :=
  quoted "{'current-context':'dev','clusters':[{'name':'c1','cluster':{'server':'https://c1:6443'}}],'users':[{'name':'u1','user':{}}],'contexts':[{'name':'dev','context':{'cluster':'c1','user':'u1'}},{'name':0.0,'context':{'cluster':'c1','user':'u1'}},{'name':'orphan'},{'name':'half','context':{'cluster':'c1'}},{'name':'prod','context':{'cluster':'c1','user':'u1'}}]}".

(** What the document parses to. *)
Definition demo_raw_contexts : list Value :=
  [VObj [("name", VStr "dev");
         ("context", VObj [("cluster", VStr "c1"); ("user", VStr "u1")])];
   VObj [("name", VNum "0.0");
         ("context", VObj [("cluster", VStr "c1"); ("user", VStr "u1")])];
   VObj [("name", VStr "orphan")];
   VObj [("name", VStr "half"); ("context", VObj [("cluster", VStr "c1")])];
   VObj [("name", VStr "prod");
         ("context", VObj [("cluster", VStr "c1"); ("user", VStr "u1")])]].

Definition demo_root : Value :=
  VObj [("current-context", VStr "dev");
        ("clusters",
         VArr [VObj [("name", VStr "c1");
                     ("cluster", VObj [("server", VStr "https://c1:6443")])]] []);
        ("users", VArr [VObj [("name", VStr "u1"); ("user", VObj [])]] []);
        ("contexts", VArr demo_raw_contexts [])].

(** The same with a [null] among the raw contexts. *)
Definition demo_document_null : string :=
  quoted "{'contexts':[{'name':'dev','context':{'cluster':'c1','user':'u1'}},null]}".

End KubeHelpers.

(* ================================================================== *)
(** * Part II: properties *)
(* ================================================================== *)

(** ** Equality tests *)

Lemma Value_eqb_eq : forall x y, Value_eqb x y = true <-> x = y.
Proof.
  induction x as [| |b|n|s|elems props Hl Hp|fields Hf] using Value_nested_ind;
    destruct y as [| |b'|n'|s'|elems' props'|fields']; simpl;
    try (split; [discriminate | discriminate]); try (split; reflexivity).
  - rewrite Bool.eqb_true_iff. split; congruence.
  - rewrite String.eqb_eq. split; congruence.
  - rewrite String.eqb_eq. split; congruence.
  - assert (A : (fix all2 (xs ys : list Value) {struct xs} : bool :=
                   match xs, ys with
                   | [], [] => true
                   | x' :: xs', y' :: ys' => Value_eqb x' y' && all2 xs' ys'
                   | _, _ => false
                   end) elems elems' = true <-> elems = elems').
    { clear Hp. revert elems'. induction Hl as [|x xs Hx _ IH]; intros [|y ys];
        try (split; [discriminate | discriminate]); try (split; reflexivity).
      rewrite andb_true_iff, Hx, IH. split.
      - intros [-> ->]. reflexivity.
      - intros E. injection E as -> ->. auto. }
    assert (B : (fix all2 (xs ys : list (string * Value)) {struct xs} : bool :=
                   match xs, ys with
                   | [], [] => true
                   | (k, x') :: xs', (l, y') :: ys' =>
                       String.eqb k l && Value_eqb x' y' && all2 xs' ys'
                   | _, _ => false
                   end) props props' = true <-> props = props').
    { clear Hl A. revert props'. induction Hp as [|[k x] xs Hx _ IH]; intros [|[l y] ys];
        try (split; [discriminate | discriminate]); try (split; reflexivity).
      simpl in Hx. rewrite !andb_true_iff, String.eqb_eq, Hx, IH. split.
      - intros [[-> ->] ->]. reflexivity.
      - intros E. injection E as -> -> ->. auto. }
    rewrite andb_true_iff, A, B. split.
    + intros [-> ->]. reflexivity.
    + intros E. injection E as -> ->. auto.
  - revert fields'. induction Hf as [|[k x] xs Hx _ IH]; intros [|[l y] ys];
      try (split; [discriminate | discriminate]); try (split; reflexivity).
    simpl in Hx. rewrite !andb_true_iff, String.eqb_eq, Hx, IH. split.
    + intros [[-> ->] E]. congruence.
    + intros E. injection E as -> -> ->. auto.
Qed.

Lemma KubeApi_eqb_eq : forall x y, KubeApi_eqb x y = true <-> x = y.
Proof.
  intros [i k v b n] [i' k' v' b' n']. unfold KubeApi_eqb. simpl.
  rewrite !andb_true_iff, Nat.eqb_eq, !String.eqb_eq, Bool.eqb_true_iff.
  split.
  - intros [[[[-> ->] ->] ->] ->]. reflexivity.
  - intros E. injection E as -> -> -> -> ->. auto.
Qed.

Lemma cursor_eqb_eq : forall x y, cursor_eqb x y = true <-> x = y.
Proof.
  intros [a v] [a' v']. unfold cursor_eqb. simpl.
  rewrite andb_true_iff, KubeApi_eqb_eq, Value_eqb_eq.
  split; [intros [-> ->]; reflexivity | intros E; injection E as -> ->; auto].
Qed.

(** ** Facts about [JsMap] *)

Module JsMapFacts.
Section Facts.
Context {K V : Type} {eqb : K -> K -> bool}.
Hypothesis eqb_eq : forall x y, eqb x y = true <-> x = y.

Lemma eqb_refl k : eqb k k = true.
Proof. apply eqb_eq. reflexivity. Qed.

Lemma eqb_neq x y : x <> y -> eqb x y = false.
Proof.
  intros N. destruct (eqb x y) eqn:E; [|reflexivity].
  apply eqb_eq in E. contradiction.
Qed.

Lemma eq_dec (x y : K) : x = y \/ x <> y.
Proof.
  destruct (eqb x y) eqn:E.
  - left. apply eqb_eq, E.
  - right. intros H. apply eqb_eq in H. congruence.
Qed.

Lemma get_set_eq (m : JsMap.t) k (v : V) : JsMap.get eqb (JsMap.set eqb m k v) k = Some v.
Proof.
  induction m as [|[k' v'] r IH]; simpl.
  - rewrite eqb_refl. reflexivity.
  - destruct (eqb k k') eqn:E; simpl; rewrite E; [reflexivity | exact IH].
Qed.

Lemma get_set_neq (m : JsMap.t) k (v : V) x :
  x <> k -> JsMap.get eqb (JsMap.set eqb m k v) x = JsMap.get eqb m x.
Proof.
  intros N. induction m as [|[k' v'] r IH]; simpl.
  - rewrite (eqb_neq N). reflexivity.
  - destruct (eqb k k') eqn:E; simpl.
    + apply eqb_eq in E. subst k'. rewrite (eqb_neq N). reflexivity.
    + destruct (eqb x k'); [reflexivity | exact IH].
Qed.

Lemma get_delete_eq (m : @JsMap.t K V) k : JsMap.get eqb (JsMap.delete eqb m k) k = None.
Proof.
  induction m as [|[k' v'] r IH]; simpl; [reflexivity|].
  destruct (eqb k k') eqn:E; simpl; [exact IH|]. rewrite E. exact IH.
Qed.

Lemma get_delete_neq (m : @JsMap.t K V) k x :
  x <> k -> JsMap.get eqb (JsMap.delete eqb m k) x = JsMap.get eqb m x.
Proof.
  intros N. induction m as [|[k' v'] r IH]; simpl; [reflexivity|].
  destruct (eqb k k') eqn:E; simpl.
  - apply eqb_eq in E. subst k'. rewrite (eqb_neq N). exact IH.
  - destruct (eqb x k'); [reflexivity | exact IH].
Qed.

Lemma in_keys_get (m : @JsMap.t K V) k : In k (JsMap.keys m) <-> JsMap.get eqb m k <> None.
Proof.
  induction m as [|[k' v'] r IH]; simpl.
  - split; [contradiction | congruence].
  - destruct (eqb k k') eqn:E.
    + apply eqb_eq in E. split; [discriminate | auto].
    + rewrite <- IH. split; [|auto]. intros [H|H]; [|exact H].
      subst k'. rewrite eqb_refl in E. discriminate.
Qed.

Lemma delete_absent (m : @JsMap.t K V) k : ~ In k (JsMap.keys m) -> JsMap.delete eqb m k = m.
Proof.
  induction m as [|[k' v'] r IH]; simpl; [reflexivity|].
  intros N. destruct (eqb k k') eqn:E.
  - apply eqb_eq in E. exfalso. apply N. left. congruence.
  - f_equal. apply IH. intros H. apply N. right. exact H.
Qed.

Lemma in_set (m : JsMap.t) k (v : V) e :
  In e (JsMap.set eqb m k v) -> e = (k, v) \/ In e m.
Proof.
  induction m as [|[k' v'] r IH]; simpl.
  - intros [H|[]]. left. congruence.
  - destruct (eqb k k') eqn:E; simpl.
    + apply eqb_eq in E. subst k'.
      intros [H|H]; [left; congruence | right; right; exact H].
    + intros [H|H]; [right; left; exact H|].
      destruct (IH H); [left | right; right]; assumption.
Qed.

Lemma in_delete (m : @JsMap.t K V) k e : In e (JsMap.delete eqb m k) -> In e m.
Proof.
  induction m as [|[k' v'] r IH]; simpl; [auto|].
  destruct (eqb k k'); simpl; intuition.
Qed.

Lemma keys_set_in (m : JsMap.t) k (v : V) x :
  In x (JsMap.keys (JsMap.set eqb m k v)) <-> x = k \/ In x (JsMap.keys m).
Proof.
  rewrite !in_keys_get. destruct (eq_dec x k) as [E|E].
  - subst x. rewrite get_set_eq. split; [auto | discriminate].
  - rewrite get_set_neq by exact E. tauto.
Qed.

Lemma keys_delete_in (m : @JsMap.t K V) k x :
  In x (JsMap.keys (JsMap.delete eqb m k)) <-> x <> k /\ In x (JsMap.keys m).
Proof.
  rewrite !in_keys_get. destruct (eq_dec x k) as [E|E].
  - subst x. rewrite get_delete_eq. tauto.
  - rewrite get_delete_neq by exact E. tauto.
Qed.

Lemma NoDup_keys_delete (m : @JsMap.t K V) k :
  NoDup (JsMap.keys m) -> NoDup (JsMap.keys (JsMap.delete eqb m k)).
Proof.
  induction m as [|[k' v'] r IH]; simpl; [auto|].
  intros H. inversion H as [|? ? Hn Hr]; subst.
  destruct (eqb k k'); [auto|]. simpl. constructor; [|auto].
  intros Hin. apply Hn. apply (keys_delete_in r k k'). exact Hin.
Qed.

Lemma NoDup_keys_set (m : JsMap.t) k (v : V) :
  NoDup (JsMap.keys m) -> NoDup (JsMap.keys (JsMap.set eqb m k v)).
Proof.
  induction m as [|[k' v'] r IH]; simpl.
  - intros _. constructor; [intros [] | constructor].
  - intros H. inversion H as [|? ? Hn Hr]; subst.
    destruct (eqb k k') eqn:E; simpl; [exact H|].
    constructor; [|auto]. intros Hin.
    apply (keys_set_in r k v k') in Hin. destruct Hin as [Hin|Hin]; [|contradiction].
    subst k'. rewrite eqb_refl in E. discriminate.
Qed.

End Facts.
End JsMapFacts.

(** ** The registry of subscribers *)

Abbreviation sub_get := (JsMap.get KubeApi_eqb).
Abbreviation sub_set := (JsMap.set KubeApi_eqb).
Abbreviation sub_delete := (JsMap.delete KubeApi_eqb).

Lemma count_get (m : Subscribers) x :
  getSubscribersCount m x = match sub_get m x with Some n => n | None => 0 end.
Proof.
  unfold getSubscribersCount, or_zero. destruct (sub_get m x) as [n|]; [|reflexivity].
  destruct (Z.eqb_spec n 0); congruence.
Qed.

Lemma positive_get (m : Subscribers) x v :
  counts_positive m -> sub_get m x = Some v -> 0 < v.
Proof.
  unfold counts_positive. induction m as [|[k w] r IH]; simpl; [discriminate|].
  intros H. inversion H as [|? ? Hw Hr]; subst. simpl in Hw.
  destruct (KubeApi_eqb x k); [intros E; injection E as <-; exact Hw | auto].
Qed.

Lemma count_nonneg (m : Subscribers) x : counts_positive m -> 0 <= getSubscribersCount m x.
Proof.
  intros P. rewrite count_get. destruct (sub_get m x) as [n|] eqn:E; [|lia].
  pose proof (positive_get _ P E). lia.
Qed.

Lemma active_iff_count (m : Subscribers) x :
  counts_positive m -> (In x (activeApis m) <-> 0 < getSubscribersCount m x).
Proof.
  intros P. unfold activeApis.
  rewrite (JsMapFacts.in_keys_get KubeApi_eqb_eq), count_get.
  destruct (sub_get m x) as [n|] eqn:E.
  - pose proof (positive_get _ P E). split; [intros _; lia | discriminate].
  - split; [congruence | lia].
Qed.

Lemma positive_subscribe_one (m : Subscribers) a :
  counts_positive m -> counts_positive (subscribe_one m a).
Proof.
  intros P. unfold counts_positive. apply Forall_forall. intros e He.
  apply JsMapFacts.in_set in He; [|exact KubeApi_eqb_eq]. destruct He as [->|He].
  - simpl. pose proof (count_nonneg a P). lia.
  - unfold counts_positive in P. rewrite Forall_forall in P. auto.
Qed.

Lemma positive_unsubscribe_one (m : Subscribers) a :
  counts_positive m -> counts_positive (unsubscribe_one m a).
Proof.
  intros P. unfold unsubscribe_one, counts_positive.
  destruct (Z.leb_spec (getSubscribersCount m a - 1) 0) as [L|L];
    apply Forall_forall; intros e He.
  - apply JsMapFacts.in_delete in He.
    unfold counts_positive in P. rewrite Forall_forall in P. auto.
  - apply JsMapFacts.in_set in He; [|exact KubeApi_eqb_eq]. destruct He as [->|He].
    + simpl. lia.
    + unfold counts_positive in P. rewrite Forall_forall in P. auto.
Qed.

Lemma positive_subscribe apis (m : Subscribers) :
  counts_positive m -> counts_positive (fold_left subscribe_one apis m).
Proof.
  revert m. induction apis as [|a r IH]; simpl; intros m P; [exact P|].
  apply IH, positive_subscribe_one, P.
Qed.

Lemma positive_unsubscribe apis (m : Subscribers) :
  counts_positive m -> counts_positive (unsubscribe apis m).
Proof.
  unfold unsubscribe. revert m. induction apis as [|a r IH]; simpl; intros m P; [exact P|].
  apply IH, positive_unsubscribe_one, P.
Qed.

Lemma nodup_subscribe_one (m : Subscribers) a :
  NoDup (activeApis m) -> NoDup (activeApis (subscribe_one m a)).
Proof. apply JsMapFacts.NoDup_keys_set, KubeApi_eqb_eq. Qed.

Lemma nodup_unsubscribe_one (m : Subscribers) a :
  NoDup (activeApis m) -> NoDup (activeApis (unsubscribe_one m a)).
Proof.
  unfold unsubscribe_one. destruct (_ <=? 0).
  - apply JsMapFacts.NoDup_keys_delete, KubeApi_eqb_eq.
  - apply JsMapFacts.NoDup_keys_set, KubeApi_eqb_eq.
Qed.

Lemma nodup_subscribe apis (m : Subscribers) :
  NoDup (activeApis m) -> NoDup (activeApis (fold_left subscribe_one apis m)).
Proof.
  revert m. induction apis as [|a r IH]; simpl; intros m P; [exact P|].
  apply IH, nodup_subscribe_one, P.
Qed.

Lemma nodup_unsubscribe apis (m : Subscribers) :
  NoDup (activeApis m) -> NoDup (activeApis (unsubscribe apis m)).
Proof.
  unfold unsubscribe. revert m. induction apis as [|a r IH]; simpl; intros m P; [exact P|].
  apply IH, nodup_unsubscribe_one, P.
Qed.

Lemma occ_cons x a apis :
  occ x (a :: apis) = (if KubeApi_eqb x a then 1 else 0) + occ x apis.
Proof.
  unfold occ. simpl. destruct (KubeApi_eqb x a); simpl List.length; lia.
Qed.

Lemma occ_nil x : occ x [] = 0.
Proof. reflexivity. Qed.

Lemma occ_nonneg x apis : 0 <= occ x apis.
Proof. unfold occ. lia. Qed.

Lemma count_subscribe_one (m : Subscribers) a x :
  counts_positive m ->
  getSubscribersCount (subscribe_one m a) x
  = getSubscribersCount m x + (if KubeApi_eqb x a then 1 else 0).
Proof.
  intros P. unfold subscribe_one. rewrite (count_get (sub_set _ _ _)).
  destruct (KubeApi_eqb x a) eqn:E.
  - apply KubeApi_eqb_eq in E. subst x.
    rewrite (JsMapFacts.get_set_eq KubeApi_eqb_eq). reflexivity.
  - rewrite (JsMapFacts.get_set_neq KubeApi_eqb_eq).
    + rewrite <- count_get. lia.
    + intros ->. rewrite (JsMapFacts.eqb_refl KubeApi_eqb_eq) in E. discriminate.
Qed.

Lemma count_unsubscribe_one (m : Subscribers) a x :
  counts_positive m ->
  getSubscribersCount (unsubscribe_one m a) x
  = if KubeApi_eqb x a then Z.max 0 (getSubscribersCount m x - 1)
    else getSubscribersCount m x.
Proof.
  intros P. unfold unsubscribe_one.
  destruct (KubeApi_eqb x a) eqn:E.
  - apply KubeApi_eqb_eq in E. subst x.
    destruct (Z.leb_spec (getSubscribersCount m a - 1) 0) as [L|L].
    + rewrite (count_get (sub_delete _ _)), JsMapFacts.get_delete_eq. lia.
    + rewrite (count_get (sub_set _ _ _)), (JsMapFacts.get_set_eq KubeApi_eqb_eq). lia.
  - assert (N : x <> a).
    { intros ->. rewrite (JsMapFacts.eqb_refl KubeApi_eqb_eq) in E. discriminate. }
    destruct (_ <=? 0).
    + rewrite (count_get (sub_delete _ _)), (JsMapFacts.get_delete_neq KubeApi_eqb_eq _ N).
      symmetry. apply count_get.
    + rewrite (count_get (sub_set _ _ _)), (JsMapFacts.get_set_neq KubeApi_eqb_eq _ _ N).
      symmetry. apply count_get.
Qed.

Lemma count_subscribe apis (m : Subscribers) x :
  counts_positive m ->
  getSubscribersCount (fold_left subscribe_one apis m) x = getSubscribersCount m x + occ x apis.
Proof.
  revert m. induction apis as [|a r IH]; simpl; intros m P.
  - unfold occ. simpl. lia.
  - rewrite IH by (apply positive_subscribe_one, P).
    rewrite count_subscribe_one by exact P. rewrite occ_cons. lia.
Qed.

Lemma count_unsubscribe apis (m : Subscribers) x :
  counts_positive m ->
  getSubscribersCount (unsubscribe apis m) x
  = Z.max 0 (getSubscribersCount m x - occ x apis).
Proof.
  unfold unsubscribe. revert m. induction apis as [|a r IH]; simpl; intros m P.
  - pose proof (count_nonneg x P). unfold occ. simpl. lia.
  - rewrite IH by (apply positive_unsubscribe_one, P).
    rewrite count_unsubscribe_one by exact P. rewrite occ_cons.
    pose proof (count_nonneg x P). pose proof (occ_nonneg x r).
    destruct (KubeApi_eqb x a); lia.
Qed.

(** ** Sequences of [subscribe] and unsubscribe calls *)

Lemma mem_In t l : mem t l = true <-> In t l.
Proof.
  unfold mem. rewrite existsb_exists. split.
  - intros [y [Hy E]]. apply Nat.eqb_eq in E. subst. exact Hy.
  - intros H. exists t. split; [exact H | apply Nat.eqb_refl].
Qed.

Lemma mem_app t l1 l2 : mem t (l1 ++ l2) = mem t l1 || mem t l2.
Proof. apply existsb_app. Qed.

Lemma created_app cs l : created (cs ++ l) = created cs ++ created l.
Proof. induction cs as [|[t a|t] r IH]; simpl; congruence. Qed.

Lemma invoked_app cs l : invoked (cs ++ l) = invoked cs ++ invoked l.
Proof. induction cs as [|[t a|t] r IH]; simpl; congruence. Qed.

Lemma acquired_app x cs l : acquired x (cs ++ l) = acquired x cs + acquired x l.
Proof. induction cs as [|[t a|t] r IH]; simpl; lia. Qed.

Lemma released_in_app env x cs l :
  released_in env x (cs ++ l) = released_in env x cs + released_in env x l.
Proof. induction cs as [|[t a|t] r IH]; simpl; lia. Qed.

Lemma apis_of_app cs l t :
  apis_of (cs ++ l) t = if mem t (created cs) then apis_of cs t else apis_of l t.
Proof.
  induction cs as [|[t0 a|t0] r IH]; simpl; [reflexivity| |exact IH].
  rewrite (Nat.eqb_sym t t0). destruct (Nat.eqb t0 t); simpl; [reflexivity | exact IH].
Qed.

Lemma apis_of_not_created cs t : mem t (created cs) = false -> apis_of cs t = [].
Proof.
  induction cs as [|[t0 a|t0] r IH]; simpl; [reflexivity| |exact IH].
  rewrite (Nat.eqb_sym t t0). destruct (Nat.eqb t0 t); simpl; [discriminate | exact IH].
Qed.

Lemma once_each_from_snoc cs c : forall seen used,
  once_each_from seen used (cs ++ [c])
  = once_each_from seen used cs
    && match c with
       | Subscribe t _ => negb (mem t (created cs) || mem t seen)
       | Unsubscribe t =>
           (mem t (created cs) || mem t seen)
           && negb (mem t (invoked cs) || mem t used)
       end.
Proof.
  induction cs as [|[t0 a|t0] r IH]; intros seen used.
  - destruct c; simpl; btauto.
  - simpl. rewrite IH. destruct c as [t b|t]; unfold mem; simpl; btauto.
  - simpl. rewrite IH. destruct c as [t b|t]; unfold mem; simpl; btauto.
Qed.

Lemma once_each_snoc cs c :
  once_each (cs ++ [c])
  = once_each cs
    && match c with
       | Subscribe t _ => negb (mem t (created cs))
       | Unsubscribe t => mem t (created cs) && negb (mem t (invoked cs))
       end.
Proof.
  unfold once_each. rewrite once_each_from_snoc.
  destruct c; simpl; rewrite ?orb_false_r; reflexivity.
Qed.

Lemma once_each_invoked_created cs :
  once_each cs = true -> forall t, mem t (invoked cs) = true -> mem t (created cs) = true.
Proof.
  induction cs as [|c cs IH] using rev_ind; [intros _ t; discriminate|].
  rewrite once_each_snoc, andb_true_iff. intros [W Hc] t.
  rewrite invoked_app, created_app, !mem_app. destruct c as [t0 a|t0]; simpl.
  - rewrite orb_false_r. intros H. rewrite (IH W t H). reflexivity.
  - rewrite orb_false_r. apply andb_true_iff in Hc. destruct Hc as [Hc _].
    intros H. apply orb_true_iff in H. destruct H as [H|H].
    + rewrite (IH W t H). reflexivity.
    + apply Nat.eqb_eq in H. subst t0. rewrite Hc. reflexivity.
Qed.

Lemma once_each_nodup_created cs : once_each cs = true -> NoDup (created cs).
Proof.
  induction cs as [|c cs IH] using rev_ind; [intros _; constructor|].
  rewrite once_each_snoc, andb_true_iff. intros [W Hc].
  rewrite created_app. destruct c as [t0 a|t0]; simpl.
  - apply (Permutation_NoDup (Permutation_cons_append (created cs) t0)).
    constructor; [|auto]. intros H. apply mem_In in H. rewrite H in Hc. discriminate.
  - rewrite app_nil_r. auto.
Qed.

Lemma run_calls_snoc cs c : run_calls (cs ++ [c]) = call (run_calls cs) c.
Proof. unfold run_calls. rewrite fold_left_app. reflexivity. Qed.

Lemma closure_of_snoc l t' a t :
  closure_of (l ++ [(t', a)]) t
  = match closure_of l t with
    | Some x => Some x
    | None => if Nat.eqb t' t then Some a else None
    end.
Proof.
  induction l as [|[t0 a0] r IH]; simpl; [reflexivity|].
  destruct (Nat.eqb t0 t); [reflexivity | exact IH].
Qed.

Lemma closure_run cs t :
  closure_of (reg_closures (run_calls cs)) t
  = if mem t (created cs) then Some (apis_of cs t) else None.
Proof.
  induction cs as [|c cs IH] using rev_ind; [reflexivity|].
  rewrite run_calls_snoc, created_app, mem_app, apis_of_app.
  destruct c as [t0 a|t0]; simpl.
  - rewrite closure_of_snoc, IH. rewrite (Nat.eqb_sym t t0).
    destruct (mem t (created cs)); simpl; [reflexivity|].
    rewrite orb_false_r. destruct (Nat.eqb t0 t); reflexivity.
  - rewrite orb_false_r.
    destruct (closure_of (reg_closures (run_calls cs)) t0); simpl; rewrite IH;
      destruct (mem t (created cs)) eqn:E; try reflexivity.
Qed.

Lemma run_positive cs : counts_positive (reg_subscribers (run_calls cs)).
Proof.
  induction cs as [|c cs IH] using rev_ind; [constructor|].
  rewrite run_calls_snoc. destruct c as [t a|t]; simpl.
  - apply positive_subscribe, IH.
  - destruct (closure_of _ t); simpl; [apply positive_unsubscribe, IH | exact IH].
Qed.

Lemma run_nodup cs : NoDup (activeApis (reg_subscribers (run_calls cs))).
Proof.
  induction cs as [|c cs IH] using rev_ind; [constructor|].
  rewrite run_calls_snoc. destruct c as [t a|t]; simpl.
  - apply nodup_subscribe, IH.
  - destruct (closure_of _ t); simpl; [apply nodup_unsubscribe, IH | exact IH].
Qed.

Lemma released_in_ext env env' x l :
  (forall t, In t (invoked l) -> apis_of env t = apis_of env' t) ->
  released_in env x l = released_in env' x l.
Proof.
  induction l as [|[t a|t] r IH]; simpl; intros H; [reflexivity | auto |].
  rewrite (H t) by (left; reflexivity). rewrite IH; [reflexivity|].
  intros t' Ht'. apply H. right. exact Ht'.
Qed.

Lemma held_ext x cs cs' ts :
  (forall t, In t ts -> apis_of cs t = apis_of cs' t) -> held x cs ts = held x cs' ts.
Proof.
  induction ts as [|t r IH]; simpl; intros H; [reflexivity|].
  rewrite (H t) by (left; reflexivity). rewrite IH; [reflexivity|].
  intros t' Ht'. apply H. right. exact Ht'.
Qed.

(** A fresh subscription adds to what a set of distinct tokens holds at
    most its own list. *)
Lemma held_subscribe x cs t0 a ts :
  mem t0 (created cs) = false -> NoDup ts ->
  held x (cs ++ [Subscribe t0 a]) ts <= held x cs ts + occ x a.
Proof.
  intros F. induction ts as [|t r IH]; simpl; intros N.
  - pose proof (occ_nonneg x a). lia.
  - inversion N as [|? ? Hn Hr]; subst.
    rewrite apis_of_app. destruct (mem t (created cs)) eqn:E.
    + specialize (IH Hr). lia.
    + rewrite (apis_of_not_created _ _ E). simpl.
      destruct (Nat.eqb t0 t) eqn:E0.
      * apply Nat.eqb_eq in E0. subst t0.
        assert (H : held x (cs ++ [Subscribe t a]) r = held x cs r).
        { apply held_ext. intros t' Ht'. rewrite apis_of_app.
          destruct (mem t' (created cs)) eqn:E'; [reflexivity|].
          rewrite (apis_of_not_created _ _ E'). simpl.
          destruct (Nat.eqb_spec t t'); [subst; contradiction | reflexivity]. }
        rewrite H. lia.
      * specialize (IH Hr). rewrite occ_nil. lia.
Qed.

(** What the closures not yet invoked hold, together with what has been
    given back, never exceeds what has been taken. *)
Lemma held_bound x cs :
  once_each cs = true ->
  forall ts, NoDup ts -> (forall t, In t ts -> mem t (invoked cs) = false) ->
  held x cs ts + released_in cs x cs <= acquired x cs.
Proof.
  induction cs as [|c cs IH] using rev_ind.
  - intros _ ts _ _. simpl. induction ts as [|t r IHr]; simpl; [lia|].
    rewrite ?occ_nil. lia.
  - rewrite once_each_snoc, andb_true_iff. intros [W Hc] ts N U.
    rewrite acquired_app, released_in_app.
    assert (R : released_in (cs ++ [c]) x cs = released_in cs x cs).
    { apply released_in_ext. intros t Ht. rewrite apis_of_app.
      apply mem_In in Ht. rewrite (once_each_invoked_created _ W _ Ht). reflexivity. }
    rewrite R. destruct c as [t0 a|t0]; simpl.
    + apply negb_true_iff in Hc.
      pose proof (@held_subscribe x cs t0 a ts Hc N) as Hh.
      assert (B : held x cs ts + released_in cs x cs <= acquired x cs).
      { apply (IH W ts N). intros t Ht. specialize (U t Ht).
        rewrite invoked_app, mem_app in U. simpl in U.
        rewrite orb_false_r in U. exact U. }
      lia.
    + apply andb_true_iff in Hc. destruct Hc as [Hc Hu]. apply negb_true_iff in Hu.
      assert (E : forall t, apis_of (cs ++ [Unsubscribe t0]) t = apis_of cs t).
      { intros t. rewrite apis_of_app. destruct (mem t (created cs)) eqn:E'; [reflexivity|].
        rewrite (apis_of_not_created _ _ E'). reflexivity. }
      rewrite (held_ext x (cs ++ [Unsubscribe t0]) cs ts) by (intros; apply E).
      rewrite E.
      assert (B : held x cs (t0 :: ts) + released_in cs x cs <= acquired x cs).
      { apply (IH W).
        - constructor; [|exact N]. intros Hin. specialize (U t0 Hin).
          rewrite invoked_app, mem_app in U. simpl in U.
          rewrite Nat.eqb_refl in U. rewrite orb_true_r in U. discriminate.
        - intros t [<-|Ht]; [exact Hu|]. specialize (U t Ht).
          rewrite invoked_app, mem_app in U. apply orb_false_iff in U. tauto. }
      simpl in B. lia.
Qed.

(** When every closure is invoked at most once, the stored count is the
    net reference count. *)
Lemma run_count cs x :
  once_each cs = true ->
  getSubscribersCount (reg_subscribers (run_calls cs)) x = net_count x cs.
Proof.
  unfold net_count. induction cs as [|c cs IH] using rev_ind; [reflexivity|].
  intros W'. pose proof W' as W0.
  rewrite once_each_snoc, andb_true_iff in W'. destruct W' as [W Hc].
  specialize (IH W). rewrite run_calls_snoc, acquired_app, released_in_app.
  assert (R : released_in (cs ++ [c]) x cs = released_in cs x cs).
  { apply released_in_ext. intros t Ht. rewrite apis_of_app.
    apply mem_In in Ht. rewrite (once_each_invoked_created _ W _ Ht). reflexivity. }
  rewrite R. pose proof (run_positive cs) as P.
  destruct c as [t0 a|t0]; simpl.
  - rewrite (@count_subscribe a _ x P), IH. lia.
  - apply andb_true_iff in Hc. destruct Hc as [Hc Hu]. apply negb_true_iff in Hu.
    rewrite closure_run, Hc. simpl. rewrite (@count_unsubscribe _ _ x P), IH.
    rewrite apis_of_app, Hc.
    assert (B : held x cs [t0] + released_in cs x cs <= acquired x cs).
    { apply (@held_bound x cs W).
      - constructor; [intros [] | constructor].
      - intros t [<-|[]]. exact Hu. }
    simpl in B. lia.
Qed.

Lemma acquired_perm x cs cs' : Permutation cs cs' -> acquired x cs = acquired x cs'.
Proof.
  induction 1 as [|c l l' _ IH|c c' l|l l' l'' _ IH1 _ IH2]; simpl.
  - reflexivity.
  - destruct c; lia.
  - destruct c, c'; lia.
  - congruence.
Qed.

Lemma released_in_perm env x cs cs' :
  Permutation cs cs' -> released_in env x cs = released_in env x cs'.
Proof.
  induction 1 as [|c l l' _ IH|c c' l|l l' l'' _ IH1 _ IH2]; simpl.
  - reflexivity.
  - destruct c; lia.
  - destruct c, c'; lia.
  - congruence.
Qed.

Lemma created_subscribed cs t :
  mem t (created cs) = true -> In (Subscribe t (apis_of cs t)) cs.
Proof.
  induction cs as [|[t0 a|t0] r IH]; simpl; [discriminate| |auto].
  unfold mem. simpl. rewrite (Nat.eqb_sym t t0). destruct (Nat.eqb_spec t0 t).
  - subst. intros _. left. reflexivity.
  - simpl. intros H. right. apply IH, H.
Qed.

Lemma subscribed_created cs t a : In (Subscribe t a) cs -> mem t (created cs) = true.
Proof.
  induction cs as [|[t0 a0|t0] r IH]; simpl; [contradiction| |].
  - intros [E|H].
    + injection E as -> ->. unfold mem. simpl. rewrite Nat.eqb_refl. reflexivity.
    + unfold mem. simpl. fold (mem t (created r)). rewrite (IH H). apply orb_true_r.
  - intros [E|H]; [discriminate | auto].
Qed.

Lemma apis_of_unique cs t a :
  NoDup (created cs) -> In (Subscribe t a) cs -> apis_of cs t = a.
Proof.
  induction cs as [|[t0 a0|t0] r IH]; simpl; [contradiction| |].
  - intros N. inversion N as [|? ? Hn Hr]; subst. intros [E|H].
    + injection E as -> ->. rewrite Nat.eqb_refl. reflexivity.
    + destruct (Nat.eqb_spec t0 t); [|auto]. subst t0. exfalso. apply Hn.
      apply mem_In. apply (subscribed_created _ _ _ H).
  - intros N [E|H]; [discriminate | auto].
Qed.

Lemma apis_of_perm cs cs' t :
  Permutation cs cs' -> NoDup (created cs) -> NoDup (created cs') ->
  apis_of cs t = apis_of cs' t.
Proof.
  intros Hp N N'. destruct (mem t (created cs)) eqn:E.
  - apply created_subscribed in E. symmetry. apply apis_of_unique; [exact N'|].
    apply (Permutation_in _ Hp E).
  - rewrite (apis_of_not_created _ _ E). symmetry. apply apis_of_not_created.
    destruct (mem t (created cs')) eqn:E'; [|reflexivity].
    apply created_subscribed in E'. apply (Permutation_in _ (Permutation_sym Hp)) in E'.
    apply subscribed_created in E'. congruence.
Qed.

Lemma net_count_perm x cs cs' :
  Permutation cs cs' -> once_each cs = true -> once_each cs' = true ->
  net_count x cs = net_count x cs'.
Proof.
  intros Hp W W'. unfold net_count.
  rewrite (@acquired_perm x _ _ Hp), (@released_in_perm cs x _ _ Hp).
  rewrite (released_in_ext cs cs' x cs'); [reflexivity|].
  intros t _. apply apis_of_perm; auto using once_each_nodup_created.
Qed.

(** ** Invoking an unsubscribe closure again *)

Lemma unsubscribe_one_absent (m : Subscribers) a :
  ~ In a (activeApis m) -> unsubscribe_one m a = m.
Proof.
  intros N. unfold unsubscribe_one. rewrite count_get.
  assert (E : sub_get m a = None).
  { destruct (sub_get m a) eqn:E; [|reflexivity]. exfalso. apply N.
    apply (JsMapFacts.in_keys_get KubeApi_eqb_eq). congruence. }
  rewrite E. simpl. apply (JsMapFacts.delete_absent KubeApi_eqb_eq), N.
Qed.

Lemma weight_delete_le (m : Subscribers) k : weight (sub_delete m k) <= weight m.
Proof.
  induction m as [|[k' v] r IH]; cbn [weight JsMap.delete]; [lia|].
  destruct (KubeApi_eqb k k'); cbn [weight]; lia.
Qed.

Lemma weight_delete_lt (m : Subscribers) k :
  In k (activeApis m) -> weight (sub_delete m k) < weight m.
Proof.
  induction m as [|[k' v] r IH]; cbn [weight JsMap.delete]; [intros []|].
  intros H. simpl in H. destruct (KubeApi_eqb k k') eqn:E; cbn [weight].
  - pose proof (weight_delete_le r k). lia.
  - destruct H as [H|H].
    + subst k'. rewrite (JsMapFacts.eqb_refl KubeApi_eqb_eq) in E. discriminate.
    + specialize (IH H). lia.
Qed.

Lemma weight_set_existing (m : Subscribers) k v v' :
  sub_get m k = Some v ->
  weight (sub_set m k v') = weight m - Z.max 0 v + Z.max 0 v'.
Proof.
  induction m as [|[k' w] r IH]; cbn [weight JsMap.set JsMap.get]; [discriminate|].
  destruct (KubeApi_eqb k k'); cbn [weight].
  - intros E. injection E as ->. lia.
  - intros E. rewrite (IH E). lia.
Qed.

Lemma weight_unsubscribe_one (m : Subscribers) a :
  weight (unsubscribe_one m a) <= weight m
  /\ (In a (activeApis m) -> weight (unsubscribe_one m a) < weight m).
Proof.
  unfold unsubscribe_one.
  destruct (Z.leb_spec (getSubscribersCount m a - 1) 0) as [L|L].
  - split; [apply weight_delete_le | apply weight_delete_lt].
  - rewrite count_get in L. destruct (sub_get m a) as [v|] eqn:E; [|lia].
    rewrite (@weight_set_existing m a v _ E), count_get, E. split; [lia | intros _; lia].
Qed.

Lemma weight_unsubscribe_le apis (m : Subscribers) :
  weight (unsubscribe apis m) <= weight m.
Proof.
  unfold unsubscribe. revert m. induction apis as [|a r IH]; intros m; simpl; [lia|].
  specialize (IH (unsubscribe_one m a)).
  pose proof (proj1 (weight_unsubscribe_one m a)). lia.
Qed.

Lemma weight_unsubscribe_lt apis (m : Subscribers) a :
  In a apis -> In a (activeApis m) -> weight (unsubscribe apis m) < weight m.
Proof.
  revert m. induction apis as [|a0 r IH]; intros m; simpl; [contradiction|].
  intros Ha Hm. change (weight (unsubscribe r (unsubscribe_one m a0)) < weight m).
  destruct (sub_get m a0) eqn:E.
  - assert (H0 : In a0 (activeApis m)).
    { apply (JsMapFacts.in_keys_get KubeApi_eqb_eq). congruence. }
    pose proof (proj2 (weight_unsubscribe_one m a0) H0).
    pose proof (weight_unsubscribe_le r (unsubscribe_one m a0)). lia.
  - assert (H0 : ~ In a0 (activeApis m)).
    { intros H. apply (JsMapFacts.in_keys_get KubeApi_eqb_eq) in H. congruence. }
    rewrite (@unsubscribe_one_absent m a0 H0). destruct Ha as [->|Ha]; [contradiction|].
    apply (IH m Ha Hm).
Qed.

Lemma unsubscribe_fixed_iff apis (m : Subscribers) :
  unsubscribe apis m = m <-> (forall a, In a apis -> ~ In a (activeApis m)).
Proof.
  split.
  - intros E a Ha Hm. pose proof (@weight_unsubscribe_lt apis m a Ha Hm) as L.
    rewrite E in L. lia.
  - unfold unsubscribe. induction apis as [|a0 r IH]; simpl; intros H; [reflexivity|].
    rewrite unsubscribe_one_absent by (apply H; left; reflexivity).
    apply IH. intros a Ha. apply H. right. exact Ha.
Qed.

(** C2, as the code has it.  The closure returned by [subscribe] keeps no
    record of having been invoked: every invocation decrements again.
    Invoking it a second time leaves the registry as the first invocation
    left it exactly when none of its APIs is still registered after the
    first invocation; this is the case when nobody else holds a
    reference to them, that is when their stored counts do not exceed the
    references of the closure. *)
Theorem unsubscribe_again :
  forall (apis : list KubeApi) (subscribers : Subscribers),
    (unsubscribe apis (unsubscribe apis subscribers) = unsubscribe apis subscribers
     <-> forall a, In a apis -> ~ In a (activeApis (unsubscribe apis subscribers)))
    /\ (counts_positive subscribers ->
        (forall a, In a apis -> getSubscribersCount subscribers a <= occ a apis) ->
        unsubscribe apis (unsubscribe apis subscribers) = unsubscribe apis subscribers).
Proof.
  intros apis m. split; [apply unsubscribe_fixed_iff|].
  intros P H. apply unsubscribe_fixed_iff. intros a Ha Hin.
  apply (@active_iff_count _ a (@positive_unsubscribe apis m P)) in Hin.
  rewrite (@count_unsubscribe apis m a P) in Hin. specialize (H a Ha). lia.
Qed.

(** The closure of a sole subscriber of pods and nodes: invoking it twice
    is invoking it once. *)
Lemma unsubscribe_again_witness :
  let subscribers := fst (subscribe [Demo.podsApi; Demo.nodesApi] JsMap.empty) in
  let apis := snd (subscribe [Demo.podsApi; Demo.nodesApi] JsMap.empty) in
  counts_positive subscribers
  /\ (forall a, In a apis -> getSubscribersCount subscribers a <= occ a apis)
  /\ unsubscribe apis (unsubscribe apis subscribers) = unsubscribe apis subscribers.
Proof.
  assert (P : counts_positive (fst (subscribe [Demo.podsApi; Demo.nodesApi] JsMap.empty))).
  { repeat constructor. }
  assert (H : forall a, In a (snd (subscribe [Demo.podsApi; Demo.nodesApi] JsMap.empty)) ->
              getSubscribersCount (fst (subscribe [Demo.podsApi; Demo.nodesApi] JsMap.empty)) a
              <= occ a (snd (subscribe [Demo.podsApi; Demo.nodesApi] JsMap.empty))).
  { intros a [<-|[<-|[]]]; vm_compute; discriminate. }
  split; [exact P|]. split; [exact H|].
  exact (proj2 (unsubscribe_again _ _) P H).
Defined.

(** C2 fails as stated: two subscribers hold the pods API, the first one
    invokes its closure twice, and the second invocation takes away the
    reference of the other subscriber. *)
Lemma unsubscribe_twice_counterexample :
  let first := subscribe [Demo.podsApi] JsMap.empty in
  let second := subscribe [Demo.podsApi] (fst first) in
  let once := unsubscribe (snd first) (fst second) in
  let twice := unsubscribe (snd first) once in
  activeApis once = [Demo.podsApi] /\ activeApis twice = [] /\ twice <> once.
Proof.
  vm_compute. repeat split; discriminate.
Qed.

(** ** The active set and the net reference counts *)

(** C6, as the code has it.  After every sequence of calls the stored
    counts are positive, the active APIs are pairwise distinct and an API
    is active exactly when its stored count is positive.  When every
    closure is invoked at most once, the stored count of an API is its
    net reference count, an API is active exactly when that count is
    positive, and reordering the calls (in any way that still invokes
    closures only after their creation) does not change the active set. *)
Theorem active_set_net_count :
  forall calls : list Call,
    let subscribers := reg_subscribers (run_calls calls) in
    counts_positive subscribers
    /\ NoDup (activeApis subscribers)
    /\ (forall x, In x (activeApis subscribers) <-> 0 < getSubscribersCount subscribers x)
    /\ (once_each calls = true ->
        (forall x, getSubscribersCount subscribers x = net_count x calls)
        /\ (forall x, In x (activeApis subscribers) <-> 0 < net_count x calls)
        /\ (forall calls', Permutation calls calls' -> once_each calls' = true ->
            forall x, In x (activeApis (reg_subscribers (run_calls calls')))
                      <-> In x (activeApis subscribers))).
Proof.
  intros calls subscribers. pose proof (run_positive calls) as P.
  split; [exact P|]. split; [apply run_nodup|].
  split; [intros x; apply active_iff_count, P|].
  intros W.
  assert (A : forall cs, once_each cs = true ->
              forall x, In x (activeApis (reg_subscribers (run_calls cs)))
                        <-> 0 < net_count x cs).
  { intros cs Wc x. rewrite <- (@run_count cs x Wc).
    apply active_iff_count, run_positive. }
  split; [intros x; apply run_count, W|]. split; [apply A, W|].
  intros calls' Hp W' x. unfold subscribers.
  rewrite (A _ W), (A _ W'), (@net_count_perm x _ _ Hp W W'). tauto.
Qed.

(** Two subscribers, the first of which leaves. *)
Lemma active_set_net_count_witness :
  let calls := [Subscribe 1 [Demo.podsApi; Demo.nodesApi];
                Subscribe 2 [Demo.podsApi];
                Unsubscribe 1] in
  once_each calls = true
  /\ activeApis (reg_subscribers (run_calls calls)) = [Demo.podsApi]
  /\ (forall x, getSubscribersCount (reg_subscribers (run_calls calls)) x
                = net_count x calls).
Proof.
  split; [reflexivity|]. split; [reflexivity|].
  exact (proj1 (proj2 (proj2 (proj2
           (active_set_net_count
              [Subscribe 1 [Demo.podsApi; Demo.nodesApi];
               Subscribe 2 [Demo.podsApi];
               Unsubscribe 1]))) eq_refl)).
Defined.

(** C6 fails as stated: with a closure invoked twice the order of the
    calls matters.  Both sequences make the same calls; in the first the
    pods API ends up inactive although the second subscriber still holds
    it, in the second it ends up active although as many references were
    given back as were taken. *)
Lemma call_order_counterexample :
  let s1 := [Subscribe 1 [Demo.podsApi]; Subscribe 2 [Demo.podsApi];
             Unsubscribe 1; Unsubscribe 1] in
  let s2 := [Subscribe 1 [Demo.podsApi]; Unsubscribe 1; Unsubscribe 1;
             Subscribe 2 [Demo.podsApi]] in
  Permutation s1 s2
  /\ activeApis (reg_subscribers (run_calls s1)) = []
  /\ activeApis (reg_subscribers (run_calls s2)) = [Demo.podsApi]
  /\ net_count Demo.podsApi s1 = 0
  /\ net_count Demo.podsApi s2 = 0.
Proof.
  split.
  - apply perm_skip.
    apply (perm_trans (perm_swap _ _ _)). apply perm_skip.
    apply (perm_trans (perm_swap _ _ _)). apply perm_skip. apply Permutation_refl.
  - vm_compute. repeat split.
Qed.

(** ** The watch client *)

Lemma lookup_assign_eq fields name v :
  lookup_field (assign_field fields name v) name = v.
Proof.
  induction fields as [|[k w] r IH]; simpl.
  - rewrite String.eqb_refl. reflexivity.
  - destruct (String.eqb k name) eqn:E; simpl; rewrite E; [reflexivity | exact IH].
Qed.

Lemma lookup_assign_neq fields name v other :
  name <> other ->
  lookup_field (assign_field fields name v) other = lookup_field fields other.
Proof.
  intros N. induction fields as [|[k w] r IH]; simpl.
  - destruct (String.eqb_spec name other); [contradiction | reflexivity].
  - destruct (String.eqb_spec k name) as [->|Hk]; simpl.
    + destruct (String.eqb_spec name other); [contradiction | reflexivity].
    + destruct (String.eqb k other); [reflexivity | exact IH].
Qed.

Lemma remove_nth_last {A} (l : list A) (x : A) : remove_nth (List.length l) (l ++ [x]) = l.
Proof. induction l as [|y r IH]; simpl; [reflexivity | rewrite IH; reflexivity]. Qed.

Lemma nth_error_last {A} (l : list A) (x : A) : nth_error (l ++ [x]) (List.length l) = Some x.
Proof. induction l as [|y r IH]; simpl; [reflexivity | exact IH]. Qed.

Lemma get_prop_field v name :
  is_nullish v = false -> get_prop v name = Normal (field v name).
Proof. destruct v; simpl; try discriminate; reflexivity. Qed.

Lemma get_prop_nullish v name :
  is_nullish v = true -> exists reason, get_prop v name = Throw reason.
Proof. destruct v; simpl; try discriminate; eexists; reflexivity. Qed.

Lemma object_not_nullish v : is_object v = true -> is_nullish v = false.
Proof. destruct v; simpl; try discriminate; reflexivity. Qed.

Lemma truthy_field_object v name : truthy (field v name) = true -> is_object v = true.
Proof. destruct v; simpl; try discriminate; reflexivity. Qed.

Section ClientFacts.
Context {collaborators : Collaborators}.

Lemma log_logged e st : logged (log e st) = logged st ++ [e].
Proof. unfold log. destruct isProduction; reflexivity. Qed.

Lemma log_onMessage e st : onMessage (log e st) = onMessage st.
Proof. unfold log. destruct isProduction; reflexivity. Qed.

Lemma log_subscribers e st : subscribers (log e st) = subscribers st.
Proof. unfold log. destruct isProduction; reflexivity. Qed.

Lemma log_resourceVersions e st : resourceVersions (log e st) = resourceVersions st.
Proof. unfold log. destruct isProduction; reflexivity. Qed.

Lemma log_pending e st : pending (log e st) = pending st.
Proof. unfold log. destruct isProduction; reflexivity. Qed.

Lemma log_stream e st : stream (log e st) = stream st.
Proof. unfold log. destruct isProduction; reflexivity. Qed.

Lemma log_settings e st :
  reconnectTimeoutMs (log e st) = reconnectTimeoutMs st
  /\ maxReconnectsOnError (log e st) = maxReconnectsOnError st.
Proof. unfold log. destruct isProduction; split; reflexivity. Qed.

Lemma onServerStreamEnd_frame event st :
  onMessage (onServerStreamEnd event st) = onMessage st
  /\ logged (onServerStreamEnd event st) = logged st
  /\ subscribers (onServerStreamEnd event st) = subscribers st
  /\ resourceVersions (onServerStreamEnd event st) = resourceVersions st.
Proof.
  unfold onServerStreamEnd.
  destruct (stream_end_target event) as [[[a n]|]|]; repeat split; reflexivity.
Qed.

Lemma ensure_linked kubeApi ofields mfields :
  lookup_field ofields "metadata" = VObj mfields ->
  ensureObjectSelfLink kubeApi (VObj ofields) = Normal (linked kubeApi ofields mfields).
Proof.
  intros E. unfold ensureObjectSelfLink, linked. simpl. rewrite E. simpl.
  destruct (truthy (lookup_field mfields "selfLink")); reflexivity.
Qed.

(** [ensureObjectSelfLink] returns exactly when the metadata of the
    object are an object or an array, and the metadata of what it returns
    are one too. *)
Lemma ensure_outcome kubeApi object :
  is_nullish object = false ->
  match ensureObjectSelfLink kubeApi object with
  | Normal object' =>
      is_object (field object "metadata") = true
      /\ exists metadata', get_prop object' "metadata" = Normal metadata'
                           /\ is_object metadata' = true
  | Throw _ => is_object (field object "metadata") = false
  end.
Proof.
  intros N. unfold ensureObjectSelfLink. rewrite (@get_prop_field _ _ N). cbn [bind].
  destruct (is_nullish (field object "metadata")) eqn:Nm.
  - destruct (@get_prop_nullish _ "selfLink" Nm) as [reason ->]. cbn [bind].
    destruct (field object "metadata"); simpl in *; try discriminate; reflexivity.
  - rewrite (@get_prop_field _ _ Nm). cbn [bind].
    destruct (truthy (field (field object "metadata") "selfLink")) eqn:T.
    + pose proof (@truthy_field_object _ _ T) as O. split; [exact O|].
      exists (field object "metadata"). split; [apply get_prop_field, N | exact O].
    + destruct (field object "metadata") as [| |b|n|s|elems props|mfields] eqn:Em;
        simpl in Nm; try discriminate; cbn [set_prop bind]; try reflexivity.
      * destruct object as [| |b'|n'|s'|elems' props'|ofields]; simpl in N, Em;
          try discriminate; cbn [set_prop get_prop]; rewrite lookup_assign_eq;
          (split; [reflexivity | eexists; split; reflexivity]).
      * destruct object as [| |b'|n'|s'|elems' props'|ofields]; simpl in N, Em;
          try discriminate; cbn [set_prop get_prop]; rewrite lookup_assign_eq;
          (split; [reflexivity | eexists; split; reflexivity]).
Qed.

(** The metadata of the linked object still carry the namespace and the
    resource version of the event. *)
Lemma linked_reads kubeApi ofields mfields :
  lookup_field ofields "metadata" = VObj mfields ->
  (metadata <- get_prop (linked kubeApi ofields mfields) "metadata" ;;
   namespace <- get_prop metadata "namespace" ;;
   resourceVersion <- get_prop metadata "resourceVersion" ;;
   Normal (linked kubeApi ofields mfields, namespace, resourceVersion))%completion
  = Normal (linked kubeApi ofields mfields,
            lookup_field mfields "namespace",
            lookup_field mfields "resourceVersion").
Proof.
  intros E. unfold linked.
  destruct (truthy (lookup_field mfields "selfLink")); simpl.
  - rewrite E. reflexivity.
  - rewrite lookup_assign_eq. simpl.
    rewrite !lookup_assign_neq by discriminate. reflexivity.
Qed.

(** [getMessage] on a data event whose object has a registered handler
    and metadata. *)
Lemma getMessage_handled fields ofields mfields kubeApi st :
  switch_on (lookup_field fields "type") = CaseData ->
  lookup_field fields "object" = VObj ofields ->
  getApiByKind (lookup_field ofields "kind") (lookup_field ofields "apiVersion")
  = Some kubeApi ->
  lookup_field ofields "metadata" = VObj mfields ->
  getMessage (VObj fields) st
  = (Normal {| data := Some (with_object (VObj fields) (linked kubeApi ofields mfields));
               error := None; api := Some kubeApi; store := getStore kubeApi |},
     setResourceVersion kubeApi (VStr "") (lookup_field mfields "resourceVersion")
       (setResourceVersion kubeApi (lookup_field mfields "namespace")
          (lookup_field mfields "resourceVersion") st)).
Proof.
  intros Ht Ho Ha Hm. unfold getMessage. cbn [get_prop]. rewrite Ht.
  cbn [bind]. rewrite Ho. cbn [bind get_prop]. rewrite Ha.
  rewrite (ensure_linked kubeApi _ Hm). cbn [bind].
  rewrite (linked_reads kubeApi _ Hm). reflexivity.
Qed.

Lemma cursor_after_both kubeApi namespace version st :
  let st' := setResourceVersion kubeApi (VStr "") version
               (setResourceVersion kubeApi namespace version st) in
  getResourceVersion kubeApi namespace st' = Some version
  /\ getResourceVersion kubeApi (VStr "") st' = Some version.
Proof.
  unfold getResourceVersion, setResourceVersion. simpl. split.
  - destruct (JsMapFacts.eq_dec cursor_eqb_eq
                (cursor_key kubeApi namespace) (cursor_key kubeApi (VStr ""))) as [E|E].
    + rewrite E. apply (JsMapFacts.get_set_eq cursor_eqb_eq).
    + rewrite (JsMapFacts.get_set_neq cursor_eqb_eq _ _ E).
      apply (JsMapFacts.get_set_eq cursor_eqb_eq).
  - apply (JsMapFacts.get_set_eq cursor_eqb_eq).
Qed.

(** C3.  A data event whose object resolves to a registered handler sets
    the cursor of the handler for the namespace of the object and its
    cursor for all namespaces (the empty string) to the resource version
    of the object, and the message carries the handler. *)
Theorem data_event_sets_both_cursors :
  forall (fields ofields mfields : list (string * Value)) (kubeApi : KubeApi)
         (st : KubeWatchApi),
    switch_on (lookup_field fields "type") = CaseData ->
    lookup_field fields "object" = VObj ofields ->
    getApiByKind (lookup_field ofields "kind") (lookup_field ofields "apiVersion")
    = Some kubeApi ->
    lookup_field ofields "metadata" = VObj mfields ->
    let namespace := lookup_field mfields "namespace" in
    let resourceVersion := lookup_field mfields "resourceVersion" in
    let st' := snd (getMessage (VObj fields) st) in
    getResourceVersion kubeApi namespace st' = Some resourceVersion
    /\ getResourceVersion kubeApi (VStr "") st' = Some resourceVersion
    /\ exists message, fst (getMessage (VObj fields) st) = Normal message
                       /\ api message = Some kubeApi.
Proof.
  intros fields ofields mfields kubeApi st Ht Ho Ha Hm namespace resourceVersion st'.
  unfold st'. rewrite (getMessage_handled _ st Ht Ho Ha Hm). simpl snd. simpl fst.
  destruct (cursor_after_both kubeApi namespace resourceVersion st) as [H1 H2].
  split; [exact H1|]. split; [exact H2|]. eexists. split; reflexivity.
Qed.

Lemma getMessage_fst event st : fst (getMessage event st) = message_of event.
Proof.
  unfold message_of, getMessage.
  destruct (get_prop event "type") as [type|]; [|reflexivity].
  destruct (switch_on type); try reflexivity.
  match goal with
  | |- context [match ?x with _ => _ end] => destruct x as [[o [k|]]|]
  end; try reflexivity.
  match goal with
  | |- context [match ?x with _ => _ end] => destruct x as [[[o' n] r]|]
  end; reflexivity.
Qed.

Lemma getMessage_frame event st :
  onMessage (snd (getMessage event st)) = onMessage st
  /\ logged (snd (getMessage event st)) = logged st
  /\ subscribers (snd (getMessage event st)) = subscribers st.
Proof.
  unfold getMessage.
  destruct (get_prop event "type") as [type|]; [|repeat split; reflexivity].
  destruct (switch_on type); try (repeat split; reflexivity).
  - match goal with
    | |- context [match ?x with _ => _ end] => destruct x as [[o [k|]]|]
    end; try (repeat split; reflexivity).
    match goal with
    | |- context [match ?x with _ => _ end] => destruct x as [[[o' n] r]|]
    end; repeat split; reflexivity.
  - simpl. destruct (onServerStreamEnd_frame event st) as (H1 & H2 & H3 & _).
    repeat split; assumption.
Qed.

(** [well_shaped] tells when [getMessage] returns a message. *)
Lemma well_shaped_spec event :
  well_shaped event = match message_of event with Normal _ => true | Throw _ => false end.
Proof.
  unfold well_shaped, message_of, getMessage.
  destruct (is_nullish event) eqn:N.
  { destruct (@get_prop_nullish _ "type" N) as [reason ->]. reflexivity. }
  rewrite (@get_prop_field _ _ N). cbn [negb andb].
  destruct (switch_on (field event "type")); try reflexivity.
  rewrite (@get_prop_field _ _ N). cbn [bind].
  destruct (is_nullish (field event "object")) eqn:No.
  { destruct (@get_prop_nullish _ "kind" No) as [reason ->]. reflexivity. }
  rewrite !(@get_prop_field _ _ No). cbn [bind negb andb].
  destruct (getApiByKind (field (field event "object") "kind")
              (field (field event "object") "apiVersion")) as [kubeApi|]; [|reflexivity].
  pose proof (@ensure_outcome kubeApi (field event "object") No) as E.
  destruct (ensureObjectSelfLink kubeApi (field event "object")) as [object'|reason].
  - destruct E as (O & metadata' & Hm & Om). cbn [bind]. rewrite Hm. cbn [bind].
    rewrite !(@get_prop_field _ _ (@object_not_nullish _ Om)). cbn [bind fst].
    exact O.
  - cbn [bind fst]. exact E.
Qed.

Lemma decoded_accepted record :
  (accepted record = true ->
   exists message, decoded record = [message] /\ failure_of record = [])
  /\ (accepted record = false ->
      decoded record = [] /\ exists entry, failure_of record = [entry]).
Proof.
  unfold accepted, decoded, failure_of.
  destruct (JSON_parse record) as [event|].
  - rewrite well_shaped_spec. destruct (message_of event) as [m|e]; split;
      try discriminate; intros _.
    + exists m. split; reflexivity.
    + split; [reflexivity | eexists; reflexivity].
  - split; [discriminate|]. intros _. split; [reflexivity | eexists; reflexivity].
Qed.

Lemma decoded_count records :
  List.length (flat_map decoded records) = List.length (filter accepted records)
  /\ List.length (flat_map failure_of records)
     = List.length (filter (fun r => negb (accepted r)) records).
Proof.
  induction records as [|r rest [IH1 IH2]]; [split; reflexivity|].
  cbn [flat_map filter]. rewrite !length_app, IH1, IH2.
  destruct (decoded_accepted r) as [Ht Hf].
  destruct (accepted r) eqn:E; simpl negb; cbn iota.
  - destruct (Ht eq_refl) as [m [-> ->]]. split; reflexivity.
  - destruct (Hf eq_refl) as [-> [e ->]]. split; reflexivity.
Qed.

(** One record: its message is emitted and handed to every consumer, or
    its failure is logged. *)
Lemma handle_event_spec st record :
  let st' := handle_event st record in
  emitted (onMessage st') = emitted (onMessage st) ++ decoded record
  /\ delivered (onMessage st')
     = delivered (onMessage st) ++ fan_out (handlers (onMessage st)) (decoded record)
  /\ handlers (onMessage st') = handlers (onMessage st)
  /\ logged st' = logged st ++ failure_of record.
Proof.
  unfold handle_event, decoded, failure_of.
  destruct (JSON_parse record) as [event|].
  - rewrite <- (getMessage_fst event st).
    destruct (getMessage_frame event st) as (H1 & H2 & _).
    destruct (getMessage event st) as [[m|e] st1]; simpl in *.
    + rewrite H1, H2, !app_nil_r. repeat split; reflexivity.
    + rewrite log_onMessage, log_logged, H1, H2, !app_nil_r. repeat split; reflexivity.
  - simpl. rewrite log_onMessage, log_logged, !app_nil_r. repeat split; reflexivity.
Qed.

Lemma fan_out_app consumers l1 l2 :
  fan_out consumers (l1 ++ l2) = fan_out consumers l1 ++ fan_out consumers l2.
Proof. unfold fan_out. apply flat_map_app. Qed.

Lemma handle_events_spec records : forall st,
  let st' := fold_left handle_event records st in
  emitted (onMessage st') = emitted (onMessage st) ++ flat_map decoded records
  /\ delivered (onMessage st')
     = delivered (onMessage st)
       ++ fan_out (handlers (onMessage st)) (flat_map decoded records)
  /\ handlers (onMessage st') = handlers (onMessage st)
  /\ logged st' = logged st ++ flat_map failure_of records.
Proof.
  induction records as [|r rest IH]; intros st; cbn [fold_left flat_map].
  - rewrite !app_nil_r. repeat split; reflexivity.
  - destruct (IH (handle_event st r)) as (E1 & E2 & E3 & E4).
    destruct (handle_event_spec st r) as (F1 & F2 & F3 & F4).
    cbv zeta in *. rewrite E1, E2, E3, E4, F1, F2, F3, F4, fan_out_app, !app_assoc.
    repeat split; reflexivity.
Qed.

(** C4, as the code has it.  The records of a chunk are the lines of its
    trimmed text.  A message is emitted for every record that is valid
    JSON and well shaped, in the order of the records, and handed to
    every consumer; for every other record (malformed JSON, or JSON that
    is no well-shaped event) one failure is logged, and the records after
    it are processed all the same. *)
Theorem chunk_messages_and_failures :
  forall (chunk : list Byte.byte) (st : KubeWatchApi),
    let records := records_of chunk in
    let st' := handleStreamEvent chunk st in
    emitted (onMessage st') = emitted (onMessage st) ++ flat_map decoded records
    /\ delivered (onMessage st')
       = delivered (onMessage st)
         ++ fan_out (handlers (onMessage st)) (flat_map decoded records)
    /\ logged st' = logged st ++ flat_map failure_of records
    /\ List.length (flat_map decoded records) = List.length (filter accepted records)
    /\ List.length (flat_map failure_of records)
       = List.length (filter (fun r => negb (accepted r)) records)
    /\ forall record,
         (accepted record = true ->
          exists message, decoded record = [message] /\ failure_of record = [])
         /\ (accepted record = false ->
             decoded record = [] /\ exists entry, failure_of record = [entry]).
Proof.
  intros chunk st records st'.
  assert (H : emitted (onMessage st') = emitted (onMessage st) ++ flat_map decoded records
              /\ delivered (onMessage st')
                 = delivered (onMessage st)
                   ++ fan_out (handlers (onMessage st)) (flat_map decoded records)
              /\ handlers (onMessage st') = handlers (onMessage st)
              /\ logged st' = logged st ++ flat_map failure_of records).
  { unfold st', records, handleStreamEvent, records_of.
    destruct (String.eqb (TextDecoder_decode chunk) "").
    - simpl. rewrite !app_nil_r. repeat split; reflexivity.
    - apply handle_events_spec. }
  destruct H as (H1 & H2 & _ & H4). destruct (decoded_count records) as [C1 C2].
  split; [exact H1|]. split; [exact H2|]. split; [exact H4|].
  split; [exact C1|]. split; [exact C2|]. apply decoded_accepted.
Qed.

Lemma switch_on_unknown type :
  (forall tag, In tag known_tags -> type <> VStr tag) -> switch_on type = NoCase.
Proof.
  intros H. destruct type as [| |b|n|s|l p|f]; try reflexivity.
  unfold switch_on.
  destruct (String.eqb_spec s "ADDED") as [->|_];
    [exfalso; apply (H "ADDED"); simpl; tauto|].
  destruct (String.eqb_spec s "DELETED") as [->|_];
    [exfalso; apply (H "DELETED"); simpl; tauto|].
  destruct (String.eqb_spec s "MODIFIED") as [->|_];
    [exfalso; apply (H "MODIFIED"); simpl; tauto|].
  destruct (String.eqb_spec s "ERROR") as [->|_];
    [exfalso; apply (H "ERROR"); simpl; tauto|].
  destruct (String.eqb_spec s "STREAM_END") as [->|_];
    [exfalso; apply (H "STREAM_END"); simpl; tauto|].
  reflexivity.
Qed.

(** What [handle_event] does with a record for which [getMessage]
    returns a message. *)
Lemma handle_event_emits st record event message :
  JSON_parse record = Some event ->
  fst (getMessage event st) = Normal message ->
  let st' := handle_event st record in
  emitted (onMessage st') = emitted (onMessage st) ++ [message]
  /\ delivered (onMessage st')
     = delivered (onMessage st)
       ++ map (fun consumer => (consumer, message)) (handlers (onMessage st))
  /\ logged st' = logged st.
Proof.
  intros Hp Hm. destruct (handle_event_spec st record) as (F1 & F2 & _ & F4).
  cbv zeta in *. unfold decoded, failure_of in *.
  rewrite Hp, <- (getMessage_fst event st), Hm in *. simpl in F2.
  rewrite !app_nil_r in *. repeat split; assumption.
Qed.

(** C7.  A data event whose object resolves to no registered handler
    yields a message that carries the event and no handler or store; the
    message is emitted and handed to every consumer, and nothing is
    logged. *)
Theorem unhandled_data_event_is_emitted :
  forall (event type object k v : Value) (st : KubeWatchApi) (record : string),
    get_prop event "type" = Normal type ->
    switch_on type = CaseData ->
    get_prop event "object" = Normal object ->
    get_prop object "kind" = Normal k ->
    get_prop object "apiVersion" = Normal v ->
    getApiByKind k v = None ->
    let message := {| data := Some event; error := None; api := None; store := None |} in
    getMessage event st = (Normal message, st)
    /\ (JSON_parse record = Some event ->
        let st' := handle_event st record in
        emitted (onMessage st') = emitted (onMessage st) ++ [message]
        /\ delivered (onMessage st')
           = delivered (onMessage st)
             ++ map (fun consumer => (consumer, message)) (handlers (onMessage st))
        /\ logged st' = logged st).
Proof.
  intros event type object k v st record Ht Hs Ho Hk Hv Ha message.
  assert (G : getMessage event st = (Normal message, st)).
  { unfold getMessage. rewrite Ht, Hs, Ho. cbn [bind]. rewrite Hk. cbn [bind].
    rewrite Hv. cbn [bind]. rewrite Ha. reflexivity. }
  split; [exact G|]. intros Hp.
  apply (@handle_event_emits st record event message Hp). rewrite G. reflexivity.
Qed.

(** C9.  For a record whose type is [STREAM_END], or none of the five
    known tags, [getMessage] returns the empty message, and the empty
    message is emitted and handed to every consumer. *)
Theorem empty_message_is_emitted :
  forall (event type : Value) (st : KubeWatchApi) (record : string),
    get_prop event "type" = Normal type ->
    (type = VStr "STREAM_END" \/ forall tag, In tag known_tags -> type <> VStr tag) ->
    fst (getMessage event st) = Normal empty_message
    /\ (JSON_parse record = Some event ->
        let st' := handle_event st record in
        emitted (onMessage st') = emitted (onMessage st) ++ [empty_message]
        /\ delivered (onMessage st')
           = delivered (onMessage st)
             ++ map (fun consumer => (consumer, empty_message)) (handlers (onMessage st))
        /\ logged st' = logged st).
Proof.
  intros event type st record Ht Hcase.
  assert (G : fst (getMessage event st) = Normal empty_message).
  { unfold getMessage. rewrite Ht. destruct Hcase as [->|Hu].
    - reflexivity.
    - rewrite (@switch_on_unknown type Hu). reflexivity. }
  split; [exact G|]. intros Hp. apply (@handle_event_emits st record event empty_message Hp G).
Qed.

Lemma flat_targets cluster namespaceStore st apis :
  flat
    (map
       (fun api =>
          if negb (isAllowedResource cluster (kind api)) then Urls []
          else if isNamespaced api then
            Urls (map (fun namespace => getWatchUrl api (Some namespace) (resourceVersions st))
                    (getContextNamespaces namespaceStore))
          else Url (getWatchUrl api None (resourceVersions st)))
       apis)
  = flat_map (watch_targets cluster namespaceStore st) apis.
Proof.
  unfold flat. induction apis as [|a r IH]; [reflexivity|].
  cbn [map flat_map]. rewrite IH. f_equal. unfold watch_targets.
  destruct (isAllowedResource cluster (kind a)); [|reflexivity].
  destruct (isNamespaced a); reflexivity.
Qed.

(** C5.  The request payload lists, API by API in the order of the active
    set, the watch targets of each active API: none for an API that the
    user may not watch, one URL per permitted namespace for a namespaced
    API, and one URL otherwise. *)
Theorem request_payload_targets :
  forall (cluster : Cluster) (namespaceStore : NamespaceStore) (st : KubeWatchApi),
    getRequestPayload cluster namespaceStore st
    = flat_map (watch_targets cluster namespaceStore st) (activeApis (subscribers st))
    /\ forall api,
         watch_targets cluster namespaceStore st api
         = (if isAllowedResource cluster (kind api) then
              if isNamespaced api then
                map (fun namespace =>
                       getWatchUrl api (Some namespace) (resourceVersions st))
                  (getContextNamespaces namespaceStore)
              else [getWatchUrl api None (resourceVersions st)]
            else [])
         /\ List.length (watch_targets cluster namespaceStore st api)
            = (if isAllowedResource cluster (kind api) then
                 if isNamespaced api
                 then List.length (getContextNamespaces namespaceStore)
                 else 1%nat
               else 0%nat).
Proof.
  intros cluster namespaceStore st. split; [apply flat_targets|].
  intros api. split; [reflexivity|]. unfold watch_targets.
  destruct (isAllowedResource cluster (kind api)); [|reflexivity].
  destruct (isNamespaced api); [apply length_map | reflexivity].
Qed.

(** *** Connection attempts *)

Lemma disconnect_frame st :
  stream (disconnect st) = None
  /\ subscribers (disconnect st) = subscribers st
  /\ resourceVersions (disconnect st) = resourceVersions st
  /\ onMessage (disconnect st) = onMessage st
  /\ logged (disconnect st) = logged st
  /\ pending (disconnect st) = pending st
  /\ reconnectTimeoutMs (disconnect st) = reconnectTimeoutMs st
  /\ maxReconnectsOnError (disconnect st) = maxReconnectsOnError st.
Proof.
  unfold disconnect. destruct (stream st) eqn:E; repeat split; try reflexivity.
  exact E.
Qed.

Lemma set_pending_back st queue : set_pending (pending st) (set_pending queue st) = st.
Proof. destruct st. reflexivity. Qed.

Lemma step_last queue task s st :
  pending st = queue ++ [task] -> fits task s = true ->
  step (List.length queue) s st = resume task s (set_pending queue st).
Proof.
  intros Hp Hf. unfold step. rewrite Hp, nth_error_last, Hf, remove_nth_last.
  reflexivity.
Qed.

Lemma connect_attempt_eq cluster namespaceStore outcome st :
  connect_attempt cluster namespaceStore outcome st
  = connect_resume cluster namespaceStore outcome (disconnect st).
Proof.
  unfold connect_attempt, connect, schedule.
  destruct (disconnect_frame st) as (_ & _ & _ & _ & _ & Hp & _).
  rewrite <- Hp.
  rewrite (@step_last (pending (disconnect st)) ConnectAwaitsPayload
             (PayloadReady cluster namespaceStore outcome)) by reflexivity.
  cbn [resume]. f_equal. destruct (disconnect st). reflexivity.
Qed.

Lemma payload_ext cluster namespaceStore st1 st2 :
  subscribers st1 = subscribers st2 -> resourceVersions st1 = resourceVersions st2 ->
  getRequestPayload cluster namespaceStore st1 = getRequestPayload cluster namespaceStore st2.
Proof. unfold getRequestPayload. intros -> ->. reflexivity. Qed.

(** One attempt whose request is rejected. *)
Lemma rejected_attempt cluster namespaceStore reason st :
  let st' := connect_attempt cluster namespaceStore (Rejected reason) st in
  stream st' = None
  /\ subscribers st' = subscribers st
  /\ resourceVersions st' = resourceVersions st
  /\ onMessage st' = onMessage st
  /\ logged st'
     = logged st ++ attempt_log (getRequestPayload cluster namespaceStore st) reason
  /\ pending st' = pending st
  /\ reconnectTimeoutMs st' = reconnectTimeoutMs st
  /\ maxReconnectsOnError st' = maxReconnectsOnError st.
Proof.
  cbv zeta. rewrite connect_attempt_eq.
  destruct (disconnect_frame st) as (D1 & D2 & D3 & D4 & D5 & D6 & D7 & D8).
  unfold connect_resume. rewrite (@payload_ext cluster namespaceStore _ _ D2 D3).
  destruct (getRequestPayload cluster namespaceStore st) as [|u us]; cbn [attempt_log].
  - rewrite app_nil_r. repeat split; assumption.
  - rewrite !log_stream, !log_subscribers, !log_resourceVersions, !log_onMessage,
      !log_logged, !log_pending.
    destruct (log_settings {| message := Error "connection error"; meta := MetaError reason |}
                (log {| message := Text "connecting"; meta := MetaPayload (u :: us) |}
                   (disconnect st))) as [S1 S2].
    destruct (log_settings {| message := Text "connecting"; meta := MetaPayload (u :: us) |}
                (disconnect st)) as [S3 S4].
    rewrite S1, S2, S3, S4, D5, <- app_assoc. repeat split; assumption.
Qed.

(** C1, as the code has it.  However many consecutive connection attempts
    are rejected, each of them is caught inside [connect]: it leaves the
    client without a stream and writes [connecting] and [connection error]
    to the log (nothing when the payload is empty); nothing is emitted to
    the consumers, the subscriptions stay as they are, and the settings
    [reconnectTimeoutMs] and [maxReconnectsOnError], 5000 and 10 in a new
    client, are not touched. *)
Theorem rejected_attempts_are_logged :
  forall (cluster : Cluster) (namespaceStore : NamespaceStore)
         (reasons : list string) (st : KubeWatchApi),
    let st' := failed_attempts cluster namespaceStore reasons st in
    onMessage st' = onMessage st
    /\ subscribers st' = subscribers st
    /\ stream st' = match reasons with [] => stream st | _ :: _ => None end
    /\ logged st'
       = logged st
         ++ flat_map (attempt_log (getRequestPayload cluster namespaceStore st)) reasons
    /\ reconnectTimeoutMs st' = reconnectTimeoutMs st
    /\ maxReconnectsOnError st' = maxReconnectsOnError st
    /\ reconnectTimeoutMs new_KubeWatchApi = 5000
    /\ maxReconnectsOnError new_KubeWatchApi = 10.
Proof.
  intros cluster namespaceStore reasons st st'.
  assert (H : onMessage st' = onMessage st
              /\ subscribers st' = subscribers st
              /\ resourceVersions st' = resourceVersions st
              /\ stream st' = match reasons with [] => stream st | _ :: _ => None end
              /\ logged st'
                 = logged st
                   ++ flat_map (attempt_log (getRequestPayload cluster namespaceStore st))
                        reasons
              /\ reconnectTimeoutMs st' = reconnectTimeoutMs st
              /\ maxReconnectsOnError st' = maxReconnectsOnError st).
  { unfold st', failed_attempts. clear st'. revert st.
    induction reasons as [|r rest IH]; intros st; cbn [fold_left flat_map].
    - rewrite app_nil_r. repeat split; reflexivity.
    - destruct (rejected_attempt cluster namespaceStore r st)
        as (A1 & A2 & A3 & A4 & A5 & _ & A7 & A8).
      cbv zeta in *.
      destruct (IH (connect_attempt cluster namespaceStore (Rejected r) st))
        as (B1 & B2 & B3 & B4 & B5 & B6 & B7).
      rewrite B1, B2, B3, B4, B5, B6, B7.
      rewrite (@payload_ext cluster namespaceStore _ _ A2 A3).
      rewrite A2, A3, A4, A5, A7, A8, <- app_assoc.
      repeat split; try reflexivity.
      destruct rest; [exact A1 | reflexivity]. }
  destruct H as (H1 & H2 & _ & H4 & H5 & H6 & H7).
  repeat split; assumption.
Qed.

(** The status of a response is not looked at: whatever it is, the body
    is streamed. *)
Lemma response_status_is_not_checked cluster namespaceStore status r st :
  getRequestPayload cluster namespaceStore st <> [] ->
  stream (connect_attempt cluster namespaceStore
            (Resolved {| status := status; body := Some r |}) st)
  = Some {| reader := r |}.
Proof.
  intros N. rewrite connect_attempt_eq.
  destruct (disconnect_frame st) as (_ & D2 & D3 & _).
  unfold connect_resume. rewrite (@payload_ext cluster namespaceStore _ _ D2 D3).
  destruct (getRequestPayload cluster namespaceStore st); [contradiction | reflexivity].
Qed.

(** *** The end of a stream *)

(** C10.  When the URL of a [STREAM_END] event resolves to no registered
    API (or cannot be parsed), [onServerStreamEnd] leaves the client as it
    is: no refresh is requested, no connection is opened or closed, and
    no timer is set; the empty message of the event is all that
    [getMessage] produces. *)
Theorem unresolved_stream_end_is_ignored :
  forall (event : Value) (st : KubeWatchApi),
    (forall url apiBase namespace,
        get_prop event "url" = Normal url ->
        parseApi url = Some (apiBase, namespace) ->
        getApi apiBase = None) ->
    onServerStreamEnd event st = st
    /\ (get_prop event "type" = Normal (VStr "STREAM_END") ->
        getMessage event st = (Normal empty_message, st)).
Proof.
  intros event st H.
  assert (E : onServerStreamEnd event st = st).
  { unfold onServerStreamEnd, stream_end_target.
    destruct (get_prop event "url") as [url|]; cbn [bind]; [|reflexivity].
    destruct (parseApi url) as [[apiBase namespace]|] eqn:Hp; [|reflexivity].
    rewrite (H url apiBase namespace eq_refl Hp). reflexivity. }
  split; [exact E|]. intros Ht. unfold getMessage. rewrite Ht. simpl switch_on.
  cbv iota. rewrite E. reflexivity.
Qed.

Lemma refresh_failure_step event kubeApi namespace queue reason st :
  pending st = queue ++ [StreamEndAwaitsRefresh event kubeApi namespace] ->
  0 < JsMap.size (subscribers st) ->
  let st' := step (List.length queue) (RefreshSettled (RefreshFailed reason)) st in
  pending st' = queue ++ [Timer 1000 event]
  /\ subscribers st' = subscribers st
  /\ logged st'
     = logged st ++ [{| message := Error "failed to reconnect on stream end";
                        meta := MetaStreamEnd reason event |}].
Proof.
  intros Hp Hs. cbv zeta.
  rewrite (@step_last queue (StreamEndAwaitsRefresh event kubeApi namespace)
             (RefreshSettled (RefreshFailed reason)) st Hp eq_refl).
  cbn [resume onServerStreamEnd_resume]. rewrite log_subscribers.
  cbn [subscribers set_pending].
  destruct (Z.gtb_spec (JsMap.size (subscribers st)) 0) as [_|L]; [|lia].
  unfold schedule. cbn [pending subscribers logged set_pending].
  rewrite log_pending, log_subscribers, log_logged. repeat split; reflexivity.
Qed.

Lemma timer_step event kubeApi namespace queue ms st :
  stream_end_target event = Normal (Some (kubeApi, namespace)) ->
  pending st = queue ++ [Timer ms event] ->
  let st' := step (List.length queue) TimerFired st in
  pending st' = queue ++ [StreamEndAwaitsRefresh event kubeApi namespace]
  /\ subscribers st' = subscribers st
  /\ logged st' = logged st.
Proof.
  intros Ht Hp. cbv zeta.
  rewrite (@step_last queue (Timer ms event) TimerFired st Hp eq_refl).
  cbn [resume]. unfold onServerStreamEnd. rewrite Ht. repeat split; reflexivity.
Qed.

(** Without a subscriber left, a failed refresh sets no timer. *)
Lemma refresh_failure_without_subscribers event kubeApi namespace reason st :
  JsMap.size (subscribers st) = 0 ->
  pending (onServerStreamEnd_resume event kubeApi namespace (RefreshFailed reason) st)
  = pending st.
Proof.
  intros Hs. cbn [onServerStreamEnd_resume]. rewrite log_subscribers, Hs.
  cbn. apply log_pending.
Qed.

(** C8.  While the registry has a subscriber, a failed refresh after a
    stream end sets a timer of 1000 ms that runs the handling of the
    stream end again, which requests the refresh again; this repeats
    for as many failures as there are, without any cap. *)
Theorem stream_end_refresh_is_retried :
  forall (event : Value) (kubeApi : KubeApi) (namespace : Value)
         (queue : list Task) (reasons : list string) (st : KubeWatchApi),
    stream_end_target event = Normal (Some (kubeApi, namespace)) ->
    pending st = queue ++ [StreamEndAwaitsRefresh event kubeApi namespace] ->
    0 < JsMap.size (subscribers st) ->
    let i := List.length queue in
    let st' := fold_left (refresh_fails_again i) reasons st in
    pending st' = queue ++ [StreamEndAwaitsRefresh event kubeApi namespace]
    /\ subscribers st' = subscribers st
    /\ List.length (logged st') = (List.length (logged st) + List.length reasons)%nat
    /\ forall reason,
         let failed := step i (RefreshSettled (RefreshFailed reason)) st' in
         pending failed = queue ++ [Timer 1000 event]
         /\ pending (step i TimerFired failed)
            = queue ++ [StreamEndAwaitsRefresh event kubeApi namespace].
Proof.
  intros event kubeApi namespace queue reasons st Ht Hp Hs i st'.
  assert (R : forall s reason,
             pending s = queue ++ [StreamEndAwaitsRefresh event kubeApi namespace] ->
             0 < JsMap.size (subscribers s) ->
             let failed := step i (RefreshSettled (RefreshFailed reason)) s in
             pending failed = queue ++ [Timer 1000 event]
             /\ pending (step i TimerFired failed)
                = queue ++ [StreamEndAwaitsRefresh event kubeApi namespace]
             /\ subscribers (step i TimerFired failed) = subscribers s
             /\ List.length (logged (step i TimerFired failed))
                = S (List.length (logged s))).
  { intros s reason Hps Hss. cbv zeta.
    destruct (@refresh_failure_step event kubeApi namespace queue reason s Hps Hss)
      as (F1 & F2 & F3).
    destruct (@timer_step event kubeApi namespace queue 1000 _ Ht F1) as (T1 & T2 & T3).
    cbv zeta in *. fold i in F1, F2, F3, T1, T2, T3.
    rewrite T2, T3, F3, length_app, Nat.add_1_r. repeat split; assumption. }
  assert (I : pending st' = queue ++ [StreamEndAwaitsRefresh event kubeApi namespace]
              /\ subscribers st' = subscribers st
              /\ List.length (logged st')
                 = (List.length (logged st) + List.length reasons)%nat).
  { unfold st'. clear st'. revert st Hp Hs.
    induction reasons as [|r rest IH]; intros st Hp Hs; cbn [fold_left].
    - rewrite Nat.add_0_r. repeat split; try reflexivity; exact Hp.
    - destruct (R st r Hp Hs) as (_ & R2 & R3 & R4). cbv zeta in *.
      change (refresh_fails_again i st r)
        with (step i TimerFired (step i (RefreshSettled (RefreshFailed r)) st)).
      destruct (IH (step i TimerFired (step i (RefreshSettled (RefreshFailed r)) st)))
        as (I1 & I2 & I3); [exact R2 | rewrite R3; exact Hs |].
      rewrite I1, I2, I3, R3, R4. cbn [List.length]. repeat split; lia. }
  destruct I as (I1 & I2 & I3).
  split; [exact I1|]. split; [exact I2|]. split; [exact I3|].
  intros reason. destruct (R st' reason I1) as (R1 & R2 & _).
  - rewrite I2. exact Hs.
  - split; assumption.
Qed.

End ClientFacts.

(** ** Examples on the small cluster *)

(** The scenario of the spec: an added pod and the end of the pods
    stream in one chunk.  One data message and one empty message are
    emitted, both cursors of the pods API are at the resource version of
    the pod, and the refresh of the ended stream is awaited. *)
Example added_then_stream_end :
  let chunk :=
    Demo.chunk_of
      "{'type':'ADDED','object':{'kind':'Pod','apiVersion':'v1','metadata':{'name':'a','namespace':'default','resourceVersion':'10'}}}
{'type':'STREAM_END','url':'/api/v1/namespaces/default/pods?watch=1&resourceVersion=10'}
" in
  let st := @handleStreamEvent Demo.collaborators chunk Demo.watching in
  map api (emitted (onMessage st)) = [Some Demo.podsApi; None]
  /\ getResourceVersion Demo.podsApi (VStr "default") st = Some (VStr "10")
  /\ getResourceVersion Demo.podsApi (VStr "") st = Some (VStr "10")
  /\ logged st = []
  /\ exists event,
       pending st = [StreamEndAwaitsRefresh event Demo.podsApi (VStr "default")].
Proof.
  vm_compute. repeat split. eexists. reflexivity.
Qed.

(** Seven records of which four yield a message: an event without
    object, [null] and a truncated record are logged. *)
Example mixed_chunk :
  let chunk :=
    Demo.chunk_of
      "{'type':'ADDED'}
null
{bad
{'type':'ERROR','object':{'code':410}}
{'type':'BOOKMARK'}
5
{'type':'MODIFIED','object':{'kind':'ConfigMap','apiVersion':'v1'}}" in
  let st := @handleStreamEvent Demo.collaborators chunk Demo.watching in
  List.length (@records_of Demo.collaborators chunk) = 7%nat
  /\ List.length (emitted (onMessage st)) = 4%nat
  /\ List.length (logged st) = 3%nat.
Proof.
  vm_compute. repeat split.
Qed.

(** Metadata that are an array take the self link: the record yields a
    message with its handler and nothing is logged.  Metadata that are a
    number cannot take it: the record is logged as a failure. *)
Example metadata_of_other_kinds :
  let listed :=
    quoted "{'type':'MODIFIED','object':{'kind':'Pod','apiVersion':'v1','metadata':[]}}" in
  let numbered :=
    quoted "{'type':'MODIFIED','object':{'kind':'Pod','apiVersion':'v1','metadata':5}}" in
  let st := @handle_event Demo.collaborators Demo.watching listed in
  let st' := @handle_event Demo.collaborators Demo.watching numbered in
  @accepted Demo.collaborators listed = true
  /\ emitted (onMessage st)
     = [{| data :=
             Some (VObj [("type", VStr "MODIFIED");
                         ("object",
                          VObj [("kind", VStr "Pod"); ("apiVersion", VStr "v1");
                                ("metadata",
                                 VArr [] [("selfLink", VStr "/api/v1/pods")])])]);
           error := None;
           api := Some Demo.podsApi;
           store := @getStore Demo.collaborators Demo.podsApi |}]
  /\ logged st = []
  /\ getResourceVersion Demo.podsApi (VStr "") st = Some VUndefined
  /\ @accepted Demo.collaborators numbered = false
  /\ emitted (onMessage st') = []
  /\ List.length (logged st') = 1%nat.
Proof.
  vm_compute. repeat split.
Qed.

(** The payload of a client that subscribed to pods, secrets and nodes:
    two namespaces for the pods, nothing for the secrets, one URL for the
    nodes. *)
Example payload_of_three_apis :
  @getRequestPayload Demo.collaborators Demo.cluster Demo.namespaceStore
    (set_subscribers
       (fst (subscribe [Demo.podsApi; Demo.secretsApi; Demo.nodesApi] JsMap.empty))
       new_KubeWatchApi)
  = ["/api/v1/namespaces/default/pods?watch=1&resourceVersion=";
     "/api/v1/namespaces/kube-system/pods?watch=1&resourceVersion=";
     "/api/v1/nodes?watch=1&resourceVersion="].
Proof.
  vm_compute. reflexivity.
Qed.

(** ** Witnesses and counterexamples *)

(** C3 at the example of the spec: a [MODIFIED] pod of namespace
    [default] at resource version 105. *)
Lemma data_event_sets_both_cursors_witness :
  switch_on (lookup_field Demo.pod_modified "type") = CaseData
  /\ lookup_field Demo.pod_modified "object" = VObj Demo.pod_object
  /\ @getApiByKind Demo.collaborators
       (lookup_field Demo.pod_object "kind") (lookup_field Demo.pod_object "apiVersion")
     = Some Demo.podsApi
  /\ lookup_field Demo.pod_object "metadata" = VObj Demo.pod_metadata
  /\ getResourceVersion Demo.podsApi (VStr "default")
       (snd (@getMessage Demo.collaborators (VObj Demo.pod_modified) Demo.watching))
     = Some (VStr "105")
  /\ getResourceVersion Demo.podsApi (VStr "")
       (snd (@getMessage Demo.collaborators (VObj Demo.pod_modified) Demo.watching))
     = Some (VStr "105").
Proof.
  split; [reflexivity|]. split; [reflexivity|]. split; [reflexivity|].
  split; [reflexivity|].
  destruct (@data_event_sets_both_cursors Demo.collaborators
              Demo.pod_modified Demo.pod_object Demo.pod_metadata Demo.podsApi
              Demo.watching eq_refl eq_refl eq_refl eq_refl) as (H1 & H2 & _).
  split; [exact H1 | exact H2].
Defined.

(** C7 at a modified config map, for which no API is registered. *)
Lemma unhandled_data_event_is_emitted_witness :
  get_prop Demo.configmap_modified "type" = Normal (VStr "MODIFIED")
  /\ switch_on (VStr "MODIFIED") = CaseData
  /\ get_prop Demo.configmap_modified "object" = Normal Demo.configmap_object
  /\ get_prop Demo.configmap_object "kind" = Normal (VStr "ConfigMap")
  /\ get_prop Demo.configmap_object "apiVersion" = Normal (VStr "v1")
  /\ @getApiByKind Demo.collaborators (VStr "ConfigMap") (VStr "v1") = None
  /\ @JSON_parse Demo.collaborators Demo.configmap_text = Some Demo.configmap_modified
  /\ emitted (onMessage (@handle_event Demo.collaborators Demo.watching Demo.configmap_text))
     = [{| data := Some Demo.configmap_modified; error := None;
           api := None; store := None |}]
  /\ delivered (onMessage (@handle_event Demo.collaborators Demo.watching Demo.configmap_text))
     = [(7%nat, {| data := Some Demo.configmap_modified; error := None;
                   api := None; store := None |})].
Proof.
  split; [reflexivity|]. split; [reflexivity|]. split; [reflexivity|].
  split; [reflexivity|]. split; [reflexivity|]. split; [reflexivity|].
  split; [vm_compute; reflexivity|].
  destruct (@unhandled_data_event_is_emitted Demo.collaborators
              Demo.configmap_modified (VStr "MODIFIED") Demo.configmap_object
              (VStr "ConfigMap") (VStr "v1") Demo.watching Demo.configmap_text
              eq_refl eq_refl eq_refl eq_refl eq_refl eq_refl) as [_ H].
  assert (P : @JSON_parse Demo.collaborators Demo.configmap_text
              = Some Demo.configmap_modified) by (vm_compute; reflexivity).
  destruct (H P) as (H1 & H2 & _). split; [exact H1 | exact H2].
Defined.

(** C9 at a bookmark, a tag that is none of the five. *)
Lemma empty_message_is_emitted_witness :
  get_prop Demo.bookmark "type" = Normal (VStr "BOOKMARK")
  /\ (forall tag, In tag known_tags -> VStr "BOOKMARK" <> VStr tag)
  /\ @JSON_parse Demo.collaborators Demo.bookmark_text = Some Demo.bookmark
  /\ fst (@getMessage Demo.collaborators Demo.bookmark Demo.watching) = Normal empty_message
  /\ delivered (onMessage (@handle_event Demo.collaborators Demo.watching Demo.bookmark_text))
     = [(7%nat, empty_message)].
Proof.
  assert (U : forall tag, In tag known_tags -> VStr "BOOKMARK" <> VStr tag).
  { intros tag [<-|[<-|[<-|[<-|[<-|[]]]]]]; discriminate. }
  assert (P : @JSON_parse Demo.collaborators Demo.bookmark_text = Some Demo.bookmark)
    by (vm_compute; reflexivity).
  split; [reflexivity|]. split; [exact U|]. split; [exact P|].
  destruct (@empty_message_is_emitted Demo.collaborators Demo.bookmark
              (VStr "BOOKMARK") Demo.watching Demo.bookmark_text eq_refl (or_intror U))
    as [G H].
  split; [exact G|]. destruct (H P) as (_ & H2 & _). exact H2.
Defined.

(** C8 at three failures in a row of the refresh of the pods stream. *)
Lemma stream_end_refresh_is_retried_witness :
  @stream_end_target Demo.collaborators Demo.pods_ended
  = Normal (Some (Demo.podsApi, VStr "default"))
  /\ pending Demo.refreshing
     = [ConnectAwaitsPayload]
       ++ [StreamEndAwaitsRefresh Demo.pods_ended Demo.podsApi (VStr "default")]
  /\ 0 < JsMap.size (subscribers Demo.refreshing)
  /\ pending (fold_left (@refresh_fails_again Demo.collaborators 1)
                ["timeout"; "timeout"; "unavailable"] Demo.refreshing)
     = [ConnectAwaitsPayload]
       ++ [StreamEndAwaitsRefresh Demo.pods_ended Demo.podsApi (VStr "default")]
  /\ pending (@step Demo.collaborators 1 (RefreshSettled (RefreshFailed "timeout"))
                (fold_left (@refresh_fails_again Demo.collaborators 1)
                   ["timeout"; "timeout"; "unavailable"] Demo.refreshing))
     = [ConnectAwaitsPayload] ++ [Timer 1000 Demo.pods_ended].
Proof.
  assert (T : @stream_end_target Demo.collaborators Demo.pods_ended
              = Normal (Some (Demo.podsApi, VStr "default")))
    by (vm_compute; reflexivity).
  assert (S : 0 < JsMap.size (subscribers Demo.refreshing)) by reflexivity.
  split; [exact T|]. split; [reflexivity|]. split; [exact S|].
  destruct (@stream_end_refresh_is_retried Demo.collaborators Demo.pods_ended
              Demo.podsApi (VStr "default") [ConnectAwaitsPayload]
              ["timeout"; "timeout"; "unavailable"] Demo.refreshing T eq_refl S)
    as (H1 & _ & _ & H4).
  split; [exact H1|]. exact (proj1 (H4 "timeout")).
Defined.

(** C10 at the end of the stream of a resource that is not registered. *)
Lemma unresolved_stream_end_is_ignored_witness :
  (forall url apiBase namespace,
      get_prop Demo.widgets_ended "url" = Normal url ->
      @parseApi Demo.collaborators url = Some (apiBase, namespace) ->
      @getApi Demo.collaborators apiBase = None)
  /\ @onServerStreamEnd Demo.collaborators Demo.widgets_ended Demo.watching = Demo.watching
  /\ @getMessage Demo.collaborators Demo.widgets_ended Demo.watching
     = (Normal empty_message, Demo.watching).
Proof.
  assert (U : forall url apiBase namespace,
             get_prop Demo.widgets_ended "url" = Normal url ->
             @parseApi Demo.collaborators url = Some (apiBase, namespace) ->
             @getApi Demo.collaborators apiBase = None).
  { intros url apiBase namespace Hu Hp. vm_compute in Hu. injection Hu as <-.
    vm_compute in Hp. injection Hp as <- _. reflexivity. }
  split; [exact U|].
  destruct (@unresolved_stream_end_is_ignored Demo.collaborators Demo.widgets_ended
              Demo.watching U) as [H1 H2].
  split; [exact H1 | exact (H2 eq_refl)].
Defined.

(** C1 fails as stated: eleven connection attempts in a row are refused.
    After the first one no task is pending, so that nothing will run
    again by itself; after the eleventh the consumer that is attached has
    still been handed nothing, and all that happened is two log entries
    per attempt. *)
Lemma refused_connections_counterexample :
  let attempt :=
    @connect_attempt Demo.collaborators Demo.cluster Demo.namespaceStore
      (Rejected "ECONNREFUSED") in
  let st' :=
    @failed_attempts Demo.collaborators Demo.cluster Demo.namespaceStore
      (repeat "ECONNREFUSED" 11) Demo.watching in
  handlers (onMessage Demo.watching) = [7%nat]
  /\ pending (attempt Demo.watching) = []
  /\ pending st' = []
  /\ emitted (onMessage st') = []
  /\ delivered (onMessage st') = []
  /\ stream st' = None
  /\ List.length (logged st') = 22%nat.
Proof.
  vm_compute. repeat split.
Qed.

(** C4 fails as stated: the chunk holds one record, which is valid JSON
    and has the shape of the wire format (the object is optional there);
    no message is emitted for it and one failure is logged. *)
Lemma valid_record_without_message_counterexample :
  let chunk := Demo.chunk_of "{'type':'ADDED'}" in
  let st' := @handleStreamEvent Demo.collaborators chunk Demo.watching in
  @records_of Demo.collaborators chunk = [quoted "{'type':'ADDED'}"]
  /\ @JSON_parse Demo.collaborators (quoted "{'type':'ADDED'}")
     = Some (VObj [("type", VStr "ADDED")])
  /\ emitted (onMessage st') = []
  /\ List.length (logged st') = 1%nat.
Proof.
  vm_compute. repeat split.
Qed.

(* ================================================================== *)
(** * Part III: further properties of the watch client *)
(* ================================================================== *)

Lemma keys_set_existing {K V : Type} (eqb : K -> K -> bool) (m : @JsMap.t K V) k v :
  (forall x y, eqb x y = true <-> x = y) ->
  In k (JsMap.keys m) -> JsMap.keys (JsMap.set eqb m k v) = JsMap.keys m.
Proof.
  intros Heq. induction m as [|[k' v'] r IH]; simpl; [contradiction|].
  intros H. destruct (eqb k k') eqn:E; simpl; [reflexivity|].
  f_equal. apply IH. destruct H as [H|H]; [|exact H].
  subst k'. rewrite (proj2 (Heq k k) eq_refl) in E. discriminate.
Qed.

Lemma trim_start_spaces fuel s :
  Forall (fun c => In c ascii_space) s -> (List.length s <= fuel)%nat ->
  trim_start_from white_space fuel s = [].
Proof.
  revert s. induction fuel as [|fuel IH]; intros s Hs Hl.
  - destruct s; [reflexivity | simpl in Hl; lia].
  - destruct s as [|c s]; [reflexivity|].
    inversion Hs as [|? ? Hc Hr]; subst.
    assert (E : strip_any white_space (c :: s) = Some s).
    { destruct Hc as [<-|[<-|[<-|[<-|[<-|[<-|[]]]]]]]; reflexivity. }
    cbn [trim_start_from]. rewrite E. apply IH; [exact Hr | simpl in Hl; lia].
Qed.

(** A text of one-byte white space trims to the empty string. *)
Lemma trim_spaces text :
  Forall (fun c => In c ascii_space) (list_ascii_of_string text) -> trim text = "".
Proof.
  intros H. unfold trim, trim_start, trim_end.
  rewrite (trim_start_spaces H) by lia. reflexivity.
Qed.

Section MoreClientFacts.
Context {collaborators : Collaborators}.

Lemma log_console e st :
  console (log e st) = console st ++ (if isProduction then [] else [e]).
Proof. unfold log. destruct isProduction; simpl; [rewrite app_nil_r|]; reflexivity. Qed.

Lemma log_cancelled e st : cancelled (log e st) = cancelled st.
Proof. unfold log. destruct isProduction; reflexivity. Qed.

Lemma getMessage_keeps event st :
  stream (snd (getMessage event st)) = stream st
  /\ cancelled (snd (getMessage event st)) = cancelled st
  /\ console (snd (getMessage event st)) = console st
  /\ reconnectTimeoutMs (snd (getMessage event st)) = reconnectTimeoutMs st
  /\ maxReconnectsOnError (snd (getMessage event st)) = maxReconnectsOnError st.
Proof.
  unfold getMessage.
  destruct (get_prop event "type") as [type|]; [|repeat split; reflexivity].
  destruct (switch_on type); try (repeat split; reflexivity).
  - match goal with
    | |- context [match ?x with _ => _ end] => destruct x as [[o [k|]]|]
    end; try (repeat split; reflexivity).
    match goal with
    | |- context [match ?x with _ => _ end] => destruct x as [[[o' n] r]|]
    end; repeat split; reflexivity.
  - simpl. unfold onServerStreamEnd.
    destruct (stream_end_target event) as [[[a n]|]|]; repeat split; reflexivity.
Qed.

Lemma handle_event_keeps st record :
  let st' := handle_event st record in
  stream st' = stream st
  /\ subscribers st' = subscribers st
  /\ cancelled st' = cancelled st
  /\ reconnectTimeoutMs st' = reconnectTimeoutMs st
  /\ maxReconnectsOnError st' = maxReconnectsOnError st
  /\ console st' = console st ++ (if isProduction then [] else failure_of record).
Proof.
  unfold handle_event, failure_of.
  destruct (JSON_parse record) as [event|].
  - rewrite <- (getMessage_fst event st).
    destruct (getMessage_keeps event st) as (K1 & K2 & K3 & K4 & K5).
    destruct (getMessage_frame event st) as (_ & _ & K6).
    destruct (getMessage event st) as [[m|e] st1]; simpl in *.
    + rewrite K1, K2, K3, K4, K5, K6. destruct isProduction; rewrite app_nil_r;
        repeat split; reflexivity.
    + rewrite log_stream, log_subscribers, log_cancelled, log_console, K1, K2, K3, K6.
      destruct (log_settings
                  {| message := Error "failed to parse watch-api event";
                     meta := MetaParse e record |} st1) as [S1 S2].
      rewrite S1, S2, K4, K5. repeat split; reflexivity.
  - simpl. rewrite log_stream, log_subscribers, log_cancelled, log_console.
    destruct (log_settings
                {| message := Error "failed to parse watch-api event";
                   meta := MetaParse "SyntaxError" record |} st) as [S1 S2].
    rewrite S1, S2. repeat split; reflexivity.
Qed.

Lemma handle_events_keep records : forall st,
  let st' := fold_left handle_event records st in
  stream st' = stream st
  /\ subscribers st' = subscribers st
  /\ cancelled st' = cancelled st
  /\ reconnectTimeoutMs st' = reconnectTimeoutMs st
  /\ maxReconnectsOnError st' = maxReconnectsOnError st
  /\ console st'
     = console st ++ (if isProduction then [] else flat_map failure_of records).
Proof.
  induction records as [|r rest IH]; intros st; cbn [fold_left flat_map].
  - destruct isProduction; rewrite app_nil_r; repeat split; reflexivity.
  - destruct (IH (handle_event st r)) as (E1 & E2 & E3 & E4 & E5 & E6).
    destruct (handle_event_keeps st r) as (F1 & F2 & F3 & F4 & F5 & F6).
    cbv zeta in *. rewrite E1, E2, E3, E4, E5, E6, F1, F2, F3, F4, F5, F6.
    destruct isProduction; rewrite <- ?app_assoc, ?app_nil_r; repeat split; reflexivity.
Qed.

Lemma disconnect_cancelled (st : KubeWatchApi) :
  cancelled (disconnect st)
  = cancelled st ++ match stream st with Some s => [reader s] | None => [] end.
Proof.
  unfold disconnect. destruct (stream st) as [s|]; simpl; rewrite ?app_nil_r; reflexivity.
Qed.

(** X1.  An [ERROR] event is forwarded as it is: its message carries the
    event as [error] and nothing else, it is emitted and handed to every
    consumer, and the client is otherwise left as it was (the stream
    stays open, no cursor moves, nothing is logged or scheduled). *)
Theorem error_event_is_forwarded :
  forall (event : Value) (st : KubeWatchApi) (record : string),
    get_prop event "type" = Normal (VStr "ERROR") ->
    JSON_parse record = Some event ->
    let message := {| data := None; error := Some event; api := None; store := None |} in
    getMessage event st = (Normal message, st)
    /\ handle_event st record = set_onMessage (emit message (onMessage st)) st
    /\ delivered (onMessage (handle_event st record))
       = delivered (onMessage st)
         ++ map (fun consumer => (consumer, message)) (handlers (onMessage st)).
Proof.
  intros event st record Ht Hp message.
  assert (G : getMessage event st = (Normal message, st)).
  { unfold getMessage. rewrite Ht. reflexivity. }
  assert (H : handle_event st record = set_onMessage (emit message (onMessage st)) st).
  { unfold handle_event. rewrite Hp, G. reflexivity. }
  split; [exact G|]. split; [exact H|]. rewrite H. reflexivity.
Qed.

(** X2.  [disconnect] cancels the reader of the active stream and drops
    the stream; without a stream it does nothing, so that calling it
    again changes nothing and cancels nothing a second time. *)
Theorem disconnect_twice :
  forall st : KubeWatchApi,
    disconnect (disconnect st) = disconnect st
    /\ stream (disconnect st) = None
    /\ cancelled (disconnect st)
       = cancelled st ++ match stream st with Some s => [reader s] | None => [] end
    /\ disconnect (set_stream None st) = set_stream None st.
Proof.
  intros st. unfold disconnect.
  destruct (stream st) as [s|] eqn:E; simpl; rewrite ?E, ?app_nil_r;
    repeat split; reflexivity.
Qed.

Lemma payload_without_targets cluster namespaceStore st :
  (forall a, In a (activeApis (subscribers st)) ->
             isAllowedResource cluster (kind a) = false) ->
  getRequestPayload cluster namespaceStore st = [].
Proof.
  unfold getRequestPayload, flat. intros H.
  induction (activeApis (subscribers st)) as [|a r IH]; [reflexivity|].
  cbn [map flat_map]. rewrite (H a) by (left; reflexivity). simpl.
  apply IH. intros b Hb. apply H. right. exact Hb.
Qed.

(** X3.  When none of the active APIs may be watched, in particular when
    nothing is subscribed, [connect] closes the active stream and does
    nothing else: nothing is requested, logged or installed, whatever
    the network would have answered. *)
Theorem connect_without_targets :
  forall (cluster : Cluster) (namespaceStore : NamespaceStore)
         (outcome : FetchOutcome) (st : KubeWatchApi),
    (forall a, In a (activeApis (subscribers st)) ->
               isAllowedResource cluster (kind a) = false) ->
    connect_attempt cluster namespaceStore outcome st = disconnect st.
Proof.
  intros cluster namespaceStore outcome st H. rewrite connect_attempt_eq.
  unfold connect_resume.
  destruct (disconnect_frame st) as (_ & D2 & _).
  rewrite (@payload_without_targets cluster namespaceStore (disconnect st));
    [reflexivity|].
  rewrite D2. exact H.
Qed.

(** X4.  A [connect] whose request is answered replaces the stream: the
    reader of the previous stream is cancelled, [connecting] is logged
    with the payload, and a stream over the body of the response is
    installed whatever the status of the response is; a response without
    a body is logged as a connection error and leaves no stream. *)
Theorem connect_replaces_stream :
  forall (cluster : Cluster) (namespaceStore : NamespaceStore)
         (response : Response) (st : KubeWatchApi),
    getRequestPayload cluster namespaceStore st <> [] ->
    let st' := connect_attempt cluster namespaceStore (Resolved response) st in
    stream st'
    = match body response with Some r => Some {| reader := r |} | None => None end
    /\ cancelled st'
       = cancelled st ++ match stream st with Some s => [reader s] | None => [] end
    /\ logged st'
       = logged st
         ++ {| message := Text "connecting";
               meta := MetaPayload (getRequestPayload cluster namespaceStore st) |}
            :: match body response with
               | Some _ => []
               | None =>
                   [{| message := Error "connection error";
                       meta := MetaError "TypeError: cannot read properties of null" |}]
               end
    /\ onMessage st' = onMessage st
    /\ pending st' = pending st.
Proof.
  intros cluster namespaceStore response st N. cbv zeta.
  rewrite connect_attempt_eq.
  destruct (disconnect_frame st) as (D1 & D2 & D3 & D4 & D5 & D6 & _).
  pose proof (disconnect_cancelled st) as DC.
  unfold connect_resume. rewrite (@payload_ext _ cluster namespaceStore _ _ D2 D3).
  destruct (getRequestPayload cluster namespaceStore st) as [|u us]; [contradiction|].
  destruct (body response) as [r|].
  - cbn [stream cancelled logged onMessage pending set_stream].
    rewrite log_cancelled, log_logged, log_onMessage, log_pending, DC, D4, D5, D6.
    repeat split; reflexivity.
  - rewrite !log_stream, !log_cancelled, !log_logged, !log_onMessage, !log_pending,
      D1, DC, D4, D5, D6, <- app_assoc.
    repeat split; reflexivity.
Qed.

(** X5.  When the refresh after a stream end succeeds, [connect] is called
    once: the active stream is closed and one [connect] waits for its
    payload in place of the awaited refresh; no timer is set and nothing
    is logged. *)
Theorem refresh_success_reconnects :
  forall (event : Value) (kubeApi : KubeApi) (namespace resourceVersion : Value)
         (queue : list Task) (st : KubeWatchApi),
    pending st = queue ++ [StreamEndAwaitsRefresh event kubeApi namespace] ->
    let st' := step (List.length queue) (RefreshSettled (Refreshed resourceVersion)) st in
    pending st' = queue ++ [ConnectAwaitsPayload]
    /\ stream st' = None
    /\ cancelled st'
       = cancelled st ++ match stream st with Some s => [reader s] | None => [] end
    /\ logged st' = logged st
    /\ subscribers st' = subscribers st
    /\ onMessage st' = onMessage st.
Proof.
  intros event kubeApi namespace resourceVersion queue st Hp. cbv zeta.
  rewrite (@step_last _ queue (StreamEndAwaitsRefresh event kubeApi namespace)
             (RefreshSettled (Refreshed resourceVersion)) st Hp eq_refl).
  cbn [resume onServerStreamEnd_resume]. unfold connect, schedule.
  set (s := refreshed kubeApi namespace resourceVersion (set_pending queue st)).
  destruct (disconnect_frame s) as (D1 & D2 & _ & D4 & D5 & D6 & _).
  pose proof (disconnect_cancelled s) as DC.
  cbn [pending stream cancelled logged subscribers onMessage set_pending].
  rewrite D1, D2, D4, D5, D6, DC. repeat split; reflexivity.
Qed.

(** X6.  In production nothing reaches the console while a chunk is
    handled; otherwise the console receives one entry per record that
    fails, in the order of the records, and nothing else. *)
Theorem console_of_a_chunk :
  forall (chunk : list Byte.byte) (st : KubeWatchApi),
    console (handleStreamEvent chunk st)
    = console st
      ++ (if isProduction then [] else flat_map failure_of (records_of chunk)).
Proof.
  intros chunk st. unfold handleStreamEvent, records_of.
  destruct (String.eqb (TextDecoder_decode chunk) "").
  - destruct isProduction; simpl; rewrite app_nil_r; reflexivity.
  - apply handle_events_keep.
Qed.

(** X7.  A chunk whose text is empty is ignored, but a chunk whose text
    is not empty and consists of white space only is not: its trimmed
    text is one empty record, which cannot be parsed and is logged as a
    failure. *)
Theorem blank_chunk_is_logged :
  forall (chunk : list Byte.byte) (st : KubeWatchApi),
    (TextDecoder_decode chunk = "" -> handleStreamEvent chunk st = st)
    /\ (TextDecoder_decode chunk <> "" ->
        Forall (fun c => In c ascii_space)
          (list_ascii_of_string (TextDecoder_decode chunk)) ->
        JSON_parse "" = None ->
        handleStreamEvent chunk st
        = log {| message := Error "failed to parse watch-api event";
                 meta := MetaParse "SyntaxError" "" |} st).
Proof.
  intros chunk st. unfold handleStreamEvent. split.
  - intros ->. reflexivity.
  - intros N Hs Hp. destruct (String.eqb_spec (TextDecoder_decode chunk) "") as [E|_];
      [contradiction|].
    rewrite (trim_spaces _ Hs). cbn [split fold_left]. unfold handle_event.
    rewrite Hp. reflexivity.
Qed.

(** X8.  Handling a chunk never closes or replaces the stream, never
    cancels a reader and never changes the subscriptions or the
    settings, whatever the records of the chunk are. *)
Theorem chunk_keeps_connection :
  forall (chunk : list Byte.byte) (st : KubeWatchApi),
    let st' := handleStreamEvent chunk st in
    stream st' = stream st
    /\ cancelled st' = cancelled st
    /\ subscribers st' = subscribers st
    /\ reconnectTimeoutMs st' = reconnectTimeoutMs st
    /\ maxReconnectsOnError st' = maxReconnectsOnError st.
Proof.
  intros chunk st. cbv zeta. unfold handleStreamEvent.
  destruct (String.eqb (TextDecoder_decode chunk) ""); [repeat split; reflexivity|].
  destruct (handle_events_keep (split newline (trim (TextDecoder_decode chunk))) st)
    as (H1 & H2 & H3 & H4 & H5 & _).
  repeat split; assumption.
Qed.

(** X9.  A handled data event writes two cursors and no other: the
    cursor of every other API, and of the same API for every other
    namespace, is what it was. *)
Theorem data_event_keeps_other_cursors :
  forall (fields ofields mfields : list (string * Value)) (kubeApi other : KubeApi)
         (namespace : Value) (st : KubeWatchApi),
    switch_on (lookup_field fields "type") = CaseData ->
    lookup_field fields "object" = VObj ofields ->
    getApiByKind (lookup_field ofields "kind") (lookup_field ofields "apiVersion")
    = Some kubeApi ->
    lookup_field ofields "metadata" = VObj mfields ->
    cursor_key other namespace <> cursor_key kubeApi (lookup_field mfields "namespace") ->
    cursor_key other namespace <> cursor_key kubeApi (VStr "") ->
    getResourceVersion other namespace (snd (getMessage (VObj fields) st))
    = getResourceVersion other namespace st.
Proof.
  intros fields ofields mfields kubeApi other namespace st Ht Ho Ha Hm N1 N2.
  rewrite (getMessage_handled _ st Ht Ho Ha Hm). cbn [snd].
  unfold getResourceVersion, setResourceVersion. cbn [resourceVersions set_resourceVersions].
  rewrite (JsMapFacts.get_set_neq cursor_eqb_eq _ _ N2).
  apply (JsMapFacts.get_set_neq cursor_eqb_eq _ _ N1).
Qed.

(** X10.  Cursors move for handled data events only: when [getMessage]
    throws, or returns a message without a handler (an unhandled data
    event, an error, a stream end, an unknown tag), the resource
    versions are what they were. *)
Theorem no_handler_no_cursor :
  forall (event : Value) (st : KubeWatchApi),
    match fst (getMessage event st) with
    | Normal message => api message = None
    | Throw _ => True
    end ->
    resourceVersions (snd (getMessage event st)) = resourceVersions st.
Proof.
  intros event st. unfold getMessage.
  destruct (get_prop event "type") as [type|]; [|reflexivity].
  destruct (switch_on type); try reflexivity.
  - match goal with
    | |- context [match bind ?a ?b with _ => _ end] =>
        destruct (bind a b) as [[o [k|]]|]
    end; try reflexivity.
    match goal with
    | |- context [match bind ?a ?b with _ => _ end] =>
        destruct (bind a b) as [[[o' n] r]|]
    end; [|reflexivity].
    simpl. discriminate.
  - intros _. simpl. apply onServerStreamEnd_frame.
Qed.

End MoreClientFacts.

(** X11.  On a registry with positive counts, subscribing and then
    invoking the returned closure gives every API the count it had and
    leaves the active set with the members it had. *)
Theorem subscribe_then_unsubscribe :
  forall (apis : list KubeApi) (subscribers : Subscribers),
    counts_positive subscribers ->
    let after :=
      unsubscribe (snd (subscribe apis subscribers)) (fst (subscribe apis subscribers)) in
    (forall x, getSubscribersCount after x = getSubscribersCount subscribers x)
    /\ (forall x, In x (activeApis after) <-> In x (activeApis subscribers))
    /\ counts_positive after.
Proof.
  intros apis m P after.
  assert (P1 : counts_positive (fold_left subscribe_one apis m))
    by (apply positive_subscribe, P).
  assert (P2 : counts_positive after) by (apply positive_unsubscribe, P1).
  assert (C : forall x, getSubscribersCount after x = getSubscribersCount m x).
  { intros x. unfold after. cbn [fst snd subscribe].
    rewrite (@count_unsubscribe apis _ x P1), (@count_subscribe apis m x P).
    pose proof (@count_nonneg m x P). lia. }
  split; [exact C|]. split; [|exact P2].
  intros x. rewrite (@active_iff_count after x P2), (@active_iff_count m x P), C. tauto.
Qed.

(** X12.  Subscribing to APIs that are all active already changes counts
    only: the active set, in its order, and with it the request payload
    stay the same. *)
Theorem subscribe_active_keeps_payload :
  forall {collaborators : Collaborators} (cluster : Cluster)
         (namespaceStore : NamespaceStore) (apis : list KubeApi) (st : KubeWatchApi),
    (forall a, In a apis -> In a (activeApis (subscribers st))) ->
    let st' := set_subscribers (fst (subscribe apis (subscribers st))) st in
    activeApis (subscribers st') = activeApis (subscribers st)
    /\ getRequestPayload cluster namespaceStore st'
       = getRequestPayload cluster namespaceStore st.
Proof.
  intros collaborators cluster namespaceStore apis st H st'.
  assert (A : forall m : Subscribers,
             (forall a, In a apis -> In a (activeApis m)) ->
             activeApis (fold_left subscribe_one apis m) = activeApis m).
  { clear. induction apis as [|a r IH]; intros m H; [reflexivity|].
    cbn [fold_left].
    assert (E : activeApis (subscribe_one m a) = activeApis m).
    { apply (keys_set_existing KubeApi_eqb m a _ KubeApi_eqb_eq).
      apply H. left. reflexivity. }
    rewrite IH; [exact E|]. intros b Hb. rewrite E. apply H. right. exact Hb. }
  assert (E : activeApis (subscribers st') = activeApis (subscribers st))
    by (apply A, H).
  split; [exact E|]. unfold getRequestPayload. rewrite E. reflexivity.
Qed.

(* ================================================================== *)
(** * Part IV: properties of the kube-config helpers *)
(* ================================================================== *)

Module KubeHelpersFacts.
Import KubeHelpers.

Lemma expand_plain replacement matched before after :
  (forall c, In c (list_ascii_of_string replacement) -> nat_of_ascii c <> 36%nat) ->
  expand replacement matched before after = replacement.
Proof.
  induction replacement as [|c rest IH]; intros H; [reflexivity|].
  cbn [expand]. destruct (Nat.eqb_spec (nat_of_ascii c) 36) as [E|_].
  - exfalso. apply (H c); [left; reflexivity | exact E].
  - f_equal. apply IH. intros d Hd. apply H. right. exact Hd.
Qed.

Lemma append_empty (s : string) : (s ++ "")%string = s.
Proof. induction s as [|a r IH]; [reflexivity | simpl; f_equal; exact IH]. Qed.

Lemma char_is_head c rest code :
  char_is (String c rest) 0 code = Nat.eqb (nat_of_ascii c) code.
Proof. reflexivity. Qed.

(** X13.  [resolveTilde] expands a tilde only when it is the whole path
    or is followed by a slash, and then into the home directory (taken
    literally when it has no dollar sign); the empty path, a path that
    does not start with a tilde and a path such as [~user/x] come back
    as they are. *)
Theorem resolveTilde_leading_tilde_only :
  forall {platform : Platform} (c : ascii) (rest : string),
    ((forall d, In d (list_ascii_of_string homedir) -> nat_of_ascii d <> 36%nat) ->
     resolveTilde "~" = homedir
     /\ resolveTilde (String "~" (String "/" rest)) = (homedir ++ String "/" rest)%string)
    /\ (nat_of_ascii c <> 126%nat -> resolveTilde (String c rest) = String c rest)
    /\ (nat_of_ascii c <> 47%nat ->
        resolveTilde (String "~" (String c rest)) = String "~" (String c rest))
    /\ resolveTilde "" = "".
Proof.
  intros platform c rest. split; [|split; [|split]].
  - intros H. unfold resolveTilde, replace. cbn.
    rewrite !(@expand_plain homedir _ _ _ H). split; [|reflexivity].
    apply append_empty.
  - intros N. unfold resolveTilde. rewrite char_is_head.
    destruct (Nat.eqb_spec (nat_of_ascii c) 126); [contradiction | reflexivity].
  - intros N. unfold resolveTilde. cbn [char_is String.get String.length].
    change (char_is (String "~" (String c rest)) 0 126) with true.
    destruct (Nat.eqb_spec (nat_of_ascii c) 47) as [E|_]; [contradiction|].
    cbn. destruct (String.length rest); reflexivity.
  - reflexivity.
Qed.

Lemma no_items_spec {A} (l : option (list A)) :
  (no_items l = false <-> has_items l).
Proof.
  unfold has_items. destruct l as [[|x r]|]; simpl; split; try discriminate.
  - intros (x & r & E). discriminate.
  - intros _. exists x, r. reflexivity.
  - reflexivity.
  - intros (x & r & E). discriminate.
Qed.

(** X14.  [validateConfig] accepts a configuration exactly when it has at
    least one user, one cluster and one context, and then returns it as
    it is; otherwise the error names the first kind that is missing, in
    the order users, clusters, contexts. *)
Theorem validateConfig_accepts :
  forall {platform : Platform} (config : KubeConfig),
    (validateConfig (inl config) = Ok config
     <-> has_items (users config) /\ has_items (clusters config)
         /\ has_items (contexts config))
    /\ (forall result, validateConfig (inl config) = Ok result -> result = config)
    /\ (~ has_items (users config) ->
        validateConfig (inl config) = Fail (PlainError "No users provided in config"))
    /\ (has_items (users config) -> ~ has_items (clusters config) ->
        validateConfig (inl config) = Fail (PlainError "No clusters provided in config"))
    /\ (has_items (users config) -> has_items (clusters config) ->
        ~ has_items (contexts config) ->
        validateConfig (inl config) = Fail (PlainError "No contexts provided in config")).
Proof.
  intros platform config. unfold validateConfig.
  pose proof (no_items_spec (users config)) as U.
  pose proof (no_items_spec (clusters config)) as C.
  pose proof (no_items_spec (contexts config)) as X.
  destruct (no_items (users config)).
  { assert (NU : ~ has_items (users config))
      by (intros H; apply U in H; discriminate).
    split; [split; [discriminate | tauto]|].
    split; [intros r H; discriminate H|].
    split; [reflexivity|]. split; tauto. }
  assert (HU : has_items (users config)) by (apply U; reflexivity).
  destruct (no_items (clusters config)).
  { assert (NC : ~ has_items (clusters config))
      by (intros H; apply C in H; discriminate).
    split; [split; [discriminate | tauto]|].
    split; [intros r H; discriminate H|].
    split; [tauto|]. split; [reflexivity | tauto]. }
  assert (HC : has_items (clusters config)) by (apply C; reflexivity).
  destruct (no_items (contexts config)).
  { assert (NX : ~ has_items (contexts config))
      by (intros H; apply X in H; discriminate).
    split; [split; [discriminate | tauto]|].
    split; [intros r H; discriminate H|].
    split; [tauto|]. split; [tauto | reflexivity]. }
  assert (HX : has_items (contexts config)) by (apply X; reflexivity).
  split; [split; [tauto | reflexivity]|].
  split; [intros r H; injection H as <-; reflexivity|].
  split; [tauto|]. split; tauto.
Qed.

(** X15.  [splitConfig] gives one configuration per context, in the order
    of the contexts; each has the name of its context as current context
    and at most one cluster, one user and one context.  A configuration
    without a list of contexts splits into nothing. *)
Theorem splitConfig_one_per_context :
  forall {platform : Platform} (config : KubeConfig),
    map currentContext (splitConfig config)
    = match contexts config with
      | Some ctxs => map (fun ctx => Some (context_name ctx)) ctxs
      | None => []
      end
    /\ Forall (fun part =>
                 exists cs us xs,
                   clusters part = Some cs /\ users part = Some us
                   /\ contexts part = Some xs
                   /\ (List.length cs <= 1)%nat /\ (List.length us <= 1)%nat
                   /\ (List.length xs <= 1)%nat)
         (splitConfig config).
Proof.
  intros platform config. unfold splitConfig.
  destruct (contexts config) as [ctxs|]; [|split; [reflexivity | constructor]].
  split.
  - rewrite map_map. reflexivity.
  - apply Forall_forall. intros part Hin. apply in_map_iff in Hin.
    destruct Hin as (ctx & <- & _). unfold config_of_context. cbn.
    eexists _, _, _. repeat split; try reflexivity;
      match goal with |- (List.length (present ?x) <= 1)%nat => destruct x; simpl; lia end.
Qed.

(** X16.  The configuration that [splitConfig] makes for a context passes
    [validateConfig] exactly when the cluster and the user that the
    context names, and the context itself, are found in the
    configuration that was split. *)
Theorem split_config_is_valid :
  forall {platform : Platform} (config : KubeConfig) (ctx : Context),
    validateConfig (inl (config_of_context config ctx))
    = Ok (config_of_context config ctx)
    <-> getCluster config (context_cluster ctx) <> None
        /\ getUser config (context_user ctx) <> None
        /\ getContextObject config (context_name ctx) <> None.
Proof.
  intros platform config ctx. unfold validateConfig, config_of_context. cbn.
  destruct (getCluster config (context_cluster ctx)),
    (getUser config (context_user ctx)),
    (getContextObject config (context_name ctx)); cbn;
    split; intros H; try discriminate; try reflexivity;
    try (repeat split; discriminate);
    try (exfalso; destruct H as (H1 & H2 & H3); congruence).
Qed.

(** X17.  [podHasIssues] answers [false] exactly for a pod that is
    running, whose conditions of type Ready all have the status True
    (a pod without such a condition included) and whose priority is
    missing or at most 500000.  It answers [true], without reading the
    specification of the pod, as soon as a Ready condition has another
    status or the phase is not Running. *)
Theorem podHasIssues_healthy :
  forall (conds : list Condition) (ph : option string) (pspec : option V1PodSpec),
    let pod := {| pod_status := Some {| conditions := Some conds; phase := ph |};
                  pod_spec := pspec |} in
    (podHasIssues pod = Ok false
     <-> (forall c, In c conds -> type c = "Ready" -> status c = "True")
         /\ ph = Some "Running"
         /\ exists s, pspec = Some s
                      /\ match priority s with Some p => p <= 500000 | None => True end)
    /\ ((exists c, In c conds /\ type c = "Ready" /\ status c <> "True")
        \/ ph <> Some "Running" ->
        podHasIssues pod = Ok true).
Proof.
  intros conds ph pspec pod. unfold podHasIssues, pod. cbn.
  set (bad := fun condition =>
                String.eqb (type condition) "Ready"
                && negb (String.eqb (status condition) "True")).
  assert (B : existsb bad conds = false
              <-> forall c, In c conds -> type c = "Ready" -> status c = "True").
  { split.
    - intros H c Hc Ht. destruct (String.eqb_spec (status c) "True") as [E|N]; [exact E|].
      assert (X : existsb bad conds = true).
      { apply existsb_exists. exists c. split; [exact Hc|]. unfold bad.
        rewrite Ht. simpl. destruct (String.eqb_spec (status c) "True");
          [contradiction | reflexivity]. }
      congruence.
    - intros H. destruct (existsb bad conds) eqn:E; [|reflexivity].
      apply existsb_exists in E. destruct E as (c & Hc & Hb). unfold bad in Hb.
      apply andb_true_iff in Hb. destruct Hb as [Ht Hs].
      apply String.eqb_eq in Ht. rewrite (H c Hc Ht) in Hs. discriminate. }
  assert (R : is_string ph "Running" = true <-> ph = Some "Running").
  { destruct ph as [p|]; simpl; [|split; discriminate].
    rewrite String.eqb_eq. split; congruence. }
  split.
  - destruct (existsb bad conds).
    + split; [discriminate|]. intros (H & _). apply B in H. discriminate.
    + destruct (is_string ph "Running"); simpl.
      * destruct pspec as [s|].
        -- split.
           ++ intros E. split; [apply B; reflexivity|]. split; [apply R; reflexivity|].
              exists s. split; [reflexivity|]. destruct (priority s) as [p|]; [|exact I].
              injection E as E. destruct (Z.gtb_spec p 500000); [discriminate | lia].
           ++ intros (_ & _ & s' & Es & Hp). injection Es as <-.
              destruct (priority s) as [p|]; [|reflexivity].
              destruct (Z.gtb_spec p 500000); [lia | reflexivity].
        -- split; [discriminate|]. intros (_ & _ & s & Es & _). discriminate.
      * split; [discriminate|]. intros (_ & H & _). apply R in H. discriminate.
  - intros [(c & Hc & Ht & Hs)|Hp].
    + destruct (existsb bad conds) eqn:E; [reflexivity|].
      exfalso. apply Hs. apply (proj1 B eq_refl c Hc Ht).
    + destruct (existsb bad conds); [reflexivity|].
      destruct (is_string ph "Running") eqn:E; [|reflexivity].
      exfalso. apply Hp. apply R. reflexivity.
Qed.

Lemma lower_letter (c : ascii) (small : nat) :
  (97 <= small <= 122)%nat ->
  lower c = ascii_of_nat small <-> one_of c small (small - 32).
Proof.
  intros Hs. unfold lower, one_of.
  assert (Hc : (nat_of_ascii c < 256)%nat) by apply nat_ascii_bounded.
  destruct ((65 <=? nat_of_ascii c)%nat && (nat_of_ascii c <=? 90)%nat) eqn:E.
  - apply andb_true_iff in E. destruct E as [E1 E2].
    apply Nat.leb_le in E1. apply Nat.leb_le in E2. split.
    + intros H. apply (f_equal nat_of_ascii) in H.
      rewrite !nat_ascii_embedding in H by lia. right. lia.
    + intros [H|H]; [lia|]. f_equal. lia.
  - split.
    + intros H. left. rewrite H. apply nat_ascii_embedding. lia.
    + intros [H|H].
      * rewrite <- H. symmetry. apply ascii_nat_embedding.
      * exfalso. apply andb_false_iff in E.
        destruct E as [E|E]; apply Nat.leb_gt in E; lia.
Qed.

Lemma lower_true s : toLowerCase s = "true" <-> spells_true s.
Proof.
  unfold spells_true. split.
  - destruct s as [|t [|r [|u [|e [|x s]]]]]; cbn [toLowerCase]; try discriminate.
    intros H. injection H as Ht Hr Hu He.
    exists t, r, u, e. split; [reflexivity|].
    repeat split.
    + apply (proj1 (@lower_letter t 116 ltac:(lia))). exact Ht.
    + apply (proj1 (@lower_letter r 114 ltac:(lia))). exact Hr.
    + apply (proj1 (@lower_letter u 117 ltac:(lia))). exact Hu.
    + apply (proj1 (@lower_letter e 101 ltac:(lia))). exact He.
  - intros (t & r & u & e & -> & Ht & Hr & Hu & He). cbn [toLowerCase].
    apply (proj2 (@lower_letter t 116 ltac:(lia))) in Ht.
    apply (proj2 (@lower_letter r 114 ltac:(lia))) in Hr.
    apply (proj2 (@lower_letter u 117 ltac:(lia))) in Hu.
    apply (proj2 (@lower_letter e 101 ltac:(lia))) in He.
    rewrite Ht, Hr, Hu, He. reflexivity.
Qed.

(** X18.  The warning conditions of a node are, in their order, the
    conditions whose status spells true in any mix of cases and whose
    type is neither Ready nor HostUpgrades: a node whose only true
    conditions are of these two types has none. *)
Theorem node_warning_conditions :
  forall (conds : list Condition),
    exists warnings,
      getNodeWarningConditions {| node_conditions := Some conds |} = Ok warnings
      /\ (forall c, In c warnings
                    <-> In c conds /\ spells_true (status c)
                        /\ type c <> "Ready" /\ type c <> "HostUpgrades")
      /\ (exists keep, warnings = filter keep conds)
      /\ ((forall c, In c conds -> spells_true (status c) ->
                     type c = "Ready" \/ type c = "HostUpgrades") ->
          warnings = []).
Proof.
  intros conds. unfold getNodeWarningConditions. cbn. eexists. split; [reflexivity|].
  set (keep := fun c => String.eqb (toLowerCase (status c)) "true"
                        && negb (String.eqb (type c) "Ready")
                        && negb (String.eqb (type c) "HostUpgrades")).
  assert (K : forall c, keep c = true
                        <-> spells_true (status c)
                            /\ type c <> "Ready" /\ type c <> "HostUpgrades").
  { intros c. unfold keep.
    rewrite !andb_true_iff, !negb_true_iff, String.eqb_eq, !String.eqb_neq, lower_true.
    tauto. }
  split; [|split].
  - intros c. rewrite filter_In, K. tauto.
  - exists keep. reflexivity.
  - intros H. induction conds as [|c r IH]; [reflexivity|]. cbn [filter].
    destruct (keep c) eqn:E.
    + apply K in E. destruct E as (E1 & E2 & E3).
      destruct (H c (or_introl eq_refl) E1); contradiction.
    + apply IH. intros d Hd. apply H. right. exact Hd.
Qed.

(** X19.  [validateKubeConfig] succeeds exactly when the context is
    found, its cluster is found unless clusters are not validated, its
    user is found unless users are not validated, and, unless commands
    are not validated, the command of the [exec] of the user, when the
    user has one, is a string that names an existing command.  A context
    that is not found is an error whatever the options are. *)
Theorem validateKubeConfig_accepts :
  forall {platform : Platform} (config : KubeConfig) (contextName : string)
         (opts : KubeConfigValidationOpts),
    (validateKubeConfig config contextName opts = Ok tt
     <-> exists ctx,
           getContextObject config contextName = Some ctx
           /\ (or_true (validateCluster opts) = true ->
               getCluster config (context_cluster ctx) <> None)
           /\ (or_true (validateUser opts) = true ->
               getUser config (context_user ctx) <> None)
           /\ (forall u, getUser config (context_user ctx) = Some u ->
                         or_true (validateExec opts) = true ->
                         truthy (exec u) = true ->
                         exists command,
                           get_prop (exec u) "command" = Normal (VStr command)
                           /\ commandExists_sync command = true))
    /\ (getContextObject config contextName = None ->
        validateKubeConfig config contextName opts
        = Fail (PlainError
                  ("No valid context object provided in kubeconfig for context "
                   ++ quoted_name contextName)%string)).
Proof.
  intros platform config contextName opts. unfold validateKubeConfig. cbv zeta.
  split; [|intros ->; reflexivity].
  destruct (getContextObject config contextName) as [ctx|].
  2:{ split; [discriminate | intros (ctx & E & _); discriminate]. }
  split.
  - intros H.
    destruct (or_true (validateCluster opts)
              && match getCluster config (context_cluster ctx) with
                 | Some _ => false
                 | None => true
                 end) eqn:A; [discriminate|].
    destruct (or_true (validateUser opts)
              && match getUser config (context_user ctx) with
                 | Some _ => false
                 | None => true
                 end) eqn:B; [discriminate|].
    exists ctx. split; [reflexivity|]. split; [|split].
    + intros VC Hn. rewrite VC, Hn in A. discriminate.
    + intros VU Hn. rewrite VU, Hn in B. discriminate.
    + intros u Hu VE TE. rewrite Hu, VE, TE in H. cbn [andb] in H.
      unfold validate_exec in H.
      destruct (get_prop (exec u) "command") as [[| |b|n|command|l|f]|reason];
        try discriminate.
      exists command. split; [reflexivity|].
      destruct (commandExists_sync command); [reflexivity | discriminate].
  - intros (ctx' & E & H1 & H2 & H3). injection E as <-.
    assert (A : or_true (validateCluster opts)
                && match getCluster config (context_cluster ctx) with
                   | Some _ => false
                   | None => true
                   end = false).
    { destruct (or_true (validateCluster opts)); [|reflexivity].
      destruct (getCluster config (context_cluster ctx)); [reflexivity|].
      exfalso. apply (H1 eq_refl). reflexivity. }
    assert (B : or_true (validateUser opts)
                && match getUser config (context_user ctx) with
                   | Some _ => false
                   | None => true
                   end = false).
    { destruct (or_true (validateUser opts)); [|reflexivity].
      destruct (getUser config (context_user ctx)); [reflexivity|].
      exfalso. apply (H2 eq_refl). reflexivity. }
    rewrite A, B.
    destruct (getUser config (context_user ctx)) as [u|]; [|reflexivity].
    destruct (or_true (validateExec opts) && truthy (exec u)) eqn:T; [|reflexivity].
    apply andb_true_iff in T. destruct T as [VE TE].
    destruct (H3 u eq_refl VE TE) as (command & Hc & He).
    unfold validate_exec. rewrite Hc, He. reflexivity.
Qed.

Lemma optional_field v name : optional v name = Normal (field v name).
Proof. destruct v; reflexivity. Qed.

Lemma checkRawContext_complete rawContext :
  is_nullish rawContext = false ->
  exists keep, checkRawContext rawContext = Normal keep
               /\ truthy keep = complete_context rawContext.
Proof.
  intros N. unfold checkRawContext, complete_context.
  rewrite !(@get_prop_field _ _ N). cbn [bind].
  destruct (truthy (field rawContext "name")) eqn:Tn; cbn [negb andb].
  2:{ eexists. split; [reflexivity | exact Tn]. }
  rewrite !optional_field. cbn [bind].
  destruct (truthy (field (field rawContext "context") "cluster")) eqn:Tc; cbn [negb andb].
  - eexists. split; reflexivity.
  - eexists. split; [reflexivity | exact Tc].
Qed.

Lemma checkRawContext_nullish rawContext :
  is_nullish rawContext = true ->
  checkRawContext rawContext
  = (name <- get_prop rawContext "name" ;; Normal name)%completion
  /\ exists reason, get_prop rawContext "name" = Throw reason.
Proof.
  intros N. destruct (@get_prop_nullish _ "name" N) as [reason E].
  unfold checkRawContext. rewrite E. split; [reflexivity | eexists; reflexivity].
Qed.

Lemma filter_raw_complete elems :
  Forall (fun v => is_nullish v = false) elems ->
  filter_raw elems = Normal (filter complete_context elems).
Proof.
  induction 1 as [|v r N _ IH]; [reflexivity|]. cbn [filter_raw filter].
  destruct (@checkRawContext_complete _ N) as (keep & -> & <-).
  cbn [bind]. rewrite IH. reflexivity.
Qed.

Lemma filter_raw_nullish before v after reason :
  Forall (fun v => is_nullish v = false) before ->
  get_prop v "name" = Throw reason ->
  filter_raw (before ++ v :: after) = Throw reason.
Proof.
  intros H E. induction H as [|w r N _ IH]; cbn [app filter_raw].
  - unfold checkRawContext. rewrite E. reflexivity.
  - destruct (@checkRawContext_complete _ N) as (keep & -> & _).
    cbn [bind]. rewrite IH. reflexivity.
Qed.

Lemma not_an_object_spec obj : not_an_object obj = negb (is_object obj).
Proof. destruct obj; reflexivity. Qed.

(** What [loadToOptions] does with a root object, up to the filter. *)
Lemma loadToOptions_object {loader : Loader} rawYaml obj :
  safeLoad rawYaml = Normal obj ->
  is_object obj = true ->
  loadToOptions rawYaml
  = (cs <- newClusters (field obj "clusters") ;;
     us <- newUsers (field obj "users") ;;
     filtered <- filter_contexts (field obj "contexts") ;;
     ctxs <- newContexts filtered ;;
     Normal {| opt_clusters := cs; opt_users := us; opt_contexts := ctxs;
               opt_currentContext := field obj "current-context" |})%completion.
Proof.
  intros L O. unfold loadToOptions. rewrite L. cbn [bind].
  rewrite not_an_object_spec, O. cbn [negb].
  rewrite !(@get_prop_field _ _ (@object_not_nullish _ O)). reflexivity.
Qed.

(** X20.  [loadToOptions] rejects a document whose root is no object
    (a scalar, [null], nothing) with a [TypeError].  For a root object it
    builds the clusters and the users from the raw ones, and the contexts
    from the raw contexts that are complete, in their order: those with a
    truthy name and a truthy cluster and user in their [context]; a raw
    context without [context] is dropped and raises nothing.  When a raw
    context is [null] or [undefined] and those before it are not, reading
    its name raises a [TypeError], which [loadToOptions] throws after the
    clusters and the users have been built.  Raw contexts that are
    missing are handed on as missing. *)
Theorem loadToOptions_filters_contexts :
  forall {loader : Loader} (rawYaml : string) (obj : Value),
    safeLoad rawYaml = Normal obj ->
    (not_an_object obj = true ->
     loadToOptions rawYaml = Throw "TypeError: KubeConfig root entry must be an object")
    /\ (is_object obj = true ->
        (forall elems props,
            field obj "contexts" = VArr elems props ->
            Forall (fun v => is_nullish v = false) elems ->
            loadToOptions rawYaml
            = (cs <- newClusters (field obj "clusters") ;;
               us <- newUsers (field obj "users") ;;
               ctxs <- newContexts (VArr (filter complete_context elems) []) ;;
               Normal {| opt_clusters := cs; opt_users := us; opt_contexts := ctxs;
                         opt_currentContext := field obj "current-context" |})%completion)
        /\ (forall before v after props,
              field obj "contexts" = VArr (before ++ v :: after) props ->
              Forall (fun v => is_nullish v = false) before ->
              is_nullish v = true ->
              exists reason,
                get_prop v "name" = Throw reason
                /\ loadToOptions rawYaml
                   = (cs <- newClusters (field obj "clusters") ;;
                      us <- newUsers (field obj "users") ;;
                      Throw reason)%completion)
        /\ (is_nullish (field obj "contexts") = true ->
            loadToOptions rawYaml
            = (cs <- newClusters (field obj "clusters") ;;
               us <- newUsers (field obj "users") ;;
               ctxs <- newContexts VUndefined ;;
               Normal {| opt_clusters := cs; opt_users := us; opt_contexts := ctxs;
                         opt_currentContext := field obj "current-context" |})%completion))
    /\ (forall name, complete_context (VObj [("name", name)]) = false).
Proof.
  intros loader rawYaml obj L. split; [|split].
  - intros Hn. unfold loadToOptions. rewrite L. cbn [bind]. rewrite Hn. reflexivity.
  - intros O. rewrite (@loadToOptions_object _ rawYaml obj L O). split; [|split].
    + intros elems props -> H. unfold filter_contexts.
      rewrite (@filter_raw_complete _ H). reflexivity.
    + intros before v after props -> H N.
      destruct (@get_prop_nullish _ "name" N) as [reason E].
      exists reason. split; [exact E|]. unfold filter_contexts.
      rewrite (@filter_raw_nullish before v after reason H E). reflexivity.
    + intros N. destruct (field obj "contexts"); simpl in N; try discriminate; reflexivity.
  - intros name. unfold complete_context. cbn. apply andb_false_r.
Qed.

End KubeHelpersFacts.

(* ================================================================== *)
(** * Part V: witnesses of the further properties *)
(* ================================================================== *)

(** X1 at an error event of the server. *)
Lemma error_event_is_forwarded_witness :
  get_prop DemoMore.error_event "type" = Normal (VStr "ERROR")
  /\ @JSON_parse Demo.collaborators DemoMore.error_text = Some DemoMore.error_event
  /\ delivered (onMessage (@handle_event Demo.collaborators Demo.watching
                             DemoMore.error_text))
     = delivered (onMessage Demo.watching)
       ++ map (fun consumer =>
                 (consumer, {| data := None; error := Some DemoMore.error_event;
                               api := None; store := None |}))
            (handlers (onMessage Demo.watching)).
Proof.
  assert (P : @JSON_parse Demo.collaborators DemoMore.error_text
              = Some DemoMore.error_event) by (vm_compute; reflexivity).
  split; [reflexivity|]. split; [exact P|].
  exact (proj2 (proj2 (@error_event_is_forwarded Demo.collaborators
                         DemoMore.error_event Demo.watching DemoMore.error_text
                         eq_refl P))).
Defined.

(** X3 at a new client, which has no subscriber. *)
Lemma connect_without_targets_witness :
  (forall a, In a (activeApis (subscribers new_KubeWatchApi)) ->
             isAllowedResource Demo.cluster (kind a) = false)
  /\ @connect_attempt Demo.collaborators Demo.cluster Demo.namespaceStore
       (Rejected "ECONNREFUSED") new_KubeWatchApi
     = disconnect new_KubeWatchApi.
Proof.
  assert (H : forall a, In a (activeApis (subscribers new_KubeWatchApi)) ->
                        isAllowedResource Demo.cluster (kind a) = false)
    by (intros a []).
  split; [exact H|].
  exact (@connect_without_targets Demo.collaborators Demo.cluster Demo.namespaceStore
           (Rejected "ECONNREFUSED") new_KubeWatchApi H).
Defined.

(** X4 at a response of status 500 while reader 3 is streaming. *)
Lemma connect_replaces_stream_witness :
  @getRequestPayload Demo.collaborators Demo.cluster Demo.namespaceStore
    DemoMore.streaming <> []
  /\ stream (@connect_attempt Demo.collaborators Demo.cluster Demo.namespaceStore
               (Resolved {| status := 500; body := Some 9%nat |}) DemoMore.streaming)
     = Some {| reader := 9%nat |}
  /\ cancelled (@connect_attempt Demo.collaborators Demo.cluster Demo.namespaceStore
                  (Resolved {| status := 500; body := Some 9%nat |}) DemoMore.streaming)
     = cancelled DemoMore.streaming ++ [3%nat].
Proof.
  assert (N : @getRequestPayload Demo.collaborators Demo.cluster Demo.namespaceStore
                DemoMore.streaming <> []) by (vm_compute; discriminate).
  split; [exact N|].
  destruct (@connect_replaces_stream Demo.collaborators Demo.cluster Demo.namespaceStore
              {| status := 500; body := Some 9%nat |} DemoMore.streaming N)
    as (H1 & H2 & _).
  split; [exact H1 | exact H2].
Defined.

(** X5 at the refresh of the pods stream while reader 3 is streaming. *)
Lemma refresh_success_reconnects_witness :
  pending DemoMore.streaming_refresh
  = [] ++ [StreamEndAwaitsRefresh Demo.pods_ended Demo.podsApi (VStr "default")]
  /\ pending (@step Demo.collaborators 0 (RefreshSettled (Refreshed (VStr "200")))
                DemoMore.streaming_refresh)
     = [] ++ [ConnectAwaitsPayload]
  /\ stream (@step Demo.collaborators 0 (RefreshSettled (Refreshed (VStr "200")))
               DemoMore.streaming_refresh)
     = None.
Proof.
  split; [reflexivity|].
  destruct (@refresh_success_reconnects Demo.collaborators Demo.pods_ended
              Demo.podsApi (VStr "default") (VStr "200") []
              DemoMore.streaming_refresh eq_refl) as (H1 & H2 & _).
  split; [exact H1 | exact H2].
Defined.

(** X7 at a chunk of two line feeds and a blank. *)
Lemma blank_chunk_is_logged_witness :
  @TextDecoder_decode Demo.collaborators DemoMore.blank_chunk <> ""
  /\ Forall (fun c => In c ascii_space)
       (list_ascii_of_string (@TextDecoder_decode Demo.collaborators DemoMore.blank_chunk))
  /\ @JSON_parse Demo.collaborators "" = None
  /\ @handleStreamEvent Demo.collaborators DemoMore.blank_chunk Demo.watching
     = @log Demo.collaborators
         {| message := Error "failed to parse watch-api event";
            meta := MetaParse "SyntaxError" "" |} Demo.watching.
Proof.
  assert (N : @TextDecoder_decode Demo.collaborators DemoMore.blank_chunk <> "")
    by (vm_compute; discriminate).
  assert (S : Forall (fun c => In c ascii_space)
                (list_ascii_of_string
                   (@TextDecoder_decode Demo.collaborators DemoMore.blank_chunk))).
  { vm_compute. repeat constructor; tauto. }
  split; [exact N|]. split; [exact S|]. split; [reflexivity|].
  exact (proj2 (@blank_chunk_is_logged Demo.collaborators DemoMore.blank_chunk
                  Demo.watching) N S eq_refl).
Defined.

(** X9 at the modified pod: the cursor of the nodes stays. *)
Lemma data_event_keeps_other_cursors_witness :
  cursor_key Demo.nodesApi (VStr "")
  <> cursor_key Demo.podsApi (lookup_field Demo.pod_metadata "namespace")
  /\ cursor_key Demo.nodesApi (VStr "") <> cursor_key Demo.podsApi (VStr "")
  /\ getResourceVersion Demo.nodesApi (VStr "")
       (snd (@getMessage Demo.collaborators (VObj Demo.pod_modified) Demo.watching))
     = getResourceVersion Demo.nodesApi (VStr "") Demo.watching.
Proof.
  assert (N1 : cursor_key Demo.nodesApi (VStr "")
               <> cursor_key Demo.podsApi (lookup_field Demo.pod_metadata "namespace"))
    by (vm_compute; discriminate).
  assert (N2 : cursor_key Demo.nodesApi (VStr "") <> cursor_key Demo.podsApi (VStr ""))
    by (vm_compute; discriminate).
  split; [exact N1|]. split; [exact N2|].
  exact (@data_event_keeps_other_cursors Demo.collaborators
           Demo.pod_modified Demo.pod_object Demo.pod_metadata Demo.podsApi
           Demo.nodesApi (VStr "") Demo.watching eq_refl eq_refl eq_refl eq_refl N1 N2).
Defined.

(** X10 at a bookmark. *)
Lemma no_handler_no_cursor_witness :
  api empty_message = None
  /\ resourceVersions (snd (@getMessage Demo.collaborators Demo.bookmark Demo.watching))
     = resourceVersions Demo.watching.
Proof.
  split; [reflexivity|].
  exact (@no_handler_no_cursor Demo.collaborators Demo.bookmark Demo.watching eq_refl).
Defined.

(** X11 at a registry that holds the pods API once. *)
Lemma subscribe_then_unsubscribe_witness :
  counts_positive (fst (subscribe [Demo.podsApi] JsMap.empty))
  /\ forall x,
       getSubscribersCount
         (unsubscribe
            (snd (subscribe [Demo.podsApi; Demo.nodesApi]
                    (fst (subscribe [Demo.podsApi] JsMap.empty))))
            (fst (subscribe [Demo.podsApi; Demo.nodesApi]
                    (fst (subscribe [Demo.podsApi] JsMap.empty)))))
         x
       = getSubscribersCount (fst (subscribe [Demo.podsApi] JsMap.empty)) x.
Proof.
  assert (P : counts_positive (fst (subscribe [Demo.podsApi] JsMap.empty)))
    by (repeat constructor).
  split; [exact P|].
  exact (proj1 (@subscribe_then_unsubscribe [Demo.podsApi; Demo.nodesApi]
                  (fst (subscribe [Demo.podsApi] JsMap.empty)) P)).
Defined.

(** X12 at a second subscription to pods, which are active already. *)
Lemma subscribe_active_keeps_payload_witness :
  (forall a, In a [Demo.podsApi] -> In a (activeApis (subscribers Demo.watching)))
  /\ @getRequestPayload Demo.collaborators Demo.cluster Demo.namespaceStore
       (set_subscribers (fst (subscribe [Demo.podsApi] (subscribers Demo.watching)))
          Demo.watching)
     = @getRequestPayload Demo.collaborators Demo.cluster Demo.namespaceStore
         Demo.watching.
Proof.
  assert (H : forall a, In a [Demo.podsApi] ->
                        In a (activeApis (subscribers Demo.watching))).
  { intros a [<-|[]]. left. reflexivity. }
  split; [exact H|].
  exact (proj2 (@subscribe_active_keeps_payload Demo.collaborators Demo.cluster
                  Demo.namespaceStore [Demo.podsApi] Demo.watching H)).
Defined.

(** X13 at the home directory of the small machine. *)
Lemma resolveTilde_leading_tilde_only_witness :
  (forall d, In d (list_ascii_of_string (@KubeHelpers.homedir KubeHelpers.demo_platform)) ->
             nat_of_ascii d <> 36%nat)
  /\ @KubeHelpers.resolveTilde KubeHelpers.demo_platform "~/.kube/config"
     = "/home/lens/.kube/config"
  /\ @KubeHelpers.resolveTilde KubeHelpers.demo_platform "~lens/.kube/config"
     = "~lens/.kube/config".
Proof.
  assert (H : forall d,
             In d (list_ascii_of_string (@KubeHelpers.homedir KubeHelpers.demo_platform)) ->
             nat_of_ascii d <> 36%nat).
  { intros d Hd. vm_compute in Hd.
    repeat (destruct Hd as [<-|Hd]; [vm_compute; discriminate|]). destruct Hd. }
  split; [exact H|].
  destruct (@KubeHelpersFacts.resolveTilde_leading_tilde_only KubeHelpers.demo_platform
              "l" "ens/.kube/config") as (H1 & _ & H3 & _).
  split.
  - exact (proj2 (@proj1 _ _
                    (@KubeHelpersFacts.resolveTilde_leading_tilde_only
                       KubeHelpers.demo_platform "l" ".kube/config") H)).
  - apply H3. vm_compute. discriminate.
Defined.

(** X20 at a document with five raw contexts, of which the first and the
    last are complete. *)
Lemma loadToOptions_filters_contexts_witness :
  @KubeHelpers.safeLoad KubeHelpers.demo_loader KubeHelpers.demo_document
  = Normal KubeHelpers.demo_root
  /\ is_object KubeHelpers.demo_root = true
  /\ field KubeHelpers.demo_root "contexts" = VArr KubeHelpers.demo_raw_contexts []
  /\ Forall (fun v => is_nullish v = false) KubeHelpers.demo_raw_contexts
  /\ @KubeHelpers.loadToOptions KubeHelpers.demo_loader KubeHelpers.demo_document
     = Normal
         {| KubeHelpers.opt_clusters :=
              [{| KubeHelpers.cluster_name := "c1";
                  KubeHelpers.server := "https://c1:6443" |}];
            KubeHelpers.opt_users :=
              [{| KubeHelpers.user_name := "u1"; KubeHelpers.exec := VUndefined |}];
            KubeHelpers.opt_contexts :=
              [{| KubeHelpers.context_name := "dev";
                  KubeHelpers.context_cluster := "c1";
                  KubeHelpers.context_user := "u1" |};
               {| KubeHelpers.context_name := "prod";
                  KubeHelpers.context_cluster := "c1";
                  KubeHelpers.context_user := "u1" |}];
            KubeHelpers.opt_currentContext := VStr "dev" |}.
Proof.
  assert (L : @KubeHelpers.safeLoad KubeHelpers.demo_loader KubeHelpers.demo_document
              = Normal KubeHelpers.demo_root) by (vm_compute; reflexivity).
  assert (A : Forall (fun v => is_nullish v = false) KubeHelpers.demo_raw_contexts)
    by (repeat constructor).
  split; [exact L|]. split; [reflexivity|]. split; [reflexivity|]. split; [exact A|].
  destruct (@KubeHelpersFacts.loadToOptions_filters_contexts
              KubeHelpers.demo_loader KubeHelpers.demo_document KubeHelpers.demo_root L)
    as (_ & H & _).
  destruct (H eq_refl) as (H1 & _).
  rewrite (H1 KubeHelpers.demo_raw_contexts [] eq_refl A). vm_compute. reflexivity.
Defined.

(** A [null] among the raw contexts: the document is refused. *)
Example null_raw_context_is_thrown :
  @KubeHelpers.loadToOptions KubeHelpers.demo_loader KubeHelpers.demo_document_null
  = Throw "TypeError: cannot read properties of null".
Proof.
  vm_compute. reflexivity.
Qed.

(** The three contexts of the small configuration: the first is valid,
    the command of the second does not exist, the cluster of the third
    is not found; without validation of commands the second passes. *)
Example validate_three_contexts :
  @KubeHelpers.validateKubeConfig KubeHelpers.demo_platform KubeHelpers.demo_config
    "prod-admin" KubeHelpers.defaults
  = KubeHelpers.Ok tt
  /\ @KubeHelpers.validateKubeConfig KubeHelpers.demo_platform KubeHelpers.demo_config
       "prod-robot" KubeHelpers.defaults
     = KubeHelpers.Fail (KubeHelpers.ExecValidationNotFoundError "kubelogin" false)
  /\ @KubeHelpers.validateKubeConfig KubeHelpers.demo_platform KubeHelpers.demo_config
       "prod-robot"
       {| KubeHelpers.validateCluster := None; KubeHelpers.validateUser := None;
          KubeHelpers.validateExec := Some false |}
     = KubeHelpers.Ok tt
  /\ @KubeHelpers.validateKubeConfig KubeHelpers.demo_platform KubeHelpers.demo_config
       "lost" KubeHelpers.defaults
     = KubeHelpers.Fail
         (KubeHelpers.PlainError
            "No valid cluster object provided in kubeconfig for context 'lost'")
  /\ List.length (@KubeHelpers.splitConfig KubeHelpers.demo_platform
                    KubeHelpers.demo_config) = 3%nat.
Proof.
  vm_compute. repeat split.
Qed.
